(** * The ocean simulator: synthesis, time evolution, evaluation and baking

    A shallow embedding of the ocean modifier code flow
    ([BKE_ocean_init_from_modifier], [BKE_ocean_init], [BKE_ocean_simulate],
    [simulate_ocean_modifier], the displace loop and the bake loop) and the
    properties of the specification stated over it. *)

From Stdlib Require Import ZArith List Lia Bool.
From Stdlib Require Import Floats.SpecFloat.
From stdpp Require Import base option list gmap strings pretty.

Open Scope Z_scope.

(** ** Machine numbers *)

(** A C [float] is an IEEE 754 binary32 number: 24 bits of precision and a
    largest exponent of 128. *)
Module F32.
Definition prec : Z := 24.
Definition emax : Z := 128.
Definition t : Type := spec_float.

Definition zero : t := S754_zero false.
(** The conversion of an [int] to a [float]. *)
Definition of_int (z : Z) : t := binary_normalize prec emax z 0 false.
Definition one : t := of_int 1.
Definition two : t := of_int 2.

Definition add : t -> t -> t := SFadd prec emax.
Definition sub : t -> t -> t := SFsub prec emax.
Definition mul : t -> t -> t := SFmul prec emax.
Definition div : t -> t -> t := SFdiv prec emax.
Definition sqrt : t -> t := SFsqrt prec emax.
Definition ltb : t -> t -> bool := SFltb.
Definition leb : t -> t -> bool := SFleb.
Definition opp : t -> t := SFopp.
(** The largest integer that is not above a finite number. *)
Definition floor (x : t) : Z :=
  match x with
  | S754_finite s m e =>
      let z := cond_Zopp s (Zpos m) in
      if 0 <=? e then z * 2 ^ e else z / 2 ^ (- e)
  | _ => 0
  end.
(** [x > y] of C. *)
Definition gtb (x y : t) : bool := ltb y x.
Definition is_finite (x : t) : bool :=
  match x with
  | S754_zero _ | S754_finite _ _ _ => true
  | _ => false
  end.
End F32.

(** A C [int] is 32 bits wide and a [short] 16; arithmetic that leaves the
    range wraps. *)
Definition INT_MAX : Z := 2147483647.
Definition int_wrap (z : Z) : Z := (z + 2 ^ 31) mod 2 ^ 32 - 2 ^ 31.
Definition int_add (a b : Z) : Z := int_wrap (a + b).
Definition int_mul (a b : Z) : Z := int_wrap (a * b).
Definition short_wrap (z : Z) : Z := (z + 2 ^ 15) mod 2 ^ 16 - 2 ^ 15.
(** The truth value of an integer used as a condition. *)
Definition truthy (z : Z) : bool := negb (z =? 0).

(** ** Arrays and loops *)

(** A C array is a list; a read or a write outside of it has no defined
    behaviour and is the failure [None] of the model. *)
Definition array_get {A} (a : list A) (i : Z) : option A :=
  if 0 <=? i then a !! Z.to_nat i else None.

Definition array_set {A} (a : list A) (i : Z) (v : A) : option (list A) :=
  if (0 <=? i) && (i <? Z.of_nat (length a))
  then Some (<[Z.to_nat i := v]> a)
  else None.

(** [for (i = lo; i < hi; i++) body], threading the state [s]. *)
Fixpoint for_loop {S} (n : nat) (i : Z) (body : Z -> S -> option S) (s : S)
  : option S :=
  match n with
  | O => Some s
  | Datatypes.S n' =>
      match body i s with
      | Some s' => for_loop n' (i + 1) body s'
      | None => None
      end
  end.

Definition for_range {S} (lo hi : Z) (body : Z -> S -> option S) (s : S)
  : option S :=
  for_loop (Z.to_nat (hi - lo)) lo body s.

(** ** Data *)

(** A [float[3]]: a vertex coordinate [co], a displacement or a normal. *)
Record float3 := { f3_0 : F32.t; f3_1 : F32.t; f3_2 : F32.t }.

(** A complex number of the transform library: two doubles, the real and the
    imaginary part. *)
Definition complex : Type := spec_float * spec_float.

(** [OceanModifierData]: the fields the code flow reads. *)
Record OceanModifierData := {
  resolution : Z;
  spatial_size : Z;
  wind_velocity : F32.t;
  smallest_wave : F32.t;
  wave_alignment : F32.t;
  depth : F32.t;
  wave_direction : F32.t;
  chop_amount : F32.t;
  damp : F32.t;
  time : F32.t;
  scale : F32.t;
  spectrum : Z;
  fetch_jonswap : F32.t;
  sharpen_peak_jonswap : F32.t;
  flag : Z;
  seed : Z;
  cached : bool;
  location : float3;
}.

(** The physical parameters handed to [BKE_ocean_init], as the ocean keeps
    them; the spectrum [Ph] reads them. *)
Record OceanParams := {
  p_Lx : F32.t;
  p_Lz : F32.t;
  p_V : F32.t;
  p_l : F32.t;
  p_A : F32.t;
  p_w : F32.t;
  p_damp : F32.t;
  p_alignment : F32.t;
  p_depth : F32.t;
  p_time : F32.t;
  p_spectrum : Z;
  p_fetch_jonswap : F32.t;
  p_sharpen_peak_jonswap : F32.t;
  p_do_spray : Z;
  p_seed : Z;
}.

(** The spatial fields one simulation step can produce. *)
Inductive SpatialField :=
  | DispY | DispX | DispZ | Jxx | Jzz | Jxz | NormalX | NormalZ.

#[global] Instance SpatialField_eq_dec : EqDecision SpatialField.
Proof. solve_decision. Defined.

(** The arrays of an ocean: the static amplitudes, the time-evolved
    amplitudes and one grid per spatial field. *)
Record OceanArrays := {
  a_h0 : list complex;
  a_htilda : list complex;
  a_disp_y : list F32.t;
  a_disp_x : list F32.t;
  a_disp_z : list F32.t;
  a_Jxx : list F32.t;
  a_Jzz : list F32.t;
  a_Jxz : list F32.t;
  a_N_x : list F32.t;
  a_N_z : list F32.t;
}.

(** [Ocean]: the grid, the feature flags, the parameters, the wavenumber
    tables and the arrays. The arrays are grouped in [_arrays]: [_h0 o] is
    [o->_h0], [_htilda o] is [o->_htilda], and [get_field f o] is the grid
    of the spatial field [f]. *)
Record Ocean := {
  _M : Z;
  _N : Z;
  _do_disp_y : Z;
  _do_normals : Z;
  _do_chop : Z;
  _do_jacobian : Z;
  _params : OceanParams;
  _kx : list F32.t;
  _kz : list F32.t;
  _arrays : OceanArrays;
}.

Definition _h0 (o : Ocean) : list complex := a_h0 (_arrays o).
Definition _htilda (o : Ocean) : list complex := a_htilda (_arrays o).

Definition field_of (a : OceanArrays) (f : SpatialField) : list F32.t :=
  match f with
  | DispY => a_disp_y a
  | DispX => a_disp_x a
  | DispZ => a_disp_z a
  | Jxx => a_Jxx a
  | Jzz => a_Jzz a
  | Jxz => a_Jxz a
  | NormalX => a_N_x a
  | NormalZ => a_N_z a
  end.

Definition get_field (f : SpatialField) (o : Ocean) : list F32.t :=
  field_of (_arrays o) f.

Definition with_arrays (o : Ocean) (a : OceanArrays) : Ocean :=
  {| _M := _M o; _N := _N o;
     _do_disp_y := _do_disp_y o; _do_normals := _do_normals o;
     _do_chop := _do_chop o; _do_jacobian := _do_jacobian o;
     _params := _params o; _kx := _kx o; _kz := _kz o;
     _arrays := a |}.

Definition set_h0 (v : list complex) (o : Ocean) : Ocean :=
  let a := _arrays o in
  with_arrays o
    {| a_h0 := v; a_htilda := a_htilda a;
       a_disp_y := a_disp_y a; a_disp_x := a_disp_x a; a_disp_z := a_disp_z a;
       a_Jxx := a_Jxx a; a_Jzz := a_Jzz a; a_Jxz := a_Jxz a;
       a_N_x := a_N_x a; a_N_z := a_N_z a |}.

Definition set_htilda (v : list complex) (o : Ocean) : Ocean :=
  let a := _arrays o in
  with_arrays o
    {| a_h0 := a_h0 a; a_htilda := v;
       a_disp_y := a_disp_y a; a_disp_x := a_disp_x a; a_disp_z := a_disp_z a;
       a_Jxx := a_Jxx a; a_Jzz := a_Jzz a; a_Jxz := a_Jxz a;
       a_N_x := a_N_x a; a_N_z := a_N_z a |}.

Definition set_field (f : SpatialField) (v : list F32.t) (o : Ocean) : Ocean :=
  let a := _arrays o in
  let pick g := if decide (f = g) then v else field_of a g in
  with_arrays o
    {| a_h0 := a_h0 a; a_htilda := a_htilda a;
       a_disp_y := pick DispY; a_disp_x := pick DispX; a_disp_z := pick DispZ;
       a_Jxx := pick Jxx; a_Jzz := pick Jzz; a_Jxz := pick Jxz;
       a_N_x := pick NormalX; a_N_z := pick NormalZ |}.

(** [OceanResult]: what an evaluation writes for one point. *)
Record OceanResult := {
  disp : float3;
  normal : float3;
  foam : F32.t;
}.

(** [OceanSimulateData]: the arguments of one simulation step, as the row
    tasks and the transforms get them. *)
Record OceanSimulateData := {
  osd_t : F32.t;
  osd_scale : F32.t;
  osd_chop_amount : F32.t;
}.

(** What a transform reads: the grid, the wavenumber tables, the time-evolved
    amplitudes and the arguments of the step. *)
Record TransformInput := {
  ti_M : Z;
  ti_N : Z;
  ti_kx : list F32.t;
  ti_kz : list F32.t;
  ti_htilda : list complex;
  ti_osd : OceanSimulateData;
}.

Definition transform_input (osd : OceanSimulateData) (o : Ocean)
  : TransformInput :=
  {| ti_M := _M o; ti_N := _N o; ti_kx := _kx o; ti_kz := _kz o;
     ti_htilda := _htilda o; ti_osd := osd |}.


(** An image as [BKE_imbuf_write] gets it: the pixels of a buffer, vectors
    ([ibuf_disp]) or scalars ([ibuf_foam]). *)
Inductive ImBuf :=
  | ImBuf_float3 (pixels : list float3)
  | ImBuf_float (pixels : list F32.t).

(** [OceanCache]: the frame range, the scale factors, the resolution of the
    baked grids ([res_x] and [res_y] of the bake loops) and the files written
    so far, by file name. *)
Record OceanCache := {
  och_start : Z;
  och_end : Z;
  och_wave_scale : F32.t;
  och_chop_amount : F32.t;
  och_resolution_x : Z;
  och_resolution_y : Z;
  och_files : gmap string ImBuf;
}.

(** ** What the code flow calls and does not show *)

(** The helpers and constants declared outside of the code flow: the seeded
    generator ([BLI_rng_new seed] is its state for a seed, [gaussRand] draws
    one value and advances the state), the complex helpers of the synthesis
    loop ([init_complex] builds [r1r2] from the two draws, [mul_complex_f]
    scales a complex number by a [float]), the spectrum [Ph(o, kx, kz)], the
    table of wavenumbers of an axis, the flag bits of [omd->flag], the spray
    flag, and the inverse transform behind each [ocean_compute_*] of
    [BKE_ocean_simulate]. *)
Class OceanExterns := {
  RNG : Type;
  BLI_rng_new : Z -> RNG;
  gaussRand : RNG -> F32.t * RNG;
  init_complex : F32.t -> F32.t -> complex;
  mul_complex_f : complex -> F32.t -> complex;
  Ph : OceanParams -> F32.t -> F32.t -> F32.t;
  ocean_wavenumbers : Z -> F32.t -> list F32.t;
  MOD_OCEAN_GENERATE_NORMALS : Z;
  MOD_OCEAN_GENERATE_FOAM : Z;
  do_spray : Z;
  ocean_transform : SpatialField -> TransformInput -> list F32.t;
}.

(** The functions of the ocean kernel whose bodies are outside of the code
    flow: the row task of the time evolution, the two evaluators and the
    playback of a baked frame. The row task writes entries of [_htilda] and
    gives the array as it leaves it; an evaluator writes into the result
    [ocr] it is handed. *)
Class OceanKernels := {
  ocean_compute_htilda : OceanSimulateData -> Z -> Ocean -> option (list complex);
  BKE_ocean_eval_ij : Ocean -> OceanResult -> Z -> Z -> OceanResult;
  BKE_ocean_eval_uv : Ocean -> OceanResult -> F32.t -> F32.t -> OceanResult;
  BKE_ocean_simulate_cache : OceanCache -> Z -> OceanCache;
}.

(** ** The code flow *)

Section CodeFlow.
Context `{E : OceanExterns} `{K : OceanKernels}.

(** *** Synthesis: [BKE_ocean_init] *)

(** The body of the double loop over the grid:
    [r1 = gaussRand(rng); r2 = gaussRand(rng);
     mul_complex_f(o->_h0[i * o->_N + j], r1r2,
                   sqrt(Ph(o, o->_kx[i], o->_kz[j]) / 2.0f))]. *)
Definition ocean_init_h0_at (o : Ocean) (i j : Z)
  (st : list complex * RNG) : option (list complex * RNG) :=
  let '(h0, rng) := st in
  let '(r1, rng) := gaussRand rng in
  let '(r2, rng) := gaussRand rng in
  kxi ← array_get (_kx o) i;
  kzj ← array_get (_kz o) j;
  let amp := F32.sqrt (F32.div (Ph (_params o) kxi kzj) F32.two) in
  h0 ← array_set h0 (int_add (int_mul i (_N o)) j)
         (mul_complex_f (init_complex r1 r2) amp);
  Some (h0, rng).

Definition ocean_init_h0 (o : Ocean) (rng : RNG)
  : option (list complex * RNG) :=
  for_range 0 (_M o)
    (fun i => for_range 0 (_N o) (fun j => ocean_init_h0_at o i j))
    (_h0 o, rng).

(** [BKE_ocean_init]. The excerpt shows the synthesis loop of the function;
    the loop and [BKE_ocean_simulate] read the grid, the flags, the
    wavenumber tables and the arrays from the ocean, so the function stores
    them before the loop. The arrays [mem] are the blocks the ocean gets
    from the allocator, with whatever they hold; the generator is seeded
    with [seed]. [Some o'] is the return value [true]; the ocean handed in is
    overwritten. *)
Definition BKE_ocean_init (mem : OceanArrays) (o : Ocean)
  (M N : Z) (Lx Lz V l A w damp alignment depth time : F32.t)
  (spectrum : Z) (fetch_jonswap sharpen_peak_jonswap : F32.t)
  (do_height_field do_chop do_spray do_normals do_jacobian : Z)
  (seed : Z) : option Ocean :=
  let o :=
    {| _M := M; _N := N;
       _do_disp_y := do_height_field; _do_normals := do_normals;
       _do_chop := do_chop; _do_jacobian := do_jacobian;
       _params :=
         {| p_Lx := Lx; p_Lz := Lz; p_V := V; p_l := l; p_A := A; p_w := w;
            p_damp := damp; p_alignment := alignment; p_depth := depth;
            p_time := time; p_spectrum := spectrum;
            p_fetch_jonswap := fetch_jonswap;
            p_sharpen_peak_jonswap := sharpen_peak_jonswap;
            p_do_spray := do_spray; p_seed := seed |};
       _kx := ocean_wavenumbers M Lx;
       _kz := ocean_wavenumbers N Lz;
       _arrays := mem |} in
  '(h0, _) ← ocean_init_h0 o (BLI_rng_new seed);
  Some (set_h0 h0 o).

(** [BKE_ocean_init_from_modifier]. *)
Definition BKE_ocean_init_from_modifier (mem : OceanArrays) (ocean : Ocean)
  (omd : OceanModifierData) (resolution : Z) : option Ocean :=
  let do_heightfield := 1 in
  let do_chop := if F32.gtb (chop_amount omd) (F32.of_int 0) then 1 else 0 in
  let do_normals := short_wrap (Z.land (flag omd) MOD_OCEAN_GENERATE_NORMALS) in
  let do_jacobian := short_wrap (Z.land (flag omd) MOD_OCEAN_GENERATE_FOAM) in
  BKE_ocean_init mem ocean
    (int_mul resolution resolution)
    (int_mul resolution resolution)
    (F32.of_int (spatial_size omd))
    (F32.of_int (spatial_size omd))
    (wind_velocity omd)
    (smallest_wave omd)
    F32.one
    (wave_direction omd)
    (damp omd)
    (wave_alignment omd)
    (depth omd)
    (time omd)
    (spectrum omd)
    (fetch_jonswap omd)
    (sharpen_peak_jonswap omd)
    do_heightfield
    do_chop
    do_spray
    do_normals
    do_jacobian
    (seed omd).

(** [BKE_ocean_add]: a zeroed ocean, without arrays. *)
Definition BKE_ocean_add : Ocean :=
  let z := F32.zero in
  {| _M := 0; _N := 0;
     _do_disp_y := 0; _do_normals := 0; _do_chop := 0; _do_jacobian := 0;
     _params :=
       {| p_Lx := z; p_Lz := z; p_V := z; p_l := z; p_A := z; p_w := z;
          p_damp := z; p_alignment := z; p_depth := z; p_time := z;
          p_spectrum := 0; p_fetch_jonswap := z;
          p_sharpen_peak_jonswap := z; p_do_spray := 0; p_seed := 0 |};
     _kx := []; _kz := [];
     _arrays :=
       {| a_h0 := []; a_htilda := [];
          a_disp_y := []; a_disp_x := []; a_disp_z := [];
          a_Jxx := []; a_Jzz := []; a_Jxz := [];
          a_N_x := []; a_N_z := [] |} |}.

(** [init_data]: the defaults of a new modifier, and the ocean made for it.
    The fields the excerpt leaves to "more defaults" keep their value. The
    literal [0.01] is the [float] nearest to it. *)
Definition init_data (mem : OceanArrays) (md : OceanModifierData)
  : option (OceanModifierData * Ocean) :=
  let omd :=
    {| resolution := 7;
       spatial_size := 50;
       wind_velocity := F32.of_int 30;
       smallest_wave := S754_finite false 10737418 (-30);
       wave_alignment := F32.of_int 0;
       depth := F32.of_int 200;
       wave_direction := F32.of_int 0;
       chop_amount := F32.of_int 1;
       damp := damp md; time := time md; scale := scale md;
       spectrum := spectrum md; fetch_jonswap := fetch_jonswap md;
       sharpen_peak_jonswap := sharpen_peak_jonswap md;
       flag := flag md; seed := seed md; cached := cached md;
       location := location md |} in
  ocean ← BKE_ocean_init_from_modifier mem BKE_ocean_add omd (resolution omd);
  Some (omd, ocean).

(** *** Time evolution and transforms: [BKE_ocean_simulate] *)

(** What one simulation step runs: the row task of the time evolution for a
    row, or the transform of a spatial field. *)
Inductive OceanTask :=
  | Task_htilda (i : Z)
  | Task_transform (f : SpatialField).

(** A step threads the ocean and the list of the tasks it has run. *)
Definition SimState : Type := Ocean * list OceanTask.

(** [BLI_task_parallel_range(0, o->_M, &osd, ocean_compute_htilda, ...)]: the
    row task once per row, all of them done when the call returns. The
    parallel loop fixes no order of the rows; the model runs them one after
    the other by increasing row, one of the schedules the loop may take, and
    no statement about a step says in which order the rows ran. *)
Definition BLI_task_parallel_range (lo hi : Z) (osd : OceanSimulateData)
  (st : SimState) : option SimState :=
  for_range lo hi
    (fun i '(o, log) =>
       htilda ← ocean_compute_htilda osd i o;
       Some (set_htilda htilda o, log ++ [Task_htilda i]))
    st.

(** One [ocean_compute_*] of the second phase: the field is replaced by its
    transform. *)
Definition ocean_compute (f : SpatialField) (osd : OceanSimulateData)
  (st : SimState) : SimState :=
  let '(o, log) := st in
  (set_field f (ocean_transform f (transform_input osd o)) o,
   log ++ [Task_transform f]).

Definition ocean_compute_displacement_y := ocean_compute DispY.
Definition ocean_compute_displacement_x := ocean_compute DispX.
Definition ocean_compute_displacement_z := ocean_compute DispZ.
Definition ocean_compute_jacobian_jxx := ocean_compute Jxx.
Definition ocean_compute_jacobian_jzz := ocean_compute Jzz.
Definition ocean_compute_jacobian_jxz := ocean_compute Jxz.
Definition ocean_compute_normal_x := ocean_compute NormalX.
Definition ocean_compute_normal_z := ocean_compute NormalZ.

(** [if (c) body]. *)
Definition when {S} (c : Z) (body : S -> S) (s : S) : S :=
  if truthy c then body s else s.

(** [BKE_ocean_simulate]. *)
Definition BKE_ocean_simulate (o : Ocean) (t scale chop_amount : F32.t)
  : option SimState :=
  let osd := {| osd_t := t; osd_scale := scale;
                osd_chop_amount := chop_amount |} in
  st ← BLI_task_parallel_range 0 (_M o) osd (o, []);
  let st := when (_do_disp_y o) (ocean_compute_displacement_y osd) st in
  let st := when (_do_chop o)
              (fun st => ocean_compute_displacement_z osd
                           (ocean_compute_displacement_x osd st)) st in
  let st := when (_do_jacobian o)
              (fun st => ocean_compute_jacobian_jxz osd
                           (ocean_compute_jacobian_jzz osd
                              (ocean_compute_jacobian_jxx osd st))) st in
  let st := when (_do_normals o)
              (fun st => ocean_compute_normal_z osd
                           (ocean_compute_normal_x osd st)) st in
  Some st.

(** [simulate_ocean_modifier]: a live step, or the playback of the frame
    from the cache. *)
Definition simulate_ocean_modifier (omd : OceanModifierData) (ocean : Ocean)
  (oceancache : OceanCache) (frame : Z) : option (SimState + OceanCache) :=
  if negb (cached omd) then
    st ← BKE_ocean_simulate ocean (time omd) (scale omd) (chop_amount omd);
    Some (inl st)
  else
    Some (inr (BKE_ocean_simulate_cache oceancache frame)).

(** *** Displace mode *)

(** The body of the loop over the vertices: the vertex is mapped to the
    ocean's UV, the ocean is evaluated there, and the displacement is
    applied. *)
Definition displace_vertex (omd : OceanModifierData) (ocean : Ocean)
  (co : float3) (ocr : OceanResult) : float3 * OceanResult :=
  let u := F32.div (F32.sub (f3_0 co) (f3_0 (location omd)))
             (F32.of_int (spatial_size omd)) in
  let v := F32.div (F32.sub (f3_2 co) (f3_2 (location omd)))
             (F32.of_int (spatial_size omd)) in
  let ocr := BKE_ocean_eval_uv ocean ocr u v in
  ({| f3_0 := f3_0 co;
      f3_1 := F32.add (f3_1 co) (F32.mul (f3_1 (disp ocr)) (scale omd));
      f3_2 := f3_2 co |},
   ocr).

Definition displace_ocean_mesh (omd : OceanModifierData) (ocean : Ocean)
  (verts : list float3) (verts_num : Z) (ocr : OceanResult)
  : option (list float3 * OceanResult) :=
  for_range 0 verts_num
    (fun i '(verts, ocr) =>
       co ← array_get verts i;
       let '(co, ocr) := displace_vertex omd ocean co ocr in
       verts ← array_set verts i co;
       Some (verts, ocr))
    (verts, ocr).

(** *** Baking *)








End CodeFlow.

(** ** The parts the specification describes and the code flow leaves out *)

(** The mathematics the specification names without a formula: complex sum,
    product and conjugate, [e^{i x}], the dispersion relation [omega] of a
    wavenumber, the static amplitude kept for the wavenumber [-k] of the
    entry [(i, j)], the foam of the three jacobian fields and the normal of
    the two normal fields. *)
Class OceanMath := {
  cadd : complex -> complex -> complex;
  cmul : complex -> complex -> complex;
  cconj : complex -> complex;
  cexp_i : F32.t -> complex;
  omega : OceanParams -> F32.t -> F32.t -> F32.t;
  h0_minus_k : list complex -> Z -> Z -> Z -> Z -> complex;
  foam_of_jacobian : F32.t -> F32.t -> F32.t -> F32.t;
  normal_of : F32.t -> F32.t -> float3;
}.

Section SpecModel.
Context `{E : OceanExterns} `{Mth : OceanMath}.

(** The number of entries of a half-spectrum field, [M * (N/2 + 1)]. *)
Definition half_spectrum_size (M N : Z) : Z := M * (N / 2 + 1).

(** Modelled from the spec: the body of the row task [ocean_compute_htilda]
    is missing. For each wavenumber of the row,
    [h(k,t) = h0(k) * e^{i omega t} + conj(h0(-k)) * e^{-i omega t}], stored
    in the half-spectrum field. *)
Definition htilda_at (osd : OceanSimulateData) (o : Ocean) (i j : Z)
  : option complex :=
  kxi ← array_get (_kx o) i;
  kzj ← array_get (_kz o) j;
  h0k ← array_get (_h0 o) (i * _N o + j);
  let wt := F32.mul (omega (_params o) kxi kzj) (osd_t osd) in
  Some (cadd (cmul h0k (cexp_i wt))
             (cmul (cconj (h0_minus_k (_h0 o) (_M o) (_N o) i j))
                   (cexp_i (F32.opp wt)))).

(** Modelled from the spec: the row task [ocean_compute_htilda] for the
    row [i], over the [N/2 + 1] columns of the half spectrum. *)
Definition advance_row (osd : OceanSimulateData) (i : Z) (o : Ocean)
  : option (list complex) :=
  for_range 0 (_N o / 2 + 1)
    (fun j htilda =>
       h ← htilda_at osd o i j;
       array_set htilda (i * (_N o / 2 + 1) + j) h)
    (_htilda o).

(** Modelled from the spec: the neutral value of an evaluation, which the
    code flow does not show: zero displacement, the normal that points up,
    zero foam. *)
Definition up_normal : float3 :=
  {| f3_0 := F32.zero; f3_1 := F32.one; f3_2 := F32.zero |}.


(** The value of a spatial field at an index of the grid. *)
Definition sample (f : SpatialField) (o : Ocean) (idx : Z) : F32.t :=
  default F32.zero (array_get (get_field f o) idx).

(** Modelled from the spec: the body of [BKE_ocean_eval_ij] is missing.
    [eval_grid(i,j)] reads the grids at [(i mod M, j mod N)]; the channel of
    a feature whose flag is unset has its neutral value. *)
Definition eval_grid (o : Ocean) (i j : Z) : OceanResult :=
  let idx := (i mod _M o) * _N o + (j mod _N o) in
  {| disp :=
       {| f3_0 := if truthy (_do_chop o) then sample DispX o idx
                  else F32.zero;
          f3_1 := if truthy (_do_disp_y o) then sample DispY o idx
                  else F32.zero;
          f3_2 := if truthy (_do_chop o) then sample DispZ o idx
                  else F32.zero |};
     normal :=
       if truthy (_do_normals o)
       then normal_of (sample NormalX o idx) (sample NormalZ o idx)
       else up_normal;
     foam :=
       if truthy (_do_jacobian o)
       then foam_of_jacobian (sample Jxx o idx) (sample Jzz o idx)
              (sample Jxz o idx)
       else F32.zero |}.

(** Modelled from the spec: the bilinear interpolation of four samples,
    part of the missing body of [BKE_ocean_eval_uv]. *)
Definition lerp (a b f : F32.t) : F32.t :=
  F32.add a (F32.mul f (F32.sub b a)).

Definition bilerp (p00 p10 p01 p11 fx fy : F32.t) : F32.t :=
  lerp (lerp p00 p10 fx) (lerp p01 p11 fx) fy.

Definition bilerp3 (p00 p10 p01 p11 : float3) (fx fy : F32.t) : float3 :=
  {| f3_0 := bilerp (f3_0 p00) (f3_0 p10) (f3_0 p01) (f3_0 p11) fx fy;
     f3_1 := bilerp (f3_1 p00) (f3_1 p10) (f3_1 p01) (f3_1 p11) fx fy;
     f3_2 := bilerp (f3_2 p00) (f3_2 p10) (f3_2 p01) (f3_2 p11) fx fy |}.

Inductive EvalError := DomainError.

(** Modelled from the spec: the body of [BKE_ocean_eval_uv] is missing.
    [eval_uv(u,v)] refuses a coordinate that is not finite; otherwise it
    maps [(u,v)] to fractional grid coordinates and interpolates the four
    surrounding [eval_grid] samples, each enabled channel on its own; the
    channel of a feature whose flag is unset has its neutral value. *)
Definition eval_uv (o : Ocean) (u v : F32.t) : EvalError + OceanResult :=
  if F32.is_finite u && F32.is_finite v then
    let uu := F32.mul u (F32.of_int (_M o)) in
    let vv := F32.mul v (F32.of_int (_N o)) in
    let i0 := F32.floor uu in
    let j0 := F32.floor vv in
    let fx := F32.sub uu (F32.of_int i0) in
    let fy := F32.sub vv (F32.of_int j0) in
    let r00 := eval_grid o i0 j0 in
    let r10 := eval_grid o (i0 + 1) j0 in
    let r01 := eval_grid o i0 (j0 + 1) in
    let r11 := eval_grid o (i0 + 1) (j0 + 1) in
    let d := bilerp3 (disp r00) (disp r10) (disp r01) (disp r11) fx fy in
    inr
      {| disp :=
           {| f3_0 := if truthy (_do_chop o) then f3_0 d else F32.zero;
              f3_1 := if truthy (_do_disp_y o) then f3_1 d else F32.zero;
              f3_2 := if truthy (_do_chop o) then f3_2 d else F32.zero |};
         normal :=
           if truthy (_do_normals o)
           then bilerp3 (normal r00) (normal r10) (normal r01) (normal r11)
                  fx fy
           else up_normal;
         foam :=
           if truthy (_do_jacobian o)
           then bilerp (foam r00) (foam r10) (foam r01) (foam r11) fx fy
           else F32.zero |}
  else inl DomainError.








(** Modelled from the spec: the kernel functions as the specification
    describes them. The playback of a frame reads the cache and leaves it as
    it is; an evaluation that is refused leaves the result as it was. *)
Definition spec_kernels : OceanKernels :=
  {| ocean_compute_htilda := advance_row;
     BKE_ocean_eval_ij := fun o _ i j => eval_grid o i j;
     BKE_ocean_eval_uv := fun o ocr u v =>
       match eval_uv o u v with
       | inr r => r
       | inl _ => ocr
       end;
     BKE_ocean_simulate_cache := fun och _ => och |}.

End SpecModel.

(** ** The words of the statements *)

Section Statements.
Context `{E : OceanExterns}.

(** The state of the generator after [n] draws, and the draw number [n]
    (from 0) of a generator started in the state [rng]. *)
Fixpoint rng_after (n : nat) (rng : RNG) : RNG :=
  match n with
  | O => rng
  | Datatypes.S n' => snd (gaussRand (rng_after n' rng))
  end.

Definition draw (rng : RNG) (n : nat) : F32.t :=
  fst (gaussRand (rng_after n rng)).

(** The complex pair of the draws [2k] and [2k+1], scaled by
    [sqrt(Ph(kx, kz) / 2)]. *)
Definition h0_value (p : OceanParams) (rng : RNG) (k : Z) (kxi kzj : F32.t)
  : complex :=
  mul_complex_f
    (init_complex (draw rng (Z.to_nat (2 * k))) (draw rng (Z.to_nat (2 * k + 1))))
    (F32.sqrt (F32.div (Ph p kxi kzj) F32.two)).

(** The entries of [h0] below the index [bound] hold their value: the entry
    [k = i * N + j] is the value for the wavenumber [(kx[i], kz[j])]. *)
Definition h0_filled (o : Ocean) (rng : RNG) (h0 : list complex) (bound : Z)
  : Prop :=
  forall k, 0 <= k < bound ->
    exists kxi kzj,
      array_get (_kx o) (k / _N o) = Some kxi /\
      array_get (_kz o) (k mod _N o) = Some kzj /\
      array_get h0 k = Some (h0_value (_params o) rng k kxi kzj).

(** What [BKE_ocean_init] needs of its arguments: a grid whose indices fit
    an [int], a block of [M * N] complex numbers for [_h0], and wavenumber
    tables with one entry per grid line. *)
Definition init_ready (mem : OceanArrays) (M N : Z) (Lx Lz : F32.t) : Prop :=
  0 <= M /\ 0 <= N /\ M * N <= INT_MAX /\
  Z.of_nat (length (a_h0 mem)) = M * N /\
  Z.of_nat (length (ocean_wavenumbers M Lx)) = M /\
  Z.of_nat (length (ocean_wavenumbers N Lz)) = N.

(** The invariant of the synthesis loops before the entry [k]: the block has
    its size, the generator has made [2k] draws, and the entries below [k]
    hold their value. *)
Definition h0_inv (o : Ocean) (rng : RNG) (k : Z) (st : list complex * RNG)
  : Prop :=
  Z.of_nat (length (fst st)) = _M o * _N o /\
  snd st = rng_after (Z.to_nat (2 * k)) rng /\
  h0_filled o rng (fst st) k.

(** A task of the first phase of a simulation step. *)
Definition is_row_task (t : OceanTask) : Prop := exists i, t = Task_htilda i.

(** The flag that enables a spatial field. *)
Definition field_flag (f : SpatialField) (o : Ocean) : Z :=
  match f with
  | DispY => _do_disp_y o
  | DispX | DispZ => _do_chop o
  | Jxx | Jzz | Jxz => _do_jacobian o
  | NormalX | NormalZ => _do_normals o
  end.

End Statements.

Section DisplaceStatements.
Context `{K : OceanKernels}.

(** The evaluation result after the displace loop has gone through the
    vertices [verts], from the result [ocr]. *)
Fixpoint ocr_after (omd : OceanModifierData) (ocean : Ocean)
  (verts : list float3) (ocr : OceanResult) : OceanResult :=
  match verts with
  | [] => ocr
  | co :: verts =>
      ocr_after omd ocean verts (snd (displace_vertex omd ocean co ocr))
  end.

(** The vertex [k] after the loop: the vertex before it, displaced with the
    evaluation result the loop holds when it reaches it. *)
Definition displaced (omd : OceanModifierData) (ocean : Ocean)
  (verts : list float3) (ocr : OceanResult) (k : nat) : option float3 :=
  (fun co => fst (displace_vertex omd ocean co
                    (ocr_after omd ocean (take k verts) ocr)))
    <$> verts !! k.

End DisplaceStatements.

Section SpecStatements.
Context `{E : OceanExterns} `{Mth : OceanMath}.

(** What a simulation step needs of the ocean: a grid with at least one
    column, wavenumber tables with one entry per grid line, [M * N] static
    amplitudes and a half spectrum of time-evolved ones. *)
Definition sim_ready (o : Ocean) : Prop :=
  0 <= _M o /\ 1 <= _N o /\
  Z.of_nat (length (_kx o)) = _M o /\
  Z.of_nat (length (_kz o)) = _N o /\
  Z.of_nat (length (_h0 o)) = _M o * _N o /\
  Z.of_nat (length (_htilda o)) = half_spectrum_size (_M o) (_N o).

(** The entries of [htilda] below the index [bound] hold the time-evolved
    amplitude of their wavenumber: the entry [k = i * (N/2 + 1) + j] is
    that of [(i, j)]. *)
Definition htilda_filled (osd : OceanSimulateData) (o : Ocean)
  (htilda : list complex) (bound : Z) : Prop :=
  forall k, 0 <= k < bound ->
    is_Some (array_get htilda k) /\
    array_get htilda k =
      htilda_at osd o (k / (_N o / 2 + 1)) (k mod (_N o / 2 + 1)).









End SpecStatements.

(** ** A small instance to run the definitions on *)

Module Demo.

Definition lcg (s : Z) : Z := (s * 1103515245 + 12345) mod 2 ^ 31.

Definition czero : complex := (F32.zero, F32.zero).

(** The transform of the instance: one value per grid point, from the
    amplitude stored at the same index. *)
Definition transform (f : SpatialField) (ti : TransformInput) : list F32.t :=
  map (fun k : nat =>
         let h := default czero (ti_htilda ti !! k) in
         F32.mul (osd_scale (ti_osd ti))
           (match f with
            | DispY | Jxx | NormalX => fst h
            | _ => snd h
            end))
      (seq 0 (Z.to_nat (ti_M ti * ti_N ti))).

#[export] Instance externs : OceanExterns :=
  {| RNG := Z;
     BLI_rng_new := fun seed => seed;
     gaussRand := fun s => (F32.of_int (s mod 7 - 3), lcg s);
     init_complex := fun re im => (re, im);
     mul_complex_f := fun c f => (F32.mul (fst c) f, F32.mul (snd c) f);
     Ph := fun p kx kz =>
             F32.mul (p_A p) (F32.add (F32.mul kx kx) (F32.mul kz kz));
     ocean_wavenumbers := fun n L =>
             map (fun i => F32.div (F32.of_int i) L) (seqZ 0 n);
     MOD_OCEAN_GENERATE_NORMALS := 2;
     MOD_OCEAN_GENERATE_FOAM := 1;
     do_spray := 0;
     ocean_transform := transform |}.

#[export] Instance math : OceanMath :=
  {| cadd := fun a b => (F32.add (fst a) (fst b), F32.add (snd a) (snd b));
     cmul := fun a b =>
       (F32.sub (F32.mul (fst a) (fst b)) (F32.mul (snd a) (snd b)),
        F32.add (F32.mul (fst a) (snd b)) (F32.mul (snd a) (fst b)));
     cconj := fun a => (fst a, F32.opp (snd a));
     cexp_i := fun x => (F32.one, x);
     omega := fun _ kx kz => F32.add kx kz;
     h0_minus_k := fun h0 M N i j =>
       default czero (array_get h0 (((M - i) mod M) * N + (N - j) mod N));
     foam_of_jacobian := fun jxx jzz jxz => F32.add jxx (F32.add jzz jxz);
     normal_of := fun nx nz =>
       {| f3_0 := nx; f3_1 := F32.one; f3_2 := nz |} |}.

(** Blocks for a grid of [M] by [N] points: [M * N] static amplitudes and
    a half spectrum of time-evolved ones. *)
Definition blocks (n_h0 n_htilda : nat) : OceanArrays :=
  {| a_h0 := replicate n_h0 czero;
     a_htilda := replicate n_htilda czero;
     a_disp_y := []; a_disp_x := []; a_disp_z := [];
     a_Jxx := []; a_Jzz := []; a_Jxz := [];
     a_N_x := []; a_N_z := [] |}.

Definition f3 (x y z : Z) : float3 :=
  {| f3_0 := F32.of_int x; f3_1 := F32.of_int y; f3_2 := F32.of_int z |}.

(** A modifier with the defaults of [init_data], the given chop amount and
    flags, and the seed 42. *)
Definition omd (chop : Z) (flags : Z) : OceanModifierData :=
  {| resolution := 2;
     spatial_size := 50;
     wind_velocity := F32.of_int 30;
     smallest_wave := S754_finite false 10737418 (-30);
     wave_alignment := F32.of_int 0;
     depth := F32.of_int 200;
     wave_direction := F32.of_int 0;
     chop_amount := F32.of_int chop;
     damp := F32.of_int 0;
     time := F32.of_int 1;
     scale := F32.of_int 2;
     spectrum := 0;
     fetch_jonswap := F32.of_int 120000;
     sharpen_peak_jonswap := F32.of_int 0;
     flag := flags;
     seed := 42;
     cached := false;
     location := f3 0 0 0 |}.

(** The ocean of [omd chop flags] at resolution 2, a grid of 4 by 4. *)
Definition ocean (chop flags : Z) : Ocean :=
  default BKE_ocean_add
    (BKE_ocean_init_from_modifier (blocks 16 12) BKE_ocean_add
       (omd chop flags) 2).

(** An ocean with every feature flag unset. *)
Definition flat_ocean : Ocean :=
  default BKE_ocean_add
    (BKE_ocean_init (blocks 16 12) BKE_ocean_add 4 4
       (F32.of_int 50) (F32.of_int 50) (F32.of_int 30)
       (S754_finite false 10737418 (-30)) F32.one (F32.of_int 0)
       (F32.of_int 0) (F32.of_int 0) (F32.of_int 200) (F32.of_int 1)
       0 (F32.of_int 120000) (F32.of_int 0) 0 0 0 0 0 42).

(** The ocean of [omd chop flags] after one simulation step. *)
Definition simulated (chop flags : Z) : Ocean :=
  default (ocean chop flags)
    (fst <$> BKE_ocean_simulate (K := spec_kernels) (ocean chop flags)
               F32.one F32.two F32.one).

Definition ocr0 : OceanResult :=
  {| disp := f3 9 9 9; normal := f3 9 9 9; foam := F32.of_int 9 |}.

Definition cache (start stop : Z) : OceanCache :=
  {| och_start := start; och_end := stop;
     och_wave_scale := F32.of_int 2; och_chop_amount := F32.of_int 1;
     och_resolution_x := 4; och_resolution_y := 4;
     och_files := ∅ |}.




End Demo.

(** ** More of the code flow: generate mode and [doOcean] *)

(** The grid of generate mode: the numbers of cells [res_x] and [res_y], the
    origin [(ox, oy, oz)] and the cell sizes [sx] and [sy]. The excerpt uses
    them without showing where they are set. *)
Record OceanGrid := {
  gg_res_x : Z;
  gg_res_y : Z;
  gg_ox : F32.t;
  gg_oy : F32.t;
  gg_oz : F32.t;
  gg_sx : F32.t;
  gg_sy : F32.t;
}.

(** What [doOcean] uses and the excerpt does not show: the flag bit of
    generate mode and [generate_ocean_mesh]. *)
Class ModifierExterns := {
  MOD_OCEAN_GENERATE_GEOMETRY : Z;
  generate_ocean_mesh : OceanModifierData -> Ocean -> Z -> option (list float3);
}.

Section GenerateMode.
Context `{E : OceanExterns} `{K : OceanKernels} `{X : ModifierExterns}.

(** The position the loop of generate mode gives the vertex of the grid
    point [(x, y)], from the evaluation result [ocr] of that point:
    [co[0] = ox + (x * sx); co[1] = oy + ocr.disp[1]; co[2] = oz + (y * sy);
     if (omd->chop_amount > 0.0f) { co[0] += ocr.disp[0]; co[2] += ocr.disp[2]; }]. *)
Definition generate_vertex (omd : OceanModifierData) (g : OceanGrid)
  (x y : Z) (ocr : OceanResult) : float3 :=
  let co0 := F32.add (gg_ox g) (F32.mul (F32.of_int x) (gg_sx g)) in
  let co1 := F32.add (gg_oy g) (f3_1 (disp ocr)) in
  let co2 := F32.add (gg_oz g) (F32.mul (F32.of_int y) (gg_sy g)) in
  if F32.gtb (chop_amount omd) F32.zero
  then {| f3_0 := F32.add co0 (f3_0 (disp ocr));
          f3_1 := co1;
          f3_2 := F32.add co2 (f3_2 (disp ocr)) |}
  else {| f3_0 := co0; f3_1 := co1; f3_2 := co2 |}.

(** The body of the two loops: the grid point is evaluated and the vertex
    [verts[x + y * (res_x + 1)]] is set. *)
Definition generate_point (omd : OceanModifierData) (ocean : Ocean)
  (g : OceanGrid) (y x : Z) (st : list float3 * OceanResult)
  : option (list float3 * OceanResult) :=
  let '(verts, ocr) := st in
  let ocr := BKE_ocean_eval_ij ocean ocr x y in
  let idx := int_add x (int_mul y (int_add (gg_res_x g) 1)) in
  verts ← array_set verts idx (generate_vertex omd g x y ocr);
  Some (verts, ocr).

(** The loops of [generate_ocean_geometry]:
    [for (y = 0; y <= res_y; y++) for (x = 0; x <= res_x; x++)]. *)
Definition generate_ocean_geometry (omd : OceanModifierData) (ocean : Ocean)
  (g : OceanGrid) (verts : list float3) (ocr : OceanResult)
  : option (list float3 * OceanResult) :=
  for_range 0 (gg_res_y g + 1)
    (fun y => for_range 0 (gg_res_x g + 1)
                (fun x => generate_point omd ocean g y x))
    (verts, ocr).

(** [doOcean]: the simulation of the modifier, then the mesh of generate
    mode or the displaced mesh. The result is the mesh, the ocean and the
    cache as the call leaves them. *)
Definition doOcean (omd : OceanModifierData) (ocean : Ocean)
  (oceancache : OceanCache) (frame resolution : Z) (mesh : list float3)
  (ocr : OceanResult) : option (list float3 * Ocean * OceanCache) :=
  r ← simulate_ocean_modifier omd ocean oceancache frame;
  let '(ocean, oceancache) :=
    match r with
    | inl (o, _) => (o, oceancache)
    | inr och => (ocean, och)
    end in
  if truthy (Z.land (flag omd) MOD_OCEAN_GENERATE_GEOMETRY) then
    result ← generate_ocean_mesh omd ocean resolution;
    Some (result, ocean, oceancache)
  else
    '(result, _) ← displace_ocean_mesh omd ocean mesh
                     (Z.of_nat (length mesh)) ocr;
    Some (result, ocean, oceancache).

(** The evaluation result the loops of a grid of width [w] hold after [k]
    grid points, taken row by row from the result [ocr]. *)
Fixpoint grid_ocr (ocean : Ocean) (w : Z) (ocr : OceanResult) (k : nat)
  : OceanResult :=
  match k with
  | O => ocr
  | Datatypes.S k' =>
      BKE_ocean_eval_ij ocean (grid_ocr ocean w ocr k')
        (Z.of_nat k' mod w) (Z.of_nat k' / w)
  end.

(** The vertices below the index [bound] are set: the vertex
    [k = x + y * w] holds the position of the grid point [(x, y)]. *)
Definition generated (omd : OceanModifierData) (ocean : Ocean)
  (g : OceanGrid) (w : Z) (ocr : OceanResult) (verts : list float3)
  (bound : Z) : Prop :=
  forall k, 0 <= k < bound ->
    array_get verts k =
      Some (generate_vertex omd g (k mod w) (k / w)
              (grid_ocr ocean w ocr (Datatypes.S (Z.to_nat k)))).

(** The transforms of a step in the order [BKE_ocean_simulate] runs them. *)
Definition transform_order : list SpatialField :=
  [DispY; DispX; DispZ; Jxx; Jzz; Jxz; NormalX; NormalZ].

End GenerateMode.

(** ** The frames of a bake *)



(** An instance of generate mode to run the definitions on: the flag bit 4
    and a mesh of [resolution + 1] vertices at the origin. *)
Module DemoModifier.

#[export] Instance modifier_externs : ModifierExterns :=
  {| MOD_OCEAN_GENERATE_GEOMETRY := 4;
     generate_ocean_mesh := fun _ _ resolution =>
       Some (replicate (Z.to_nat (resolution + 1)) (Demo.f3 0 0 0)) |}.

(** A grid of 3 by 2 vertices, cells of size 2 by 3, from the origin
    [(10, 20, 30)]. *)
Definition grid : OceanGrid :=
  {| gg_res_x := 2; gg_res_y := 1;
     gg_ox := F32.of_int 10; gg_oy := F32.of_int 20; gg_oz := F32.of_int 30;
     gg_sx := F32.of_int 2; gg_sy := F32.of_int 3 |}.

End DemoModifier.

(** ** The walk over the ID pointers of an ID: [lib_query.cc] *)

Module LibQuery.

(** The address of an [ID]; an [ID *] that may be null is an [option ID]. *)
Definition ID : Type := positive.

(** The flags of the walk, the flags and the return values of its callbacks,
    the flag of the relations cache and the flag and tag bits of an ID the
    file uses; their values are set in headers. [ID_IS_LINKED] reads the
    library pointer of an ID. *)
Class WalkFlags := {
  IDWALK_READONLY : Z;
  IDWALK_RECURSE : Z;
  IDWALK_NO_ORIG_POINTERS_ACCESS : Z;
  IDWALK_IGNORE_MISSING_OWNER_ID : Z;
  IDWALK_DO_INTERNAL_RUNTIME_POINTERS : Z;
  IDWALK_DO_LIBRARY_POINTER : Z;
  IDWALK_DO_DEPRECATED_POINTERS : Z;
  IDWALK_INCLUDE_UI : Z;
  IDWALK_IGNORE_EMBEDDED_ID : Z;
  IDWALK_CB_NOP : Z;
  IDWALK_CB_USER : Z;
  IDWALK_CB_USER_ONE : Z;
  IDWALK_CB_EMBEDDED : Z;
  IDWALK_CB_INTERNAL : Z;
  IDWALK_CB_LOOPBACK : Z;
  IDWALK_CB_OVERRIDE_LIBRARY_REFERENCE : Z;
  IDWALK_CB_OVERRIDE_LIBRARY_NOT_OVERRIDABLE : Z;
  IDWALK_CB_INDIRECT_USAGE : Z;
  IDWALK_RET_NOP : Z;
  IDWALK_RET_STOP_ITER : Z;
  IDWALK_RET_STOP_RECURSION : Z;
  MAINIDRELATIONS_INCLUDE_UI : Z;
  ID_FLAG_EMBEDDED_DATA : Z;
  ID_TAG_NO_USER_REFCOUNT : Z;
  ID_TAG_DOIT : Z;
  ID_IS_LINKED : option positive -> bool;
}.

(** [enum { IDWALK_STOP = 1 << 0 }]. *)
Definition IDWALK_STOP : Z := Z.shiftl 1 0.

(** The memory a walk works on: the [ID *] variables by their address, the
    [tag], the [flag] and the library pointer [lib] of each [ID], and the
    object [user_data] points to. *)
Record Heap (U : Type) := {
  h_pointers : gmap positive (option ID);
  h_tag : gmap ID Z;
  h_flag : gmap ID Z;
  h_lib : gmap ID (option positive);
  h_user : U;
}.
Arguments h_pointers {U}.
Arguments h_tag {U}.
Arguments h_flag {U}.
Arguments h_lib {U}.
Arguments h_user {U}.

Definition with_user {U} (heap : Heap U) (u : U) : Heap U :=
  {| h_pointers := h_pointers heap; h_tag := h_tag heap;
     h_flag := h_flag heap; h_lib := h_lib heap; h_user := u |}.

Definition with_tag {U} (heap : Heap U) (id : ID) (tag : Z) : Heap U :=
  {| h_pointers := h_pointers heap;
     h_tag := <[id := tag]> (h_tag heap);
     h_flag := h_flag heap; h_lib := h_lib heap;
     h_user := h_user heap |}.

(** The relations cache of the main database: for each ID the entries
    [to_ids] of its relations entry, each the address of an ID pointer and
    its usage flags, and the flags of the cache. *)
Record MainIDRelations := {
  relations_from_pointers : gmap ID (list (positive * Z));
  relations_flag : Z;
}.

(** [Main]: what the walk reads of it, the relations cache when there is
    one. *)
Record Main := {
  relations : option MainIDRelations;
}.

(** [LibraryIDLinkCallbackData], as [BKE_lib_query_foreachid_process] fills
    it; [user_data] is the user object of the heap. *)
Record LibraryIDLinkCallbackData := {
  cbd_bmain : option Main;
  cbd_owner_id : option ID;
  cbd_self_id : option ID;
  cbd_id_pointer : positive;
  cbd_cb_flag : Z;
}.

(** A callback of the walk: the [int] it returns and the memory as it leaves
    it; [None] when it reads through a null or a dangling pointer. *)
Definition LibraryIDLinkCallback (U : Type) : Type :=
  LibraryIDLinkCallbackData -> Heap U -> option (Z * Heap U).

(** [LibraryForeachIDData]. The set [ids_handled] is [None] for a null
    pointer; the stack [ids_todo] has its top first. *)
Record LibraryForeachIDData (U : Type) := {
  bmain : option Main;
  owner_id : option ID;
  self_id : option ID;
  flag : Z;
  cb_flag : Z;
  cb_flag_clear : Z;
  callback : LibraryIDLinkCallback U;
  status : Z;
  ids_handled : option (gset ID);
  ids_todo : list ID;
}.
Arguments bmain {U}.
Arguments owner_id {U}.
Arguments self_id {U}.
Arguments flag {U}.
Arguments cb_flag {U}.
Arguments cb_flag_clear {U}.
Arguments callback {U}.
Arguments status {U}.
Arguments ids_handled {U}.
Arguments ids_todo {U}.

Section Walk.
Context `{W : WalkFlags} {U : Type}.

Definition with_status (data : LibraryForeachIDData U) (s : Z)
  : LibraryForeachIDData U :=
  {| bmain := bmain data; owner_id := owner_id data; self_id := self_id data;
     flag := flag data; cb_flag := cb_flag data;
     cb_flag_clear := cb_flag_clear data; callback := callback data;
     status := s;
     ids_handled := ids_handled data; ids_todo := ids_todo data |}.

Definition with_cb_flag (data : LibraryForeachIDData U) (f : Z)
  : LibraryForeachIDData U :=
  {| bmain := bmain data; owner_id := owner_id data; self_id := self_id data;
     flag := flag data; cb_flag := f;
     cb_flag_clear := cb_flag_clear data; callback := callback data;
     status := status data;
     ids_handled := ids_handled data; ids_todo := ids_todo data |}.

Definition with_recursion (data : LibraryForeachIDData U)
  (handled : gset ID) (todo : list ID) : LibraryForeachIDData U :=
  {| bmain := bmain data; owner_id := owner_id data; self_id := self_id data;
     flag := flag data; cb_flag := cb_flag data;
     cb_flag_clear := cb_flag_clear data; callback := callback data;
     status := status data;
     ids_handled := Some handled; ids_todo := todo |}.

(** [BKE_lib_query_foreachid_iter_stop]. *)
Definition BKE_lib_query_foreachid_iter_stop (data : LibraryForeachIDData U)
  : bool :=
  truthy (Z.land (status data) IDWALK_STOP).

(** The flags a callback gets for a pointer the caller passes with the
    flags [f]:
    [cb_flag = (cb_flag | data->cb_flag) & ~data->cb_flag_clear;
     if (cb_flag & (IDWALK_CB_INTERNAL | IDWALK_CB_LOOPBACK |
                    IDWALK_CB_OVERRIDE_LIBRARY_REFERENCE))
       cb_flag |= IDWALK_CB_OVERRIDE_LIBRARY_NOT_OVERRIDABLE;]. *)
Definition callback_flags (data : LibraryForeachIDData U) (f : Z) : Z :=
  let f := Z.land (Z.lor f (cb_flag data)) (Z.lnot (cb_flag_clear data)) in
  if truthy (Z.land f (Z.lor (Z.lor IDWALK_CB_INTERNAL IDWALK_CB_LOOPBACK)
                         IDWALK_CB_OVERRIDE_LIBRARY_REFERENCE))
  then Z.lor f IDWALK_CB_OVERRIDE_LIBRARY_NOT_OVERRIDABLE
  else f.

(** [BKE_lib_query_foreachid_process] for the pointer at the address
    [id_pp]. The assertions of the function are left out, as in a release
    build. *)
Definition BKE_lib_query_foreachid_process (data : LibraryForeachIDData U)
  (id_pp : positive) (f : Z) (heap : Heap U)
  : option (LibraryForeachIDData U * Heap U) :=
  if BKE_lib_query_foreachid_iter_stop data then Some (data, heap) else
  old_id ← h_pointers heap !! id_pp;
  let callback_data :=
    {| cbd_bmain := bmain data; cbd_owner_id := owner_id data;
       cbd_self_id := self_id data; cbd_id_pointer := id_pp;
       cbd_cb_flag := callback_flags data f |} in
  '(callback_return, heap) ← callback data callback_data heap;
  data ← match old_id with
         | Some old_id =>
             if truthy (Z.land (flag data) IDWALK_RECURSE) then
               handled ← ids_handled data;
               if decide (old_id ∈ handled) then Some data
               else Some (with_recursion data ({[old_id]} ∪ handled)
                            (if truthy (Z.land callback_return
                                          IDWALK_RET_STOP_RECURSION)
                             then ids_todo data
                             else old_id :: ids_todo data))
             else Some data
         | None => Some data
         end;
  Some (if truthy (Z.land callback_return IDWALK_RET_STOP_ITER)
        then with_status data (Z.lor (status data) IDWALK_STOP)
        else data,
        heap).

(** [BKE_lib_query_foreachid_process_callback_flag_override]: the data with
    the new generic flags, and the flags it had. *)
Definition BKE_lib_query_foreachid_process_callback_flag_override
  (data : LibraryForeachIDData U) (f : Z) (do_replace : bool)
  : LibraryForeachIDData U * Z :=
  let cb_flag_backup := cb_flag data in
  (with_cb_flag data (if do_replace then f else Z.lor (cb_flag data) f),
   cb_flag_backup).

(** The loop of [library_foreach_ID_link] over the entries [to_ids] of the
    relations cache, each the address of an ID pointer and its usage flags:
    the pointers are processed in order, and the function returns [false]
    as soon as the walk is stopped. The result holds the value the function
    returns from the loop, [true] for the end of the entries. *)
Fixpoint foreach_to_ids (data : LibraryForeachIDData U)
  (to_ids : list (positive * Z)) (heap : Heap U)
  : option (LibraryForeachIDData U * Heap U * bool) :=
  match to_ids with
  | [] => Some (data, heap, true)
  | (to, usage_flag) :: to_ids =>
      '(data, heap) ← BKE_lib_query_foreachid_process data to usage_flag heap;
      if BKE_lib_query_foreachid_iter_stop data then Some (data, heap, false)
      else foreach_to_ids data to_ids heap
  end.

End Walk.

(** The result of a walk that is given a number of turns of its loop: the
    value it returns, no defined behaviour, or no turn left. *)
Inductive Run (A : Type) :=
  | Done (a : A)
  | Undefined
  | OutOfFuel.
Arguments Done {A}.
Arguments Undefined {A}.
Arguments OutOfFuel {A}.

(** What the walk calls and this file does not define: the owner of an
    embedded ID, and the walk over the pointers an ID holds itself (its
    library, its runtime and override pointers, its properties, its
    animation data and the pointers of its type), which processes each
    pointer with [BKE_lib_query_foreachid_process]. *)
Class IDPointers (U : Type) := {
  BKE_id_owner_get : ID -> Heap U -> option ID;
  foreach_id_pointers :
    ID -> LibraryForeachIDData U -> Heap U ->
    option (LibraryForeachIDData U * Heap U);
}.

Section Link.
Context `{W : WalkFlags} {U : Type} `{P : IDPointers U}.

Definition with_walked_id (data : LibraryForeachIDData U)
  (self owner : option ID) (generic clear : Z) : LibraryForeachIDData U :=
  {| bmain := bmain data; owner_id := owner; self_id := self;
     flag := flag data; cb_flag := generic; cb_flag_clear := clear;
     callback := callback data; status := status data;
     ids_handled := ids_handled data; ids_todo := ids_todo data |}.

Definition with_ids_todo (data : LibraryForeachIDData U) (todo : list ID)
  : LibraryForeachIDData U :=
  {| bmain := bmain data; owner_id := owner_id data; self_id := self_id data;
     flag := flag data; cb_flag := cb_flag data;
     cb_flag_clear := cb_flag_clear data; callback := callback data;
     status := status data;
     ids_handled := ids_handled data; ids_todo := todo |}.

(** The head of a turn of the loop of [library_foreach_ID_link]: the data
    for the ID [id], its owner and the generic callback flags. *)
Definition walk_data (f : Z) (inherit_data : option (LibraryForeachIDData U))
  (data : LibraryForeachIDData U) (id : ID) (owner_id : option ID)
  (heap : Heap U) : option (LibraryForeachIDData U) :=
  id_flag ← h_flag heap !! id;
  let owner :=
    if truthy (Z.land id_flag ID_FLAG_EMBEDDED_DATA) then
      if truthy (Z.land f IDWALK_IGNORE_MISSING_OWNER_ID) then
        match owner_id with Some o => Some o | None => Some id end
      else
        match owner_id with
        | Some o => Some o
        | None => BKE_id_owner_get id heap
        end
    else Some id in
  match inherit_data with
  | None =>
      lib ← h_lib heap !! id;
      tag ← h_tag heap !! id;
      Some (with_walked_id data (Some id) owner
              (if ID_IS_LINKED lib then IDWALK_CB_INDIRECT_USAGE
               else IDWALK_CB_NOP)
              (if truthy (Z.land tag ID_TAG_NO_USER_REFCOUNT)
               then Z.lor IDWALK_CB_USER IDWALK_CB_USER_ONE
               else IDWALK_CB_NOP))
  | Some inherit =>
      Some (with_walked_id data (Some id) owner
              (cb_flag inherit) (cb_flag_clear inherit))
  end.

(** [use_bmain_relations]: the relations cache the walk reads instead of
    the pointers of the ID, when it does. *)
Definition use_bmain_relations (bmain : option Main) (f : Z)
  : option MainIDRelations :=
  main ← bmain;
  rel ← relations main;
  if truthy (Z.land f IDWALK_READONLY)
     && Bool.eqb (Z.land (relations_flag rel) MAINIDRELATIONS_INCLUDE_UI =? 0)
                 (Z.land f IDWALK_INCLUDE_UI =? 0)
     && negb (truthy (Z.land f
                (Z.lor (Z.lor IDWALK_DO_INTERNAL_RUNTIME_POINTERS
                          IDWALK_DO_LIBRARY_POINTER)
                   IDWALK_DO_DEPRECATED_POINTERS)))
  then Some rel
  else None.

(** The loop of [library_foreach_ID_link], from the ID [id], for [fuel]
    turns at most. The result is the memory, the value the function
    returns, and the IDs the loop went through, in order; the list is not
    part of the program. *)
Fixpoint library_foreach_ID_link_loop (fuel : nat) (bmain : option Main)
  (f : Z) (inherit_data : option (LibraryForeachIDData U))
  (data : LibraryForeachIDData U) (id : ID) (owner_id : option ID)
  (heap : Heap U) (walked : list ID) : Run (Heap U * bool * list ID) :=
  match fuel with
  | O => OutOfFuel
  | Datatypes.S fuel =>
      match walk_data f inherit_data data id owner_id heap with
      | None => Undefined
      | Some data =>
          let walked := walked ++ [id] in
          let next (data : LibraryForeachIDData U) (heap : Heap U) :=
            if truthy (Z.land f IDWALK_RECURSE) then
              match ids_todo data with
              | [] => Done (heap, true, walked)
              | id :: todo =>
                  library_foreach_ID_link_loop fuel bmain f inherit_data
                    (with_ids_todo data todo) id None heap walked
              end
            else Done (heap, true, walked) in
          match use_bmain_relations bmain f with
          | Some rel =>
              match relations_from_pointers rel !! id with
              | None => Undefined
              | Some to_ids =>
                  match foreach_to_ids data to_ids heap with
                  | None => Undefined
                  | Some (data, heap, false) => Done (heap, false, walked)
                  | Some (data, heap, true) => next data heap
                  end
              end
          | None =>
              match foreach_id_pointers id data heap with
              | None => Undefined
              | Some (data, heap) =>
                  if BKE_lib_query_foreachid_iter_stop data
                  then Done (heap, false, walked)
                  else next data heap
              end
          end
      end
  end.

(** The walk flags as [library_foreach_ID_link] sets them before its
    loop. *)
Definition walk_flag (f : Z) : Z :=
  let f := if truthy (Z.land f IDWALK_NO_ORIG_POINTERS_ACCESS)
           then Z.lor f IDWALK_IGNORE_MISSING_OWNER_ID else f in
  if truthy (Z.land f IDWALK_RECURSE)
  then Z.land (Z.lor f IDWALK_READONLY)
         (Z.lnot IDWALK_DO_INTERNAL_RUNTIME_POINTERS)
  else f.

(** The data [library_foreach_ID_link] starts its loop with. *)
Definition walk_start (bmain : option Main) (id : option ID)
  (cb : LibraryIDLinkCallback U) (f : Z) : LibraryForeachIDData U :=
  {| bmain := bmain; owner_id := None; self_id := None;
     flag := walk_flag f; cb_flag := 0; cb_flag_clear := 0;
     callback := cb; status := 0;
     ids_handled :=
       (let f := if truthy (Z.land f IDWALK_NO_ORIG_POINTERS_ACCESS)
                 then Z.lor f IDWALK_IGNORE_MISSING_OWNER_ID else f in
        if truthy (Z.land f IDWALK_RECURSE)
        then Some (match id with Some id => {[id]} | None => ∅ end)
        else None);
     ids_todo := [] |}.

(** [library_foreach_ID_link]. *)
Definition library_foreach_ID_link (fuel : nat) (bmain : option Main)
  (owner_id : option ID) (id : option ID) (cb : LibraryIDLinkCallback U)
  (f : Z) (inherit_data : option (LibraryForeachIDData U)) (heap : Heap U)
  : Run (Heap U * bool * list ID) :=
  match id with
  | None => Done (heap, true, [])
  | Some id' =>
      library_foreach_ID_link_loop fuel bmain (walk_flag f) inherit_data
        (walk_start bmain id cb f) id' owner_id heap []
  end.

(** [BKE_library_foreach_ID_link]. *)
Definition BKE_library_foreach_ID_link (fuel : nat) (bmain : option Main)
  (id : option ID) (cb : LibraryIDLinkCallback U) (f : Z) (heap : Heap U)
  : Run (Heap U * bool * list ID) :=
  library_foreach_ID_link fuel bmain None id cb f None heap.

(** [BKE_library_foreach_ID_embedded] for the pointer at the address
    [id_pp]. Without recursion the embedded ID is walked at once, in a
    loop of one turn. *)
Definition BKE_library_foreach_ID_embedded (data : LibraryForeachIDData U)
  (id_pp : positive) (heap : Heap U)
  : option (LibraryForeachIDData U * Heap U) :=
  id ← h_pointers heap !! id_pp;
  let f := flag data in
  '(data, heap) ← BKE_lib_query_foreachid_process data id_pp
                    IDWALK_CB_EMBEDDED heap;
  if BKE_lib_query_foreachid_iter_stop data then Some (data, heap) else
  match id with
  | None => Some (data, heap)
  | Some id =>
      if truthy (Z.land f IDWALK_IGNORE_EMBEDDED_ID) then Some (data, heap)
      else if truthy (Z.land f IDWALK_RECURSE) then
        handled ← ids_handled data;
        if decide (id ∈ handled) then Some (data, heap)
        else Some (with_recursion data ({[id]} ∪ handled)
                     (id :: ids_todo data), heap)
      else
        match library_foreach_ID_link 1 (bmain data) (owner_id data) (Some id)
                (callback data) (flag data) (Some data) heap with
        | Done (heap, true, _) => Some (data, heap)
        | Done (heap, false, _) =>
            Some (with_status data (Z.lor (status data) IDWALK_STOP), heap)
        | _ => None
        end
  end.

End Link.

(** [IDUsersIter]. *)
Record IDUsersIter := {
  iter_id : option ID;
  curr_id : option ID;
  count_direct : Z;
  count_indirect : Z;
}.

Section Callbacks.
Context `{W : WalkFlags}.

(** [foreach_libblock_id_users_callback]. *)
Definition foreach_libblock_id_users_callback
  : LibraryIDLinkCallback IDUsersIter :=
  fun cb_data heap =>
    id_p ← h_pointers heap !! cbd_id_pointer cb_data;
    let f := cbd_cb_flag cb_data in
    let iter := h_user heap in
    match id_p with
    | Some p =>
        if truthy (Z.land f IDWALK_CB_LOOPBACK) then Some (IDWALK_RET_NOP, heap)
        else if decide (Some p = iter_id iter) then
          if truthy (Z.land f IDWALK_CB_INDIRECT_USAGE) then
            Some (IDWALK_RET_NOP,
                  with_user heap
                    {| iter_id := iter_id iter; curr_id := curr_id iter;
                       count_direct := count_direct iter;
                       count_indirect := int_add (count_indirect iter) 1 |})
          else
            Some (IDWALK_RET_NOP,
                  with_user heap
                    {| iter_id := iter_id iter; curr_id := curr_id iter;
                       count_direct := int_add (count_direct iter) 1;
                       count_indirect := count_indirect iter |})
        else Some (IDWALK_RET_NOP, heap)
    | None => Some (IDWALK_RET_NOP, heap)
    end.

(** [foreach_libblock_used_linked_data_tag_clear_cb]; [user_data] points to
    the [bool] [is_changed]. *)
Definition foreach_libblock_used_linked_data_tag_clear_cb
  : LibraryIDLinkCallback bool :=
  fun cb_data heap =>
    id_p ← h_pointers heap !! cbd_id_pointer cb_data;
    let f := cbd_cb_flag cb_data in
    match id_p with
    | Some p =>
        if truthy (Z.land f IDWALK_CB_LOOPBACK) then Some (IDWALK_RET_NOP, heap)
        else
          self_id ← cbd_self_id cb_data;
          self_tag ← h_tag heap !! self_id;
          if truthy (Z.land self_tag ID_TAG_DOIT) then Some (IDWALK_RET_NOP, heap)
          else
            tag ← h_tag heap !! p;
            if truthy (Z.land tag ID_TAG_DOIT) then
              Some (IDWALK_RET_NOP,
                    with_user
                      (with_tag heap p (Z.land tag (Z.lnot ID_TAG_DOIT)))
                      true)
            else Some (IDWALK_RET_NOP, heap)
    | None => Some (IDWALK_RET_NOP, heap)
    end.

(** What the pointer of the entry [e] is to the ID [target] when a walk
    with the users callback reaches it: no usage ([None]), as for a null
    pointer, a pointer to another ID or a loop-back pointer, or a usage,
    indirect ([Some true]) or direct ([Some false]). *)
Definition usage_kind {U} (data : LibraryForeachIDData U)
  (pointers : gmap positive (option ID)) (target : option ID)
  (e : positive * Z) : option bool :=
  match pointers !! fst e with
  | Some (Some p) =>
      if truthy (Z.land (callback_flags data (snd e)) IDWALK_CB_LOOPBACK)
      then None
      else if decide (Some p = target)
      then Some (truthy (Z.land (callback_flags data (snd e))
                           IDWALK_CB_INDIRECT_USAGE))
      else None
  | _ => None
  end.

(** The number of the entries that are usages of the kind [indirect]. *)
Definition count_usages {U} (indirect : bool) (data : LibraryForeachIDData U)
  (pointers : gmap positive (option ID)) (target : option ID)
  (to_ids : list (positive * Z)) : Z :=
  Z.of_nat (length (List.filter
    (fun e => bool_decide (usage_kind data pointers target e = Some indirect))
    to_ids)).

End Callbacks.

(** The recursion data of a walk is in order: the IDs of the stack
    [ids_todo] are distinct and all in the set [ids_handled]. *)
Definition recursion_ok {U} (data : LibraryForeachIDData U) : Prop :=
  exists handled,
    ids_handled data = Some handled /\
    NoDup (ids_todo data) /\
    forall x, x ∈ ids_todo data -> x ∈ handled.

(** Two data of a walk that differ in the status and the recursion data
    at most. *)
Definition same_walk {U} (data data' : LibraryForeachIDData U) : Prop :=
  bmain data' = bmain data /\ owner_id data' = owner_id data /\
  self_id data' = self_id data /\ flag data' = flag data /\
  cb_flag data' = cb_flag data /\ cb_flag_clear data' = cb_flag_clear data /\
  callback data' = callback data.

(** A callback that writes no ID pointer. *)
Definition keeps_pointers {U} (cb : LibraryIDLinkCallback U) : Prop :=
  forall cb_data heap ret heap',
    cb cb_data heap = Some (ret, heap') ->
    h_pointers heap' = h_pointers heap.

(** A callback that never asks to stop, the walk or the recursion. *)
Definition never_stops `{W : WalkFlags} {U}
  (cb : LibraryIDLinkCallback U) : Prop :=
  forall cb_data heap ret heap',
    cb cb_data heap = Some (ret, heap') ->
    Z.land ret IDWALK_RET_STOP_ITER = 0 /\
    Z.land ret IDWALK_RET_STOP_RECURSION = 0.

(** A callback that has a result whenever the pointer it is called for
    exists. *)
Definition answers {U} (cb : LibraryIDLinkCallback U) : Prop :=
  forall cb_data heap,
    is_Some (h_pointers heap !! cbd_id_pointer cb_data) ->
    is_Some (cb cb_data heap).

(** A callback that frees no ID: it leaves the flags and the library
    pointers as they are, and every ID that has a tag keeps one. *)
Definition keeps_ids {U} (cb : LibraryIDLinkCallback U) : Prop :=
  forall cb_data heap ret heap',
    cb cb_data heap = Some (ret, heap') ->
    h_flag heap' = h_flag heap /\ h_lib heap' = h_lib heap /\
    forall x, is_Some (h_tag heap !! x) -> is_Some (h_tag heap' !! x).

(** The IDs of the set [S] are in memory. *)
Definition ids_in_memory {U} (S : gset ID) (heap : Heap U) : Prop :=
  forall x, x ∈ S ->
    is_Some (h_flag heap !! x) /\ is_Some (h_lib heap !! x) /\
    is_Some (h_tag heap !! x).

(** The relations cache has an entry for each ID of the set [S], and the
    entries hold addresses of ID pointers that exist. *)
Definition relations_cover (rel : MainIDRelations)
  (pointers : gmap positive (option ID)) (S : gset ID) : Prop :=
  forall x, x ∈ S ->
    exists to_ids,
      relations_from_pointers rel !! x = Some to_ids /\
      forall e, e ∈ to_ids -> is_Some (pointers !! fst e).

(** The IDs the entries [to_ids] point to. *)
Definition targets (pointers : gmap positive (option ID))
  (to_ids : list (positive * Z)) : gset ID :=
  list_to_set (omap (fun e => default None (pointers !! fst e)) to_ids).

(** The ID [p] is one an entry of the ID [x] points to. *)
Definition points_to (rel : MainIDRelations)
  (pointers : gmap positive (option ID)) (x p : ID) : Prop :=
  exists to_ids to uf,
    relations_from_pointers rel !! x = Some to_ids /\
    ((to, uf) ∈ to_ids) /\
    pointers !! to = Some (Some p).

(** The IDs a walk from [root] can reach along the entries of the
    relations cache. *)
Inductive reachable (rel : MainIDRelations)
  (pointers : gmap positive (option ID)) (root : ID) : ID -> Prop :=
  | reachable_root : reachable rel pointers root root
  | reachable_step x p :
      reachable rel pointers root x ->
      points_to rel pointers x p ->
      reachable rel pointers root p.

(** The IDs the pointers of the memory point to. *)
Definition pointees (pointers : gmap positive (option ID)) : gset ID :=
  list_to_set (omap (fun e => snd e) (map_to_list pointers)).

(** The tags [tags'] are the tags [tags] with the bit [bit] cleared on some
    IDs, and nothing else changed. *)
Definition only_cleared (bit : Z) (tags tags' : gmap ID Z) : Prop :=
  forall id,
    tags' !! id = tags !! id \/
    exists t, tags !! id = Some t /\
      tags' !! id = Some (Z.land t (Z.lnot bit)).

(** Flags to run the definitions on, one bit each; [IDWALK_RET_NOP] is 0. *)
Module DemoWalk.

#[export] Instance flags : WalkFlags :=
  {| IDWALK_READONLY := 1;
     IDWALK_RECURSE := 2;
     IDWALK_NO_ORIG_POINTERS_ACCESS := 4;
     IDWALK_IGNORE_MISSING_OWNER_ID := 8;
     IDWALK_DO_INTERNAL_RUNTIME_POINTERS := 16;
     IDWALK_DO_LIBRARY_POINTER := 32;
     IDWALK_DO_DEPRECATED_POINTERS := 64;
     IDWALK_INCLUDE_UI := 128;
     IDWALK_IGNORE_EMBEDDED_ID := 256;
     IDWALK_CB_NOP := 0;
     IDWALK_CB_USER := 1;
     IDWALK_CB_USER_ONE := 2;
     IDWALK_CB_EMBEDDED := 128;
     IDWALK_CB_INTERNAL := 4;
     IDWALK_CB_LOOPBACK := 8;
     IDWALK_CB_OVERRIDE_LIBRARY_REFERENCE := 16;
     IDWALK_CB_OVERRIDE_LIBRARY_NOT_OVERRIDABLE := 32;
     IDWALK_CB_INDIRECT_USAGE := 64;
     IDWALK_RET_NOP := 0;
     IDWALK_RET_STOP_ITER := 1;
     IDWALK_RET_STOP_RECURSION := 2;
     MAINIDRELATIONS_INCLUDE_UI := 1;
     ID_FLAG_EMBEDDED_DATA := 1;
     ID_TAG_NO_USER_REFCOUNT := 2048;
     ID_TAG_DOIT := 1024;
     ID_IS_LINKED := fun l => bool_decide (is_Some l) |}.

(** Three ID pointers, at the addresses 1, 2 and 3: to the IDs 7 and 9, and
    null. *)
Definition pointers : gmap positive (option ID) :=
  <[1%positive := Some 7%positive]>
    (<[2%positive := Some 9%positive]> (<[3%positive := None]> ∅)).

Definition heap {U} (u : U) : Heap U :=
  {| h_pointers := pointers;
     h_tag := <[7%positive := 1]> (<[9%positive := 1025]> ∅);
     h_flag := <[7%positive := 0]> (<[9%positive := 0]> ∅);
     h_lib := <[7%positive := None]> (<[9%positive := Some 1%positive]> ∅);
     h_user := u |}.

(** The data of a walk over the ID 7 with the walk flags [f], the generic
    callback flags [generic] and the forbidden ones [clear]. *)
Definition walk {U} (f generic clear : Z) (cb : LibraryIDLinkCallback U)
  : LibraryForeachIDData U :=
  {| bmain := None; owner_id := Some 7%positive; self_id := Some 7%positive;
     flag := f; cb_flag := generic; cb_flag_clear := clear; callback := cb;
     status := 0;
     ids_handled := Some {[7%positive]}; ids_todo := [] |}.

Definition users (target : ID) : IDUsersIter :=
  {| iter_id := Some target; curr_id := Some 7%positive;
     count_direct := 0; count_indirect := 0 |}.

(** A callback that stops the walk at a pointer to the ID 9. *)
Definition stop_at_9 : LibraryIDLinkCallback unit :=
  fun cb_data heap =>
    id_p ← h_pointers heap !! cbd_id_pointer cb_data;
    Some (if bool_decide (id_p = Some 9%positive) then 1 else 0, heap).

(** The relations cache of the IDs 7 and 9. The ID 7 has the pointers at 1
    (to itself) and 2 (to the ID 9); the ID 9 the pointers at 1 and 3. *)
Definition relations_cache : MainIDRelations :=
  {| relations_from_pointers :=
       <[7%positive := [(1%positive, 0); (2%positive, 1)]]>
         (<[9%positive := [(1%positive, 0); (3%positive, 0)]]> ∅);
     relations_flag := 0 |}.

Definition main : Main := {| relations := Some relations_cache |}.

(** IDs with no pointer of their own and no owner, for the walks that read
    the relations cache. *)
#[export] Instance id_pointers {U} : IDPointers U :=
  {| BKE_id_owner_get := fun _ _ => None;
     foreach_id_pointers := fun _ data heap => Some (data, heap) |}.

(** A callback that does nothing and returns [IDWALK_RET_NOP]. *)
Definition nop_cb : LibraryIDLinkCallback unit :=
  fun _ heap => Some (0, heap).

End DemoWalk.

End LibQuery.

(** ** The unused IDs: tagging and counting, [lib_query.cc] *)

Module UnusedIDs.

Definition ID : Type := LibQuery.ID.

(** The fields of an [ID] the tagging reads and writes. The name is kept by
    its ID code, [GS(id->name)]. *)
Record IDStruct := {
  tag : Z;
  us : Z;
  lib : option positive;
  name : Z;
}.

(** What the tagging uses of the headers: whether an ID is linked, read off
    its library pointer, the index of an ID code in the arrays of counters,
    and the index of the totals. *)
Class IDExterns := {
  ID_IS_LINKED : option positive -> bool;
  BKE_idtype_idcode_to_index : Z -> Z;
  INDEX_ID_NULL : Z;
}.

(** [UnusedIDsData]. The three arrays of counters are kept by their
    address: two of the pointers may be the same array. The filter reads
    the ID it is given. *)
Record UnusedIDsData := {
  id_tag : Z;
  do_local_ids : bool;
  do_linked_ids : bool;
  do_recursive : bool;
  filter_fn : option (ID -> IDStruct -> bool);
  num_total : positive;
  num_local : positive;
  num_linked : positive;
  unused_ids : gset ID;
}.

(** The memory of the query: the IDs, and the arrays of [int] counters. *)
Record Memory := {
  ids : gmap ID IDStruct;
  counters : gmap positive (list Z);
}.

Definition with_unused_ids (data : UnusedIDsData) (s : gset ID)
  : UnusedIDsData :=
  {| id_tag := id_tag data; do_local_ids := do_local_ids data;
     do_linked_ids := do_linked_ids data; do_recursive := do_recursive data;
     filter_fn := filter_fn data; num_total := num_total data;
     num_local := num_local data; num_linked := num_linked data;
     unused_ids := s |}.

Definition set_tag (m : Memory) (id : ID) (s : IDStruct) (t : Z) : Memory :=
  {| ids := <[id := {| tag := t; us := us s; lib := lib s; name := name s |}]>
              (ids m);
     counters := counters m |}.

(** The counter [i] of the array at the address [array] moved by [k], as
    an [int]. *)
Definition counter_add (array : positive) (i k : Z) (m : Memory)
  : option Memory :=
  a ← counters m !! array;
  v ← array_get a i;
  a ← array_set a i (int_add v k);
  Some {| ids := ids m; counters := <[array := a]> (counters m) |}.

Section Tagging.
Context `{X : IDExterns}.

(** The four counters of an ID moved by [k]: the total and the one of its
    type, in [num_total] and in [num_linked] or [num_local]. *)
Definition count_id (data : UnusedIDsData) (s : IDStruct) (k : Z)
  (m : Memory) : option Memory :=
  let id_code := BKE_idtype_idcode_to_index (name s) in
  m ← counter_add (num_total data) INDEX_ID_NULL k m;
  m ← counter_add (num_total data) id_code k m;
  if ID_IS_LINKED (lib s) then
    m ← counter_add (num_linked data) INDEX_ID_NULL k m;
    counter_add (num_linked data) id_code k m
  else
    m ← counter_add (num_local data) INDEX_ID_NULL k m;
    counter_add (num_local data) id_code k m.

(** [lib_query_unused_ids_tag_id]. *)
Definition lib_query_unused_ids_tag_id (id : ID)
  (st : UnusedIDsData * Memory) : option (UnusedIDsData * Memory) :=
  let '(data, m) := st in
  s ← ids m !! id;
  if match filter_fn data with
     | Some f => negb (f id s)
     | None => false
     end
  then Some (data, m)
  else
    let m := set_tag m id s (Z.lor (tag s) (id_tag data)) in
    let data := with_unused_ids data ({[id]} ∪ unused_ids data) in
    m ← count_id data s 1 m;
    Some (data, m).

(** [lib_query_unused_ids_untag_id]; removing an ID that is not in the set
    has no defined behaviour. *)
Definition lib_query_unused_ids_untag_id (id : ID)
  (st : UnusedIDsData * Memory) : option (UnusedIDsData * Memory) :=
  let '(data, m) := st in
  s ← ids m !! id;
  let m := set_tag m id s (Z.land (tag s) (Z.lnot (id_tag data))) in
  if decide (id ∈ unused_ids data) then
    let data := with_unused_ids data (unused_ids data ∖ {[id]}) in
    m ← count_id data s (-1) m;
    Some (data, m)
  else None.

(** The ID is out of the scope of the query:
    [(!do_linked_ids && ID_IS_LINKED(id)) ||
     (!do_local_ids && !ID_IS_LINKED(id))]. *)
Definition out_of_scope (data : UnusedIDsData) (s : IDStruct) : bool :=
  (negb (do_linked_ids data) && ID_IS_LINKED (lib s)) ||
  (negb (do_local_ids data) && negb (ID_IS_LINKED (lib s))).

(** One turn of the first loop of [lib_query_unused_ids_tag]. *)
Definition tag_or_clear (id : ID) (st : UnusedIDsData * Memory)
  : option (UnusedIDsData * Memory) :=
  let '(data, m) := st in
  s ← ids m !! id;
  if out_of_scope data s then
    Some (data, set_tag m id s (Z.land (tag s) (Z.lnot (id_tag data))))
  else if us s =? 0 then lib_query_unused_ids_tag_id id (data, m)
  else Some (data, set_tag m id s (Z.land (tag s) (Z.lnot (id_tag data)))).

(** The first loop of [lib_query_unused_ids_tag], over the IDs of the
    main database in the order [FOREACH_MAIN_ID] gives them. *)
Fixpoint unused_ids_first_loop (main_ids : list ID)
  (st : UnusedIDsData * Memory) : option (UnusedIDsData * Memory) :=
  match main_ids with
  | [] => Some st
  | id :: main_ids =>
      st ← tag_or_clear id st;
      unused_ids_first_loop main_ids st
  end.

(** The cells of the four counters of an ID: an array and an index
    each. *)
Definition id_cells (data : UnusedIDsData) (s : IDStruct)
  : list (positive * Z) :=
  let id_code := BKE_idtype_idcode_to_index (name s) in
  let array := if ID_IS_LINKED (lib s) then num_linked data
               else num_local data in
  [(num_total data, INDEX_ID_NULL); (num_total data, id_code);
   (array, INDEX_ID_NULL); (array, id_code)].

(** The ID is one the first loop tags: in scope, without user, and kept by
    the filter. *)
Definition immediately_unused (data : UnusedIDsData) (id : ID)
  (s : IDStruct) : bool :=
  negb (out_of_scope data s) && (us s =? 0) &&
  match filter_fn data with
  | Some f => f id s
  | None => true
  end.

(** The tag the first loop leaves on an ID whose tag was [tag s]: cleared
    of [id_tag] when the ID is out of scope or has users, set when the ID is
    tagged as unused, and as it was when the filter drops the ID. *)
Definition tag_after_first_loop (data : UnusedIDsData) (id : ID)
  (s : IDStruct) : Z :=
  if out_of_scope data s || negb (us s =? 0)
  then Z.land (tag s) (Z.lnot (id_tag data))
  else if immediately_unused data id s
  then Z.lor (tag s) (id_tag data)
  else tag s.

End Tagging.

(** The counter [i] of the array at the address [array]. *)
Definition counter (m : Memory) (array : positive) (i : Z) : option Z :=
  a ← counters m !! array; array_get a i.

(** The number of the cells of the list that are the cell [c]. *)
Definition hits (c : positive * Z) (cells : list (positive * Z)) : Z :=
  Z.of_nat (length (List.filter (fun c' => bool_decide (c' = c)) cells)).

(** The counters of a list of cells moved by [k], one after the other. *)
Fixpoint counter_adds (cells : list (positive * Z)) (k : Z) (m : Memory)
  : option Memory :=
  match cells with
  | [] => Some m
  | c :: cells => m ← counter_add (fst c) (snd c) k m; counter_adds cells k m
  end.

(** Every counter is an [int]. *)
Definition counters_are_ints (m : Memory) : Prop :=
  forall array i v, counter m array i = Some v -> - 2 ^ 31 <= v <= INT_MAX.

(** The counters are balanced: for every index the three arrays have, the
    total is the sum of the local and the linked amounts, as an [int]. *)
Definition balanced (data : UnusedIDsData) (m : Memory) : Prop :=
  forall i t l k,
    counter m (num_total data) i = Some t ->
    counter m (num_local data) i = Some l ->
    counter m (num_linked data) i = Some k ->
    t = int_wrap (l + k).

(** An instance to run the definitions on: the linked IDs are those with a
    library, the index of a code is the code, the totals are at index 0. *)
Module DemoUnused.

#[export] Instance externs : IDExterns :=
  {| ID_IS_LINKED := fun l => bool_decide (is_Some l);
     BKE_idtype_idcode_to_index := fun c => c;
     INDEX_ID_NULL := 0 |}.

(** Three IDs: 5 is local and unused, 6 is linked and unused, 7 is local
    and used twice. *)
Definition memory : Memory :=
  {| ids := <[5%positive := {| tag := 0; us := 0; lib := None; name := 1 |}]>
              (<[6%positive := {| tag := 4; us := 0; lib := Some 1%positive;
                                  name := 2 |}]>
                 (<[7%positive := {| tag := 8; us := 2; lib := None;
                                     name := 1 |}]> ∅));
     counters := <[1%positive := [0; 0; 0]]>
                   (<[2%positive := [0; 0; 0]]>
                      (<[3%positive := [0; 0; 0]]> ∅)) |}.

Definition query (local linked : bool) : UnusedIDsData :=
  {| id_tag := 8; do_local_ids := local; do_linked_ids := linked;
     do_recursive := false; filter_fn := None;
     num_total := 1; num_local := 2; num_linked := 3;
     unused_ids := ∅ |}.

End DemoUnused.

End UnusedIDs.

(** Evaluation of a closed statement over the small instance. *)
Ltac run := vm_compute; repeat split; congruence.

(** * Proofs *)

Import Demo.

(** ** Machine integers, arrays and loops *)

Lemma int_wrap_id z : - 2 ^ 31 <= z <= INT_MAX -> int_wrap z = z.
Proof.
  unfold int_wrap, INT_MAX. intros Hz.
  rewrite Z.mod_small by lia. lia.
Qed.

Lemma int_index i j M N :
  0 <= i < M -> 0 <= j < N -> M * N <= INT_MAX ->
  int_add (int_mul i N) j = i * N + j /\ 0 <= i * N + j < M * N.
Proof.
  intros Hi Hj Hmax.
  assert (0 <= i * N) by nia.
  assert (i * N + j < M * N) by nia.
  unfold int_add, int_mul.
  rewrite (int_wrap_id (i * N)) by (unfold INT_MAX in *; lia).
  rewrite int_wrap_id by (unfold INT_MAX in *; lia). lia.
Qed.

Lemma array_get_lookup {A} (a : list A) (i : Z) :
  0 <= i -> array_get a i = a !! Z.to_nat i.
Proof. intros Hi. unfold array_get. destruct (Z.leb_spec 0 i); [done | lia]. Qed.

Lemma array_get_is_Some {A} (a : list A) (i : Z) :
  0 <= i < Z.of_nat (length a) -> is_Some (array_get a i).
Proof.
  intros Hi. rewrite array_get_lookup by lia.
  apply lookup_lt_is_Some. lia.
Qed.

Lemma array_get_Some_bound {A} (a : list A) (i : Z) x :
  array_get a i = Some x -> 0 <= i < Z.of_nat (length a).
Proof.
  unfold array_get. destruct (Z.leb_spec 0 i); [|done].
  intros Hx. apply lookup_lt_Some in Hx. lia.
Qed.

Lemma array_set_in_range {A} (a : list A) (i : Z) (v : A) :
  0 <= i < Z.of_nat (length a) ->
  array_set a i v = Some (<[Z.to_nat i := v]> a).
Proof.
  intros Hi. unfold array_set.
  destruct (Z.leb_spec 0 i); [|lia].
  destruct (Z.ltb_spec i (Z.of_nat (length a))); [done | lia].
Qed.

Lemma array_set_Some {A} (a a' : list A) (i : Z) (v : A) :
  array_set a i v = Some a' ->
  0 <= i < Z.of_nat (length a) /\ a' = <[Z.to_nat i := v]> a.
Proof.
  unfold array_set.
  destruct (Z.leb_spec 0 i); [|done].
  destruct (Z.ltb_spec i (Z.of_nat (length a))); [|done].
  intros [= <-]. split; [lia | done].
Qed.

Lemma array_get_set_eq {A} (a : list A) (i : Z) (v : A) :
  0 <= i < Z.of_nat (length a) ->
  array_get (<[Z.to_nat i := v]> a) i = Some v.
Proof.
  intros Hi. rewrite array_get_lookup by lia.
  apply list_lookup_insert_eq. lia.
Qed.

Lemma array_get_set_ne {A} (a : list A) (i k : Z) (v : A) :
  0 <= i -> 0 <= k -> k <> i ->
  array_get (<[Z.to_nat i := v]> a) k = array_get a k.
Proof.
  intros Hi Hk Hne. rewrite !array_get_lookup by lia.
  apply list_lookup_insert_ne. lia.
Qed.

(** A loop keeps an invariant and ends when each turn keeps it and ends. *)
Lemma for_loop_total {S} (P : Z -> S -> Prop) body n lo (s : S) :
  P lo s ->
  (forall k s, lo <= k < lo + Z.of_nat n -> P k s ->
     exists s', body k s = Some s' /\ P (k + 1) s') ->
  exists s', for_loop n lo body s = Some s' /\ P (lo + Z.of_nat n) s'.
Proof.
  revert lo s. induction n as [|n IH]; intros lo s H0 Hstep.
  - exists s. split; [done|]. by replace (lo + Z.of_nat 0) with lo by lia.
  - destruct (Hstep lo s) as (s1 & Hb & H1); [lia | done |].
    destruct (IH (lo + 1) s1) as (s2 & Hl & H2); [done | |].
    + intros k s' Hk. apply Hstep. lia.
    + exists s2. cbn [for_loop]. rewrite Hb. split; [done|].
      by replace (lo + Z.of_nat (Datatypes.S n)) with (lo + 1 + Z.of_nat n) by lia.
Qed.

(** The result of a loop that ends has the invariant each turn keeps. *)
Lemma for_loop_partial {S} (P : Z -> S -> Prop) body n lo (s s' : S) :
  for_loop n lo body s = Some s' ->
  P lo s ->
  (forall k s s', lo <= k < lo + Z.of_nat n -> P k s ->
     body k s = Some s' -> P (k + 1) s') ->
  P (lo + Z.of_nat n) s'.
Proof.
  revert lo s. induction n as [|n IH]; intros lo s Hl H0 Hstep.
  - cbn in Hl. injection Hl as <-. by replace (lo + Z.of_nat 0) with lo by lia.
  - cbn [for_loop] in Hl. destruct (body lo s) as [s1|] eqn:Hb; [|done].
    replace (lo + Z.of_nat (Datatypes.S n)) with (lo + 1 + Z.of_nat n) by lia.
    apply (IH (lo + 1) s1); [done | |].
    + apply (Hstep lo s); [lia | done | done].
    + intros k t t' Hk. apply Hstep. lia.
Qed.

Lemma for_range_total {S} (P : Z -> S -> Prop) body lo hi (s : S) :
  lo <= hi -> P lo s ->
  (forall k s, lo <= k < hi -> P k s ->
     exists s', body k s = Some s' /\ P (k + 1) s') ->
  exists s', for_range lo hi body s = Some s' /\ P hi s'.
Proof.
  intros Hle H0 Hstep. unfold for_range.
  destruct (for_loop_total P body (Z.to_nat (hi - lo)) lo s) as (s' & Hl & Hp);
    [done | | ].
  - intros k t Hk. apply Hstep. lia.
  - exists s'. split; [done|]. by replace hi with (lo + Z.of_nat (Z.to_nat (hi - lo))) by lia.
Qed.

Lemma for_range_partial {S} (P : Z -> S -> Prop) body lo hi (s s' : S) :
  lo <= hi -> for_range lo hi body s = Some s' -> P lo s ->
  (forall k s s', lo <= k < hi -> P k s -> body k s = Some s' -> P (k + 1) s') ->
  P hi s'.
Proof.
  intros Hle Hl H0 Hstep. unfold for_range in Hl.
  replace hi with (lo + Z.of_nat (Z.to_nat (hi - lo))) by lia.
  eapply for_loop_partial; [done | done |].
  intros k t t' Hk. apply Hstep. lia.
Qed.

Lemma for_range_empty {S} body lo hi (s : S) :
  hi <= lo -> for_range lo hi body s = Some s.
Proof. intros H. unfold for_range. by replace (Z.to_nat (hi - lo)) with O by lia. Qed.

(** ** Synthesis *)

Section Synthesis.
Context `{E : OceanExterns}.

Lemma rng_after_step (k : Z) rng :
  0 <= k ->
  rng_after (Z.to_nat (2 * (k + 1))) rng =
  snd (gaussRand (snd (gaussRand (rng_after (Z.to_nat (2 * k)) rng)))).
Proof.
  intros Hk.
  replace (Z.to_nat (2 * (k + 1))) with (Datatypes.S (Datatypes.S (Z.to_nat (2 * k)))) by lia.
  reflexivity.
Qed.

Lemma draw_second (k : Z) rng :
  0 <= k ->
  draw rng (Z.to_nat (2 * k + 1)) =
  fst (gaussRand (snd (gaussRand (rng_after (Z.to_nat (2 * k)) rng)))).
Proof.
  intros Hk. unfold draw.
  replace (Z.to_nat (2 * k + 1)) with (Datatypes.S (Z.to_nat (2 * k))) by lia.
  reflexivity.
Qed.

(** One turn of the inner loop writes the entry [i * N + j]. *)
Lemma ocean_init_h0_at_total o rng0 i j st :
  0 <= i < _M o -> 0 <= j < _N o -> _M o * _N o <= INT_MAX ->
  Z.of_nat (length (_kx o)) = _M o -> Z.of_nat (length (_kz o)) = _N o ->
  h0_inv o rng0 (i * _N o + j) st ->
  exists st', ocean_init_h0_at o i j st = Some st' /\
              h0_inv o rng0 (i * _N o + j + 1) st'.
Proof.
  intros Hi Hj Hmax Hkx Hkz (Hlen & Hrng & Hfill).
  destruct st as [h0 rng]. cbn [fst snd] in *.
  destruct (int_index i j (_M o) (_N o) Hi Hj Hmax) as [Hidx Hrange].
  set (k := i * _N o + j) in *.
  destruct (array_get_is_Some (_kx o) i) as [kxi Hkxi]; [lia|].
  destruct (array_get_is_Some (_kz o) j) as [kzj Hkzj]; [lia|].
  unfold ocean_init_h0_at.
  destruct (gaussRand rng) as [r1 rng1] eqn:Hg1. cbv beta iota.
  destruct (gaussRand rng1) as [r2 rng2] eqn:Hg2. cbv beta iota.
  rewrite Hkxi, Hkzj. cbn [mbind option_bind].
  rewrite Hidx, array_set_in_range by lia. cbn [mbind option_bind].
  eexists. split; [reflexivity|].
  assert (Hr1 : r1 = draw rng0 (Z.to_nat (2 * k))).
  { unfold draw. by rewrite <- Hrng, Hg1. }
  assert (Hr2 : r2 = draw rng0 (Z.to_nat (2 * k + 1))).
  { rewrite draw_second by lia. rewrite <- Hrng, Hg1. cbn [snd]. by rewrite Hg2. }
  split; [|split]; cbn [fst snd].
  - by rewrite length_insert.
  - rewrite rng_after_step by lia. rewrite <- Hrng, Hg1. cbn [snd]. by rewrite Hg2.
  - intros k' Hk'. destruct (decide (k' = k)) as [->|Hne].
    + exists kxi, kzj.
      assert (k / _N o = i) as -> by (subst k; symmetry; apply Z.div_unique with j; lia).
      assert (k mod _N o = j) as -> by (subst k; symmetry; apply Z.mod_unique with i; lia).
      split; [done|]. split; [done|].
      rewrite array_get_set_eq by lia. unfold h0_value. by rewrite <- Hr1, <- Hr2.
    + destruct (Hfill k') as (a & b & Ha & Hb & Hv); [lia|].
      exists a, b. split; [done|]. split; [done|].
      by rewrite array_get_set_ne by lia.
Qed.

(** The inner loop writes the row [i]. *)
Lemma ocean_init_h0_row_total o rng0 i st :
  0 <= i < _M o -> 0 <= _N o -> _M o * _N o <= INT_MAX ->
  Z.of_nat (length (_kx o)) = _M o -> Z.of_nat (length (_kz o)) = _N o ->
  h0_inv o rng0 (i * _N o) st ->
  exists st',
    for_range 0 (_N o) (fun j => ocean_init_h0_at o i j) st = Some st' /\
    h0_inv o rng0 ((i + 1) * _N o) st'.
Proof.
  intros Hi HN Hmax Hkx Hkz Hinv.
  destruct (for_range_total (fun j => h0_inv o rng0 (i * _N o + j))
              (fun j => ocean_init_h0_at o i j) 0 (_N o) st) as (st' & Hl & Hp).
  - done.
  - by replace (i * _N o + 0) with (i * _N o) by lia.
  - intros j s Hj Hs.
    replace (i * _N o + (j + 1)) with (i * _N o + j + 1) by lia.
    by apply ocean_init_h0_at_total.
  - exists st'. split; [done|].
    by replace ((i + 1) * _N o) with (i * _N o + _N o) by lia.
Qed.

(** The two loops fill the block: synthesis ends, and every entry of [_h0]
    holds its value. *)
Lemma ocean_init_h0_total o rng0 :
  0 <= _M o -> 0 <= _N o -> _M o * _N o <= INT_MAX ->
  Z.of_nat (length (_kx o)) = _M o -> Z.of_nat (length (_kz o)) = _N o ->
  Z.of_nat (length (_h0 o)) = _M o * _N o ->
  exists st', ocean_init_h0 o rng0 = Some st' /\
              h0_inv o rng0 (_M o * _N o) st'.
Proof.
  intros HM HN Hmax Hkx Hkz Hlen.
  apply (for_range_total (fun i => h0_inv o rng0 (i * _N o))).
  - done.
  - split; [done|]. split; [done|]. intros k Hk. lia.
  - intros i s Hi Hs. by apply ocean_init_h0_row_total.
Qed.

(** A block that the loops fill entry by entry: the filled entries do not
    depend on what the block held. *)
Lemma h0_filled_eq o rng0 (h1 h2 : list complex) :
  Z.of_nat (length h1) = _M o * _N o -> Z.of_nat (length h2) = _M o * _N o ->
  h0_filled o rng0 h1 (_M o * _N o) -> h0_filled o rng0 h2 (_M o * _N o) ->
  h1 = h2.
Proof.
  intros Hl1 Hl2 Hf1 Hf2. apply list_eq. intros n.
  destruct (decide (Z.of_nat n < _M o * _N o)) as [Hn|Hn].
  - destruct (Hf1 (Z.of_nat n)) as (a & b & Ha & Hb & Hv); [lia|].
    destruct (Hf2 (Z.of_nat n)) as (a' & b' & Ha' & Hb' & Hv'); [lia|].
    rewrite array_get_lookup, Nat2Z.id in Hv, Hv' by lia.
    rewrite Hv, Hv'. congruence.
  - rewrite !lookup_ge_None_2 by lia. done.
Qed.

End Synthesis.

Section Init.
Context `{E : OceanExterns}.


Section Args.
Variables (mem : OceanArrays) (o : Ocean) (M N : Z).
Variables (Lx Lz V l A w damp alignment depth time : F32.t).
Variables (spectrum : Z) (fetch_jonswap sharpen_peak_jonswap : F32.t).
Variables (do_height_field do_chop do_spray do_normals do_jacobian : Z).
Variable (seed : Z).

Abbreviation init :=
  (BKE_ocean_init mem o M N Lx Lz V l A w damp alignment depth time spectrum
     fetch_jonswap sharpen_peak_jonswap do_height_field do_chop do_spray
     do_normals do_jacobian seed).

(** What [BKE_ocean_init] stores of its arguments. *)
Lemma BKE_ocean_init_fields o' :
  init = Some o' ->
  _M o' = M /\ _N o' = N /\
  _do_disp_y o' = do_height_field /\ _do_chop o' = do_chop /\
  _do_normals o' = do_normals /\ _do_jacobian o' = do_jacobian /\
  _kx o' = ocean_wavenumbers M Lx /\ _kz o' = ocean_wavenumbers N Lz /\
  _htilda o' = a_htilda mem /\
  (forall f, get_field f o' = field_of mem f) /\
  _params o' =
    {| p_Lx := Lx; p_Lz := Lz; p_V := V; p_l := l; p_A := A; p_w := w;
       p_damp := damp; p_alignment := alignment; p_depth := depth;
       p_time := time; p_spectrum := spectrum;
       p_fetch_jonswap := fetch_jonswap;
       p_sharpen_peak_jonswap := sharpen_peak_jonswap;
       p_do_spray := do_spray; p_seed := seed |}.
Proof.
  unfold BKE_ocean_init. intros Hrun.
  destruct (ocean_init_h0 _ _) as [[h0 rng]|]; [|done].
  cbn in Hrun. injection Hrun as <-. repeat split; try by intros [].
Qed.

(** With a block of [M * N] entries the synthesis ends, and every entry of
    [_h0] holds its value. *)
Lemma BKE_ocean_init_total :
  init_ready mem M N Lx Lz ->
  exists o', init = Some o' /\
    Z.of_nat (length (_h0 o')) = M * N /\
    h0_filled o' (BLI_rng_new seed) (_h0 o') (M * N).
Proof.
  intros (HM & HN & Hmax & Hlen & Hkx & Hkz).
  unfold BKE_ocean_init.
  match goal with |- context [ocean_init_h0 ?x _] => set (o1 := x) end.
  destruct (ocean_init_h0_total o1 (BLI_rng_new seed)) as ([h0 rng] & Hrun & Hl & _ & Hfill);
    try done.
  rewrite Hrun. cbn. eexists. split; [reflexivity|]. split; [done|]. done.
Qed.


(** The entry of [_h0] for the wavenumber pair [(kx[i], kz[j])]. *)
Lemma BKE_ocean_init_entry i j :
  init_ready mem M N Lx Lz -> 0 <= i < M -> 0 <= j < N ->
  exists o' kxi kzj,
    init = Some o' /\
    array_get (_kx o') i = Some kxi /\
    array_get (_kz o') j = Some kzj /\
    array_get (_h0 o') (i * _N o' + j) =
      Some (h0_value (_params o') (BLI_rng_new seed) (i * N + j) kxi kzj).
Proof.
  intros Hready Hi Hj.
  destruct (BKE_ocean_init_total Hready) as (o' & Hrun & Hlen & Hfill).
  destruct (BKE_ocean_init_fields o' Hrun) as (HM & HN & _).
  destruct Hready as (_ & _ & Hmax & _).
  destruct (Hfill (i * N + j)) as (kxi & kzj & Ha & Hb & Hv); [nia|].
  rewrite HN in Ha, Hb.
  assert ((i * N + j) / N = i) as Hd by (symmetry; apply Z.div_unique with j; lia).
  assert ((i * N + j) mod N = j) as Hm by (symmetry; apply Z.mod_unique with i; lia).
  rewrite Hd in Ha. rewrite Hm in Hb.
  exists o', kxi, kzj. rewrite HN. done.
Qed.

(** C3. For every wavenumber pair [(kx[i], kz[j])] the synthesis visits,
    the entry [i * N + j] of [_h0] is the complex pair of two draws of the
    generator seeded with [seed], the draws number [2 (i N + j)] and
    [2 (i N + j) + 1] of its sequence, multiplied by
    [sqrt(Ph(kx[i], kz[j]) / 2)]. *)
Theorem C3_h0_entry_is_scaled_pair_of_draws (i j : Z) :
  init_ready mem M N Lx Lz -> 0 <= i < M -> 0 <= j < N ->
  exists o' kxi kzj,
    init = Some o' /\
    array_get (_kx o') i = Some kxi /\
    array_get (_kz o') j = Some kzj /\
    array_get (_h0 o') (i * _N o' + j) =
      Some (mul_complex_f
              (init_complex
                 (draw (BLI_rng_new seed) (Z.to_nat (2 * (i * N + j))))
                 (draw (BLI_rng_new seed) (Z.to_nat (2 * (i * N + j) + 1))))
              (F32.sqrt (F32.div (Ph (_params o') kxi kzj) F32.two))).
Proof.
  intros Hready Hi Hj.
  destruct (BKE_ocean_init_entry i j Hready Hi Hj) as (o' & kxi & kzj & H).
  exists o', kxi, kzj. exact H.
Qed.


End Args.

Lemma h0_filled_ext (o o' : Ocean) rng h0 bound :
  _kx o = _kx o' -> _kz o = _kz o' -> _N o = _N o' -> _params o = _params o' ->
  h0_filled o rng h0 bound -> h0_filled o' rng h0 bound.
Proof.
  unfold h0_filled. intros <- <- <- <- H. exact H.
Qed.

(** [init_data] ends when the allocator hands a block of 49 * 49 entries. *)
Lemma init_data_total mem md :
  init_ready mem 49 49 (F32.of_int 50) (F32.of_int 50) ->
  exists omd o', init_data mem md = Some (omd, o').
Proof.
  intros Hready. unfold init_data, BKE_ocean_init_from_modifier.
  match goal with |- context [BKE_ocean_init _ _ _ _ _ _ ?V ?l ?A ?w ?dmp ?al ?dp ?tm ?sp ?fj ?sj ?dh ?dc ?ds ?dn ?dj ?sd] =>
    destruct (BKE_ocean_init_total mem BKE_ocean_add 49 49 (F32.of_int 50)
                (F32.of_int 50) V l A w dmp al dp tm sp fj sj dh dc ds dn dj sd
                Hready) as (o' & Hrun & _)
  end.
  cbn [resolution spatial_size] in *.
  change (int_mul 7 7) with 49.
  rewrite Hrun. cbn. eauto.
Qed.

End Init.

(** ** Determinism and the size of the grid *)

(** C1. Synthesis is deterministic: two calls of
    [BKE_ocean_init_from_modifier] with the same modifier and resolution
    both end and give the same [_h0], bit for bit, whatever the oceans and
    the blocks they start from hold; the seeded generator is the only
    source of the values. *)
Theorem C1_synthesis_is_deterministic `{E : OceanExterns}
  (mem1 mem2 : OceanArrays) (o1 o2 : Ocean) (omd : OceanModifierData)
  (r : Z) :
  init_ready mem1 (int_mul r r) (int_mul r r)
    (F32.of_int (spatial_size omd)) (F32.of_int (spatial_size omd)) ->
  init_ready mem2 (int_mul r r) (int_mul r r)
    (F32.of_int (spatial_size omd)) (F32.of_int (spatial_size omd)) ->
  exists o1' o2',
    BKE_ocean_init_from_modifier mem1 o1 omd r = Some o1' /\
    BKE_ocean_init_from_modifier mem2 o2 omd r = Some o2' /\
    _h0 o1' = _h0 o2'.
Proof.
  intros H1 H2. unfold BKE_ocean_init_from_modifier.
  destruct (BKE_ocean_init_total _ o1 _ _ _ _ (wind_velocity omd)
              (smallest_wave omd) F32.one (wave_direction omd) (damp omd)
              (wave_alignment omd) (depth omd) (time omd) (spectrum omd)
              (fetch_jonswap omd) (sharpen_peak_jonswap omd) 1
              (if F32.gtb (chop_amount omd) (F32.of_int 0) then 1 else 0)
              do_spray
              (short_wrap (Z.land (flag omd) MOD_OCEAN_GENERATE_NORMALS))
              (short_wrap (Z.land (flag omd) MOD_OCEAN_GENERATE_FOAM))
              (seed omd) H1)
    as (o1' & Hr1 & Hl1 & Hf1).
  destruct (BKE_ocean_init_total _ o2 _ _ _ _ (wind_velocity omd)
              (smallest_wave omd) F32.one (wave_direction omd) (damp omd)
              (wave_alignment omd) (depth omd) (time omd) (spectrum omd)
              (fetch_jonswap omd) (sharpen_peak_jonswap omd) 1
              (if F32.gtb (chop_amount omd) (F32.of_int 0) then 1 else 0)
              do_spray
              (short_wrap (Z.land (flag omd) MOD_OCEAN_GENERATE_NORMALS))
              (short_wrap (Z.land (flag omd) MOD_OCEAN_GENERATE_FOAM))
              (seed omd) H2)
    as (o2' & Hr2 & Hl2 & Hf2).
  exists o1', o2'. split; [done|]. split; [done|].
  destruct (BKE_ocean_init_fields _ _ _ _ _ _ _ _ _ _ _ _ _ _ _ _ _ _ _ _ _ _ _ _ Hr1)
    as (HM1 & HN1 & _ & _ & _ & _ & Hkx1 & Hkz1 & _ & _ & Hp1).
  destruct (BKE_ocean_init_fields _ _ _ _ _ _ _ _ _ _ _ _ _ _ _ _ _ _ _ _ _ _ _ _ Hr2)
    as (HM2 & HN2 & _ & _ & _ & _ & Hkx2 & Hkz2 & _ & _ & Hp2).
  apply (h0_filled_eq o1' (BLI_rng_new (seed omd))).
  - by rewrite HM1, HN1.
  - by rewrite HM1, HN1.
  - by rewrite HM1, HN1.
  - rewrite HM1, HN1. apply (h0_filled_ext o2'); [congruence.. | exact Hf2].
Qed.

Lemma C1_synthesis_is_deterministic_witness :
  exists o1' o2',
    BKE_ocean_init_from_modifier (blocks 16 12) BKE_ocean_add (omd 1 0) 2
      = Some o1' /\
    BKE_ocean_init_from_modifier
      (set_h0 (replicate 16 (F32.one, F32.two)) flat_ocean).(_arrays)
      flat_ocean (omd 1 0) 2 = Some o2' /\
    _h0 o1' = _h0 o2'.
Proof.
  apply (C1_synthesis_is_deterministic (E := externs)); run.
Defined.

(** C2. Initialization from the modifier makes the grid [r * r] by [r * r]
    for every resolution [r] of the property's range, 1 to 1024; the
    default resolution 7 of [init_data] gives a grid of 49 by 49, and 49 is
    not a power of two. *)
Theorem C2_grid_is_resolution_squared `{E : OceanExterns} :
  (forall mem o omd r o',
     1 <= r <= 1024 ->
     BKE_ocean_init_from_modifier mem o omd r = Some o' ->
     _M o' = r * r /\ _N o' = r * r) /\
  (forall mem md omd o',
     init_data mem md = Some (omd, o') ->
     resolution omd = 7 /\ _M o' = 49 /\ _N o' = 49) /\
  (forall k, 2 ^ k <> 49).
Proof.
  assert (Hsq : forall mem o omd r o',
            1 <= r <= 1024 ->
            BKE_ocean_init_from_modifier mem o omd r = Some o' ->
            _M o' = r * r /\ _N o' = r * r).
  { intros mem o omd r o' Hr Hrun. unfold BKE_ocean_init_from_modifier in Hrun.
    apply BKE_ocean_init_fields in Hrun as (HM & HN & _).
    assert (int_mul r r = r * r) as Hmul.
    { apply int_wrap_id. unfold INT_MAX. nia. }
    by rewrite HM, HN, Hmul. }
  split; [exact Hsq|]. split.
  - intros mem md omd o' Hrun. unfold init_data in Hrun.
    match type of Hrun with context [BKE_ocean_init_from_modifier _ _ ?x _] =>
      set (omd0 := x) in * end.
    destruct (BKE_ocean_init_from_modifier _ _ omd0 _) as [o1|] eqn:Hinit; [|done].
    cbn in Hrun. injection Hrun as <- <-.
    split; [done|]. apply (Hsq _ _ _ 7) in Hinit; [done | lia].
  - intros k Hk. destruct (Z.lt_ge_cases k 6) as [Hlt|Hge].
    + destruct (Z.lt_ge_cases k 0).
      * rewrite Z.pow_neg_r in Hk by done. done.
      * assert (2 ^ k <= 2 ^ 5) by (apply Z.pow_le_mono_r; lia).
        change (2 ^ 5) with 32 in *. lia.
    + assert (2 ^ 6 <= 2 ^ k) by (apply Z.pow_le_mono_r; lia).
      change (2 ^ 6) with 64 in *. lia.
Qed.

Lemma C2_grid_is_resolution_squared_witness :
  (_M (ocean 1 0) = 2 * 2 /\ _N (ocean 1 0) = 2 * 2) /\
  (exists md' o',
     init_data (blocks 2401 1225) (omd 1 0) = Some (md', o') /\
     resolution md' = 7 /\ _M o' = 49 /\ _N o' = 49).
Proof.
  destruct (C2_grid_is_resolution_squared (E := externs)) as (Hsq & Hdef & _).
  split.
  - apply (Hsq (blocks 16 12) BKE_ocean_add (omd 1 0) 2); [lia|].
    vm_compute. reflexivity.
  - destruct (init_data_total (blocks 2401 1225) (omd 1 0)) as (md' & o' & Hrun);
      [run|].
    exists md', o'. split; [done|]. by apply (Hdef (blocks 2401 1225) (omd 1 0)).
Defined.

Lemma C3_h0_entry_is_scaled_pair_of_draws_witness :
  exists o' kxi kzj,
    BKE_ocean_init (blocks 16 12) BKE_ocean_add 4 4 (F32.of_int 50)
      (F32.of_int 50) (F32.of_int 30) F32.one F32.one F32.zero F32.zero
      F32.zero (F32.of_int 200) F32.zero 0 F32.zero F32.zero 1 1 0 0 0 42
      = Some o' /\
    array_get (_kx o') 2 = Some kxi /\
    array_get (_kz o') 3 = Some kzj /\
    array_get (_h0 o') (2 * _N o' + 3) =
      Some (mul_complex_f
              (init_complex (draw (BLI_rng_new 42) (Z.to_nat (2 * (2 * 4 + 3))))
                 (draw (BLI_rng_new 42) (Z.to_nat (2 * (2 * 4 + 3) + 1))))
              (F32.sqrt (F32.div (Ph (_params o') kxi kzj) F32.two))).
Proof.
  apply (C3_h0_entry_is_scaled_pair_of_draws (E := externs)); [run | lia | lia].
Defined.



(** ** The simulation step *)

(** A number that is at most zero is not above zero. *)
Lemma F32_leb_zero_not_gtb (x : F32.t) :
  F32.leb x (F32.of_int 0) = true -> F32.gtb x (F32.of_int 0) = false.
Proof. by destruct x as [[]|[]| |[] m e]. Qed.

Lemma set_htilda_id o : set_htilda (_htilda o) o = o.
Proof. by destruct o as [? ? ? ? ? ? ? ? ? []]. Qed.

Lemma set_htilda_twice h h' o : set_htilda h' (set_htilda h o) = set_htilda h' o.
Proof. done. Qed.

Section Simulate.
Context `{E : OceanExterns} `{K : OceanKernels}.

(** The first phase leaves everything but [_htilda] as it was, and runs row
    tasks only. *)
Lemma BLI_task_parallel_range_inv lo hi osd o o1 rows :
  BLI_task_parallel_range lo hi osd (o, []) = Some (o1, rows) ->
  o1 = set_htilda (_htilda o1) o /\ Forall is_row_task rows.
Proof.
  intros Hrun. unfold BLI_task_parallel_range in Hrun.
  destruct (Z.le_gt_cases lo hi) as [Hle|Hgt]; cycle 1.
  { rewrite for_range_empty in Hrun by lia. injection Hrun as <- <-.
    by rewrite set_htilda_id. }
  apply (for_range_partial
           (fun _ st => fst st = set_htilda (_htilda (fst st)) o /\
                        Forall is_row_task (snd st))
           _ _ _ _ _ Hle Hrun).
  - cbn. by rewrite set_htilda_id.
  - intros i [oc log] st' _ [Hoc Hlog] Hstep. cbn [fst snd] in *.
    destruct (ocean_compute_htilda osd i oc) as [ht|]; [|done].
    cbn in Hstep. injection Hstep as <-. cbn [fst snd]. split.
    + rewrite Hoc. done.
    + apply Forall_app. split; [done|]. repeat constructor. by exists i.
Qed.

(** What a simulation step leaves: the fields of the features that are
    enabled are the transforms of the time-evolved amplitudes, the other
    fields are untouched, and the transforms that ran are those of the
    enabled features. *)
Lemma BKE_ocean_simulate_inv o t scale chop o' log :
  BKE_ocean_simulate o t scale chop = Some (o', log) ->
  let osd := {| osd_t := t; osd_scale := scale; osd_chop_amount := chop |} in
  with_arrays o' (_arrays o) = o /\
  _h0 o' = _h0 o /\
  (forall f, get_field f o' =
             if truthy (field_flag f o)
             then ocean_transform f (transform_input osd (set_htilda (_htilda o') o))
             else get_field f o) /\
  (forall f, In (Task_transform f) log <-> truthy (field_flag f o) = true).
Proof.
  intros Hrun osd. unfold BKE_ocean_simulate in Hrun. fold osd in Hrun.
  destruct (BLI_task_parallel_range 0 (_M o) osd (o, [])) as [[o1 rows]|] eqn:Hrows;
    [|done].
  apply BLI_task_parallel_range_inv in Hrows as [Ho1 Hrows].
  cbn [mbind option_bind] in Hrun. injection Hrun as Hrun.
  set (ht := _htilda o1) in *. clearbody ht. subst o1.
  assert (Hnot : forall f, ~ In (Task_transform f) rows).
  { intros f Hin. rewrite Forall_forall in Hrows.
    destruct (Hrows _ ltac:(by apply list_elem_of_In)) as [i Hi]. done. }
  destruct o as [M N dy dn dc dj p kx kz a]. cbn [field_flag _do_disp_y _do_chop _do_jacobian _do_normals] in *.
  unfold when, ocean_compute_displacement_y, ocean_compute_displacement_x,
    ocean_compute_displacement_z, ocean_compute_jacobian_jxx,
    ocean_compute_jacobian_jzz, ocean_compute_jacobian_jxz,
    ocean_compute_normal_x, ocean_compute_normal_z, ocean_compute in Hrun.
  destruct (truthy dy) eqn:Hy, (truthy dc) eqn:Hc, (truthy dj) eqn:Hj,
    (truthy dn) eqn:Hn;
    cbn in Hrun; injection Hrun as <- <-;
    (split; [reflexivity|]); (split; [reflexivity|]);
    (split;
     [intros []; cbn [field_flag _do_disp_y _do_chop _do_jacobian _do_normals];
      rewrite ?Hy, ?Hc, ?Hj, ?Hn; reflexivity |]);
    intros f; rewrite ?in_app_iff; cbn [In]; specialize (Hnot f);
    destruct f; cbn [field_flag _do_disp_y _do_chop _do_jacobian _do_normals];
    rewrite ?Hy, ?Hc, ?Hj, ?Hn; intuition congruence.
Qed.

(** C9. An ocean initialized from the modifier has the choppiness enabled
    exactly when [chop_amount > 0], with no other flag for it. A simulation
    step of such an ocean runs both horizontal displacements, X then Z, and
    stores their transforms when [chop_amount > 0]; when [chop_amount <= 0]
    (and whenever [chop_amount > 0] does not hold) it runs neither and
    leaves both fields as they were. *)
Theorem C9_chop_enabled_iff_chop_amount_positive
  (mem : OceanArrays) (o : Ocean) (omd : OceanModifierData) (r : Z)
  (o1 : Ocean) (t scale chop : F32.t) (o2 : Ocean) (log : list OceanTask) :
  BKE_ocean_init_from_modifier mem o omd r = Some o1 ->
  BKE_ocean_simulate o1 t scale chop = Some (o2, log) ->
  let osd := {| osd_t := t; osd_scale := scale; osd_chop_amount := chop |} in
  let positive := F32.gtb (chop_amount omd) (F32.of_int 0) in
  truthy (_do_chop o1) = positive /\
  (F32.leb (chop_amount omd) (F32.of_int 0) = true -> positive = false) /\
  (positive = true ->
     In (Task_transform DispX) log /\ In (Task_transform DispZ) log /\
     get_field DispX o2 =
       ocean_transform DispX (transform_input osd (set_htilda (_htilda o2) o1)) /\
     get_field DispZ o2 =
       ocean_transform DispZ (transform_input osd (set_htilda (_htilda o2) o1))) /\
  (positive = false ->
     ~ In (Task_transform DispX) log /\ ~ In (Task_transform DispZ) log /\
     get_field DispX o2 = get_field DispX o1 /\
     get_field DispZ o2 = get_field DispZ o1).
Proof.
  intros Hinit Hsim osd positive.
  unfold BKE_ocean_init_from_modifier in Hinit.
  apply BKE_ocean_init_fields in Hinit as (_ & _ & _ & Hchop & _).
  fold positive in Hchop.
  assert (Hflag : truthy (_do_chop o1) = positive).
  { rewrite Hchop. by destruct positive. }
  destruct (BKE_ocean_simulate_inv _ _ _ _ _ _ Hsim) as (_ & _ & Hfields & Hlog).
  fold osd in Hfields.
  pose proof (Hfields DispX) as Hx. pose proof (Hfields DispZ) as Hz.
  pose proof (Hlog DispX) as Lx. pose proof (Hlog DispZ) as Lz.
  cbn [field_flag] in Hx, Hz, Lx, Lz. rewrite Hflag in Hx, Hz, Lx, Lz.
  split; [done|]. split; [apply F32_leb_zero_not_gtb|]. split.
  - intros Hp. rewrite Hp in Hx, Hz, Lx, Lz. tauto.
  - intros Hp. rewrite Hp in Hx, Hz, Lx, Lz.
    repeat split; try done; intros Hin; [apply Lx in Hin | apply Lz in Hin]; done.
Qed.

End Simulate.

Lemma C9_chop_enabled_iff_chop_amount_positive_witness :
  (truthy (_do_chop (ocean 1 0)) = true /\
   In (Task_transform DispX)
     (default [] (snd <$> BKE_ocean_simulate (K := spec_kernels) (ocean 1 0)
                            F32.one F32.two F32.one))) /\
  (truthy (_do_chop (ocean 0 0)) = false /\
   ~ In (Task_transform DispX)
       (default [] (snd <$> BKE_ocean_simulate (K := spec_kernels) (ocean 0 0)
                              F32.one F32.two F32.one))).
Proof.
  split.
  - destruct (BKE_ocean_simulate (K := spec_kernels) (ocean 1 0) F32.one
                F32.two F32.one) as [[o2 log]|] eqn:Hsim;
      [|vm_compute in Hsim; discriminate].
    destruct (C9_chop_enabled_iff_chop_amount_positive (E := externs)
                (K := spec_kernels) (blocks 16 12) BKE_ocean_add (omd 1 0) 2
                (ocean 1 0) F32.one F32.two F32.one o2 log)
      as (Hflag & _ & Hpos & _); [vm_compute; reflexivity | exact Hsim |].
    split; [exact Hflag | apply Hpos; reflexivity].
  - destruct (BKE_ocean_simulate (K := spec_kernels) (ocean 0 0) F32.one
                F32.two F32.one) as [[o2 log]|] eqn:Hsim;
      [|vm_compute in Hsim; discriminate].
    destruct (C9_chop_enabled_iff_chop_amount_positive (E := externs)
                (K := spec_kernels) (blocks 16 12) BKE_ocean_add (omd 0 0) 2
                (ocean 0 0) F32.one F32.two F32.one o2 log)
      as (Hflag & _ & _ & Hneg); [vm_compute; reflexivity | exact Hsim |].
    split; [exact Hflag | apply Hneg; reflexivity].
Defined.

(** ** Displace mode *)

Section Displace.
Context `{K : OceanKernels}.
Variables (omd : OceanModifierData) (ocean : Ocean).

Lemma ocr_after_snoc verts co ocr :
  ocr_after omd ocean (verts ++ [co]) ocr =
  snd (displace_vertex omd ocean co (ocr_after omd ocean verts ocr)).
Proof. revert ocr. induction verts as [|c verts IH]; intros ocr; cbn; [done|]. apply IH. Qed.

(** The loop over the vertices ends and displaces each vertex once. *)
Lemma displace_ocean_mesh_total verts ocr :
  exists verts',
    displace_ocean_mesh omd ocean verts (Z.of_nat (length verts)) ocr =
      Some (verts', ocr_after omd ocean verts ocr) /\
    length verts' = length verts /\
    forall k, verts' !! k = displaced omd ocean verts ocr k.
Proof.
  set (n := length verts).
  destruct (for_range_total
    (fun i (st : list float3 * OceanResult) =>
       length (fst st) = n /\
       snd st = ocr_after omd ocean (take (Z.to_nat i) verts) ocr /\
       (forall k, (k < Z.to_nat i)%nat -> fst st !! k = displaced omd ocean verts ocr k) /\
       (forall k, (Z.to_nat i <= k)%nat -> fst st !! k = verts !! k))
    (fun i '(verts, ocr) =>
       co ← array_get verts i;
       let '(co, ocr) := displace_vertex omd ocean co ocr in
       verts ← array_set verts i co;
       Some (verts, ocr))
    0 (Z.of_nat n) (verts, ocr)) as ([verts' ocr'] & Hrun & Hlen & Hocr & Hlo & _).
  - lia.
  - cbn. split; [done|]. split; [done|]. split; [intros k Hk; lia | done].
  - intros i [vs oc] Hi (Hlen & Hocr & Hlo & Hhi). cbn [fst snd] in *.
    destruct (verts !! Z.to_nat i) as [co|] eqn:Hco;
      [|apply lookup_ge_None in Hco; lia].
    rewrite array_get_lookup, Hhi, Hco by lia. cbn [mbind option_bind].
    destruct (displace_vertex omd ocean co oc) as [co' oc'] eqn:Hd.
    rewrite array_set_in_range by lia. cbn [mbind option_bind].
    eexists. split; [reflexivity|]. cbn [fst snd].
    replace (Z.to_nat (i + 1)) with (Datatypes.S (Z.to_nat i)) by lia.
    split; [by rewrite length_insert|]. split; [|split].
    + rewrite (take_S_r _ _ co) by done. rewrite ocr_after_snoc, <- Hocr, Hd. done.
    + intros k Hk. destruct (decide (k = Z.to_nat i)) as [->|Hne].
      * rewrite list_lookup_insert_eq by lia.
        unfold displaced. rewrite Hco, <- Hocr.
        cbn [fmap option_fmap option_map]. by rewrite Hd.
      * rewrite list_lookup_insert_ne by lia. apply Hlo. lia.
    + intros k Hk. rewrite list_lookup_insert_ne by lia. apply Hhi. lia.
  - exists verts'. cbn [fst snd] in *.
    rewrite Nat2Z.id in Hocr, Hlo. subst n. rewrite firstn_all in Hocr.
    split; [by rewrite <- Hocr|]. split; [done|].
    intros k. destruct (decide (k < length verts)%nat) as [Hk|Hk]; [by apply Hlo|].
    unfold displaced. rewrite !lookup_ge_None_2 by lia. done.
Qed.

(** C10. In displace mode the loop ends, and for every vertex of the mesh
    it changes the vertical coordinate alone: [co[1]] becomes
    [co[1] + ocr.disp[1] * omd->scale], with [ocr] the evaluation at the UV
    of the vertex, and [co[0]] and [co[2]] keep their value, whatever the
    evaluation wrote into the horizontal displacements. *)
Theorem C10_displace_changes_only_co1
  (verts : list float3) (ocr : OceanResult) :
  exists verts' ocr',
    displace_ocean_mesh omd ocean verts (Z.of_nat (length verts)) ocr =
      Some (verts', ocr') /\
    length verts' = length verts /\
    forall (i : nat) (co : float3),
      verts !! i = Some co ->
      exists co' ocr_i,
        verts' !! i = Some co' /\
        ocr_i =
          BKE_ocean_eval_uv ocean (ocr_after omd ocean (take i verts) ocr)
            (F32.div (F32.sub (f3_0 co) (f3_0 (location omd)))
               (F32.of_int (spatial_size omd)))
            (F32.div (F32.sub (f3_2 co) (f3_2 (location omd)))
               (F32.of_int (spatial_size omd))) /\
        f3_0 co' = f3_0 co /\
        f3_1 co' = F32.add (f3_1 co) (F32.mul (f3_1 (disp ocr_i)) (scale omd)) /\
        f3_2 co' = f3_2 co.
Proof.
  destruct (displace_ocean_mesh_total verts ocr) as (verts' & Hrun & Hlen & Hv).
  exists verts', (ocr_after omd ocean verts ocr).
  split; [done|]. split; [done|].
  intros i co Hco. eexists _, _. rewrite Hv. unfold displaced. rewrite Hco.
  cbn. repeat split.
Qed.

End Displace.

Lemma C10_displace_changes_only_co1_witness :
  exists verts' ocr',
    displace_ocean_mesh (K := spec_kernels) (omd 1 0) (simulated 1 0)
      [f3 1 2 3; f3 4 5 6] 2 ocr0 = Some (verts', ocr') /\
    exists co',
      verts' !! 1%nat = Some co' /\
      f3_0 co' = F32.of_int 4 /\ f3_2 co' = F32.of_int 6.
Proof.
  destruct (C10_displace_changes_only_co1 (K := spec_kernels) (omd 1 0)
              (simulated 1 0) [f3 1 2 3; f3 4 5 6] ocr0)
    as (verts' & ocr' & Hrun & _ & Hv).
  exists verts', ocr'. split; [exact Hrun|].
  destruct (Hv 1%nat (f3 4 5 6) eq_refl) as (co' & ocr_i & Hco & _ & H0 & _ & H2).
  exists co'. split; [exact Hco|]. split; [exact H0 | exact H2].
Defined.

(** ** Time evolution, as the specification describes it *)

Section TimeEvolution.
Context `{E : OceanExterns} `{Mth : OceanMath}.

Lemma half_width_pos N : 1 <= N -> 1 <= N / 2 + 1 <= N.
Proof.
  intros HN. assert (0 <= N / 2) by (apply Z.div_pos; lia).
  assert (N / 2 <= N - 1).
  { destruct (decide (N = 1)) as [->|]; [done|].
    apply Z.lt_le_pred, Z.div_lt_upper_bound; lia. }
  lia.
Qed.

Lemma htilda_at_is_Some osd o i j :
  sim_ready o -> 0 <= i < _M o -> 0 <= j < _N o / 2 + 1 ->
  is_Some (htilda_at osd o i j).
Proof.
  intros (HM & HN & Hkx & Hkz & Hh0 & Hht) Hi Hj.
  pose proof (half_width_pos _ HN).
  unfold htilda_at.
  destruct (array_get_is_Some (_kx o) i) as [kxi ->]; [lia|].
  destruct (array_get_is_Some (_kz o) j) as [kzj ->]; [lia|].
  destruct (array_get_is_Some (_h0 o) (i * _N o + j)) as [h0k ->]; [nia|].
  cbn. eauto.
Qed.

(** The row task writes the row [i] of the half spectrum. *)
Lemma advance_row_total osd o0 htilda i :
  sim_ready o0 -> 0 <= i < _M o0 ->
  Z.of_nat (length htilda) = half_spectrum_size (_M o0) (_N o0) ->
  htilda_filled osd o0 htilda (i * (_N o0 / 2 + 1)) ->
  exists htilda',
    advance_row osd i (set_htilda htilda o0) = Some htilda' /\
    length htilda' = length htilda /\
    htilda_filled osd o0 htilda' ((i + 1) * (_N o0 / 2 + 1)).
Proof.
  intros Hready Hi Hlen Hfill.
  pose proof Hready as (HM & HN & _).
  pose proof (half_width_pos _ HN) as HW.
  set (W := _N o0 / 2 + 1) in *.
  unfold advance_row. cbn [_N set_htilda with_arrays]. fold W.
  destruct (for_range_total
    (fun j ht => length ht = length htilda /\ htilda_filled osd o0 ht (i * W + j))
    (fun j ht =>
       h ← htilda_at osd (set_htilda htilda o0) i j;
       array_set ht (i * W + j) h)
    0 W htilda) as (ht' & Hrun & Hl & Hf).
  - lia.
  - split; [done|]. by replace (i * W + 0) with (i * W) by lia.
  - intros j ht Hj [Hl Hf].
    change (htilda_at osd (set_htilda htilda o0) i j) with (htilda_at osd o0 i j).
    destruct (htilda_at_is_Some osd o0 i j) as [h Hh]; [done | done | done |].
    rewrite Hh. cbn [mbind option_bind].
    assert (Hin : 0 <= i * W + j < Z.of_nat (length ht)).
    { rewrite Hl. unfold half_spectrum_size in Hlen. fold W in Hlen. nia. }
    rewrite array_set_in_range by done.
    eexists. split; [reflexivity|]. split; [by rewrite length_insert|].
    intros k Hk. destruct (decide (k = i * W + j)) as [->|Hne].
    + rewrite array_get_set_eq by done.
      fold W. split; [done|].
      assert ((i * W + j) / W = i) as -> by (symmetry; apply Z.div_unique with j; lia).
      assert ((i * W + j) mod W = j) as -> by (symmetry; apply Z.mod_unique with i; lia).
      done.
    + rewrite array_get_set_ne by lia. apply Hf. lia.
  - exists ht'. split; [exact Hrun|]. split; [done|].
    by replace ((i + 1) * W) with (i * W + W) by lia.
Qed.

(** The first phase, with the row task of the specification, fills the
    half spectrum. *)
Lemma BLI_task_parallel_range_total osd o :
  sim_ready o ->
  exists htilda rows,
    BLI_task_parallel_range (K := spec_kernels) 0 (_M o) osd (o, []) =
      Some (set_htilda htilda o, rows) /\
    Z.of_nat (length htilda) = half_spectrum_size (_M o) (_N o) /\
    htilda_filled osd o htilda (half_spectrum_size (_M o) (_N o)).
Proof.
  intros Hready. pose proof Hready as (HM & HN & _ & _ & _ & Hht).
  set (W := _N o / 2 + 1).
  destruct (for_range_total
    (fun i (st : SimState) =>
       exists ht, fst st = set_htilda ht o /\
         Z.of_nat (length ht) = half_spectrum_size (_M o) (_N o) /\
         htilda_filled osd o ht (i * W))
    (fun i '(o, log) =>
       htilda ← ocean_compute_htilda (OceanKernels := spec_kernels) osd i o;
       Some (set_htilda htilda o, log ++ [Task_htilda i]))
    0 (_M o) (o, [])) as ([o' rows] & Hrun & ht & Ho' & Hl & Hf).
  - done.
  - exists (_htilda o). cbn [fst]. rewrite set_htilda_id.
    split; [done|]. split; [done|]. intros k Hk. lia.
  - intros i [oc log] Hi (ht & Hoc & Hl & Hf). cbn [fst] in Hoc. subst oc.
    cbn [ocean_compute_htilda spec_kernels].
    destruct (advance_row_total osd o ht i Hready Hi Hl Hf) as (ht' & Hrow & Hl' & Hf').
    rewrite Hrow. cbn [mbind option_bind].
    eexists. split; [reflexivity|]. exists ht'. cbn [fst].
    split; [done|]. split; [by rewrite Hl'|]. done.
  - cbn [fst] in Ho'. subst o'. exists ht, rows. split; [exact Hrun|].
    split; [done|]. exact Hf.
Qed.

(** A simulation step ends, with a half spectrum that holds the
    time-evolved amplitude of each wavenumber. *)
Lemma BKE_ocean_simulate_total o t scale chop :
  sim_ready o ->
  exists o' log,
    BKE_ocean_simulate (K := spec_kernels) o t scale chop = Some (o', log) /\
    Z.of_nat (length (_htilda o')) = half_spectrum_size (_M o) (_N o) /\
    htilda_filled {| osd_t := t; osd_scale := scale; osd_chop_amount := chop |}
      o (_htilda o') (half_spectrum_size (_M o) (_N o)).
Proof.
  intros Hready.
  set (osd := {| osd_t := t; osd_scale := scale; osd_chop_amount := chop |}).
  destruct (BLI_task_parallel_range_total osd o Hready) as (ht & rows & Hrows & Hl & Hf).
  destruct (BKE_ocean_simulate (K := spec_kernels) o t scale chop) as [[o' log]|] eqn:Hsim.
  - exists o', log. split; [done|].
    unfold BKE_ocean_simulate in Hsim. fold osd in Hsim. rewrite Hrows in Hsim.
    cbn [mbind option_bind] in Hsim. injection Hsim as Hsim.
    assert (_htilda o' = ht) as ->; [|done].
    revert Hsim. unfold when, ocean_compute_displacement_y,
      ocean_compute_displacement_x, ocean_compute_displacement_z,
      ocean_compute_jacobian_jxx, ocean_compute_jacobian_jzz,
      ocean_compute_jacobian_jxz, ocean_compute_normal_x,
      ocean_compute_normal_z, ocean_compute.
    destruct (truthy (_do_disp_y o)), (truthy (_do_chop o)),
      (truthy (_do_jacobian o)), (truthy (_do_normals o));
      intros [= <- _]; reflexivity.
  - unfold BKE_ocean_simulate in Hsim. fold osd in Hsim. rewrite Hrows in Hsim.
    done.
Qed.

(** C5. For every wavenumber of the half spectrum and every time [t], the
    simulation step ends and leaves in [htilda] the amplitude
    [h0(k) * e^{i omega t} + conj(h0(-k)) * e^{-i omega t}], with [omega]
    the dispersion relation at the wavenumber [(kx[i], kz[j])]. *)
Theorem C5_htilda_is_time_evolved_amplitude
  (o : Ocean) (t scale chop : F32.t) (i j : Z) :
  sim_ready o -> 0 <= i < _M o -> 0 <= j <= _N o / 2 ->
  exists o' log kxi kzj h0k,
    BKE_ocean_simulate (K := spec_kernels) o t scale chop = Some (o', log) /\
    array_get (_kx o) i = Some kxi /\
    array_get (_kz o) j = Some kzj /\
    array_get (_h0 o) (i * _N o + j) = Some h0k /\
    let wt := F32.mul (omega (_params o) kxi kzj) t in
    array_get (_htilda o') (i * (_N o / 2 + 1) + j) =
      Some (cadd (cmul h0k (cexp_i wt))
                 (cmul (cconj (h0_minus_k (_h0 o) (_M o) (_N o) i j))
                       (cexp_i (F32.opp wt)))).
Proof.
  intros Hready Hi Hj.
  destruct (BKE_ocean_simulate_total o t scale chop Hready) as (o' & log & Hsim & Hl & Hf).
  pose proof Hready as (HM & HN & _).
  pose proof (half_width_pos _ HN) as HW.
  set (W := _N o / 2 + 1) in *.
  destruct (Hf (i * W + j)) as [_ Hv]; [unfold half_spectrum_size; fold W; nia|].
  fold W in Hv.
  assert ((i * W + j) / W = i) as Hd by (symmetry; apply Z.div_unique with j; lia).
  assert ((i * W + j) mod W = j) as Hm by (symmetry; apply Z.mod_unique with i; lia).
  rewrite Hd, Hm in Hv.
  destruct (htilda_at_is_Some {| osd_t := t; osd_scale := scale; osd_chop_amount := chop |}
              o i j Hready Hi) as [h Hh]; [fold W; lia|].
  unfold htilda_at in Hv, Hh.
  destruct (array_get (_kx o) i) as [kxi|]; [|done].
  destruct (array_get (_kz o) j) as [kzj|]; [|done].
  destruct (array_get (_h0 o) (i * _N o + j)) as [h0k|]; [|done].
  exists o', log, kxi, kzj, h0k. repeat (split; [done|]). exact Hv.
Qed.

End TimeEvolution.

Lemma C5_htilda_is_time_evolved_amplitude_witness :
  exists o' log kxi kzj h0k,
    BKE_ocean_simulate (K := spec_kernels) (ocean 1 3) F32.one F32.two F32.one
      = Some (o', log) /\
    array_get (_kx (ocean 1 3)) 3 = Some kxi /\
    array_get (_kz (ocean 1 3)) 2 = Some kzj /\
    array_get (_h0 (ocean 1 3)) (3 * _N (ocean 1 3) + 2) = Some h0k /\
    let wt := F32.mul (omega (_params (ocean 1 3)) kxi kzj) F32.one in
    array_get (_htilda o') (3 * (_N (ocean 1 3) / 2 + 1) + 2) =
      Some (cadd (cmul h0k (cexp_i wt))
                 (cmul (cconj (h0_minus_k (_h0 (ocean 1 3)) (_M (ocean 1 3))
                                 (_N (ocean 1 3)) 3 2))
                       (cexp_i (F32.opp wt)))).
Proof.
  apply (C5_htilda_is_time_evolved_amplitude (E := externs) (Mth := math));
    [run | run | run].
Defined.

(** ** Evaluation and baking, as the specification describes them *)

Section Baking.
Context `{E : OceanExterns} `{Mth : OceanMath}.










End Baking.

Section BakeLoops.
Context `{E : OceanExterns} `{Mth : OceanMath}.









End BakeLoops.

Section BakeAndLoad.
Context `{E : OceanExterns} `{Mth : OceanMath}.



End BakeAndLoad.


Section LoadAndEvaluate.
Context `{E : OceanExterns} `{Mth : OceanMath}.






(** Initialization from the modifier always enables the height field. *)
Lemma BKE_ocean_init_from_modifier_height mem o omd r o' :
  BKE_ocean_init_from_modifier mem o omd r = Some o' -> _do_disp_y o' = 1.
Proof.
  unfold BKE_ocean_init_from_modifier. intros Hrun.
  by apply BKE_ocean_init_fields in Hrun as (_ & _ & -> & _).
Qed.

End LoadAndEvaluate.

Section ModifierDispatch.
Context `{E : OceanExterns} `{K : OceanKernels}.



End ModifierDispatch.






(** * More of the code *)

Import DemoModifier.

(** ** Generate mode *)

Section GenerateLoops.
Context `{E : OceanExterns} `{K : OceanKernels}.
Variables (omd : OceanModifierData) (ocean : Ocean) (g : OceanGrid).

Lemma generate_point_total n ocr0 y x st :
  let w := gg_res_x g + 1 in
  0 <= y <= gg_res_y g -> 0 <= x <= gg_res_x g ->
  w * (gg_res_y g + 1) <= INT_MAX ->
  Z.of_nat (length (fst st)) = n -> n = w * (gg_res_y g + 1) ->
  snd st = grid_ocr ocean w ocr0 (Z.to_nat (y * w + x)) ->
  generated omd ocean g w ocr0 (fst st) (y * w + x) ->
  exists st',
    generate_point omd ocean g y x st = Some st' /\
    Z.of_nat (length (fst st')) = n /\
    snd st' = grid_ocr ocean w ocr0 (Z.to_nat (y * w + x + 1)) /\
    generated omd ocean g w ocr0 (fst st') (y * w + x + 1).
Proof.
  intros w Hy Hx Hmax Hlen Hn Hocr Hgen. destruct st as [verts ocr].
  cbn [fst snd] in *.
  assert (Hw : int_add (gg_res_x g) 1 = w).
  { unfold int_add. apply int_wrap_id. unfold INT_MAX in *. subst w. nia. }
  destruct (int_index y x (gg_res_y g + 1) w) as [Hidx Hrange];
    [lia | subst w; lia | lia |].
  assert (Hi : int_add x (int_mul y (int_add (gg_res_x g) 1)) = y * w + x).
  { rewrite Hw. unfold int_add in *. rewrite Z.add_comm. exact Hidx. }
  assert (Hdiv : (y * w + x) / w = y)
    by (symmetry; apply Z.div_unique with x; subst w; lia).
  assert (Hmod : (y * w + x) mod w = x)
    by (symmetry; apply Z.mod_unique with y; subst w; lia).
  unfold generate_point. rewrite Hi, array_set_in_range by lia.
  cbn [mbind option_bind]. eexists. split; [reflexivity|]. cbn [fst snd].
  replace (Z.to_nat (y * w + x + 1)) with (Datatypes.S (Z.to_nat (y * w + x)))
    by lia.
  assert (Hnext : grid_ocr ocean w ocr0 (Datatypes.S (Z.to_nat (y * w + x))) =
                  BKE_ocean_eval_ij ocean ocr x y).
  { cbn [grid_ocr]. rewrite Z2Nat.id, Hdiv, Hmod, Hocr by lia. done. }
  split; [by rewrite length_insert|]. split; [by rewrite Hnext|].
  intros k Hk. destruct (decide (k = y * w + x)) as [->|Hne].
  - rewrite array_get_set_eq by lia. by rewrite Hdiv, Hmod, Hnext.
  - rewrite array_get_set_ne by lia. apply Hgen. lia.
Qed.

Lemma generate_ocean_geometry_total verts ocr :
  let w := gg_res_x g + 1 in
  0 <= gg_res_x g -> 0 <= gg_res_y g ->
  w * (gg_res_y g + 1) <= INT_MAX ->
  Z.of_nat (length verts) = w * (gg_res_y g + 1) ->
  exists verts',
    generate_ocean_geometry omd ocean g verts ocr =
      Some (verts', grid_ocr ocean w ocr (length verts)) /\
    length verts' = length verts /\
    generated omd ocean g w ocr verts' (w * (gg_res_y g + 1)).
Proof.
  intros w Hx Hy Hmax Hlen. unfold generate_ocean_geometry.
  set (n := w * (gg_res_y g + 1)) in *.
  destruct (for_range_total
    (fun y (st : list float3 * OceanResult) =>
       Z.of_nat (length (fst st)) = n /\
       snd st = grid_ocr ocean w ocr (Z.to_nat (y * w)) /\
       generated omd ocean g w ocr (fst st) (y * w))
    (fun y => for_range 0 (gg_res_x g + 1)
                (fun x => generate_point omd ocean g y x))
    0 (gg_res_y g + 1) (verts, ocr)) as ([verts' ocr'] & Hrun & Hl & Ho & Hg).
  - lia.
  - cbn. split; [done|]. split; [done|]. intros k Hk. lia.
  - intros y st Hyr (Hl & Ho & Hg).
    destruct (for_range_total
      (fun x (st : list float3 * OceanResult) =>
         Z.of_nat (length (fst st)) = n /\
         snd st = grid_ocr ocean w ocr (Z.to_nat (y * w + x)) /\
         generated omd ocean g w ocr (fst st) (y * w + x))
      (fun x => generate_point omd ocean g y x)
      0 (gg_res_x g + 1) st) as (st' & Hrow & Hl' & Ho' & Hg').
    + lia.
    + by rewrite Z.add_0_r.
    + intros x s Hxr (Hl' & Ho' & Hg').
      replace (y * w + (x + 1)) with (y * w + x + 1) by lia.
      apply generate_point_total; try done; lia.
    + exists st'. split; [done|].
      by replace ((y + 1) * w) with (y * w + (gg_res_x g + 1)) by (subst w; lia).
  - cbn [fst snd] in *. exists verts'. rewrite Hrun.
    replace ((gg_res_y g + 1) * w) with n in * by (subst n; lia).
    split; [|split; [lia | done]].
    rewrite Ho. f_equal. f_equal. f_equal. lia.
Qed.

End GenerateLoops.

(** X1. Generate mode sets every vertex of the grid and ends: the vertex
    [x + y * (res_x + 1)] gets the height [oy + ocr.disp[1]], with [ocr] the
    evaluation of the grid point [(x, y)] and no factor [omd->scale]; its
    horizontal coordinates are [ox + x * sx] and [oz + y * sy], to which the
    horizontal displacements are added when [omd->chop_amount > 0], and only
    then. *)
Theorem generate_mode_vertex_positions `{E : OceanExterns} `{K : OceanKernels}
  (omd : OceanModifierData) (ocean : Ocean) (g : OceanGrid)
  (verts : list float3) (ocr : OceanResult) :
  0 <= gg_res_x g -> 0 <= gg_res_y g ->
  (gg_res_x g + 1) * (gg_res_y g + 1) <= INT_MAX ->
  Z.of_nat (length verts) = (gg_res_x g + 1) * (gg_res_y g + 1) ->
  exists verts' ocr',
    generate_ocean_geometry omd ocean g verts ocr = Some (verts', ocr') /\
    length verts' = length verts /\
    forall x y, 0 <= x <= gg_res_x g -> 0 <= y <= gg_res_y g ->
      exists co r,
        array_get verts' (x + y * (gg_res_x g + 1)) = Some co /\
        r = BKE_ocean_eval_ij ocean
              (grid_ocr ocean (gg_res_x g + 1) ocr
                 (Z.to_nat (x + y * (gg_res_x g + 1)))) x y /\
        f3_1 co = F32.add (gg_oy g) (f3_1 (disp r)) /\
        (F32.gtb (chop_amount omd) F32.zero = true ->
         f3_0 co = F32.add (F32.add (gg_ox g) (F32.mul (F32.of_int x) (gg_sx g)))
                     (f3_0 (disp r)) /\
         f3_2 co = F32.add (F32.add (gg_oz g) (F32.mul (F32.of_int y) (gg_sy g)))
                     (f3_2 (disp r))) /\
        (F32.gtb (chop_amount omd) F32.zero = false ->
         f3_0 co = F32.add (gg_ox g) (F32.mul (F32.of_int x) (gg_sx g)) /\
         f3_2 co = F32.add (gg_oz g) (F32.mul (F32.of_int y) (gg_sy g))).
Proof.
  intros Hx Hy Hmax Hlen.
  destruct (generate_ocean_geometry_total omd ocean g verts ocr Hx Hy Hmax Hlen)
    as (verts' & Hrun & Hl & Hgen).
  eexists verts', _. split; [exact Hrun|]. split; [exact Hl|].
  intros x y Hxr Hyr. set (w := gg_res_x g + 1) in *.
  assert (Hdiv : (x + y * w) / w = y)
    by (symmetry; apply Z.div_unique with x; subst w; lia).
  assert (Hmod : (x + y * w) mod w = x)
    by (symmetry; apply Z.mod_unique with y; subst w; lia).
  specialize (Hgen (x + y * w)). rewrite Hdiv, Hmod in Hgen.
  eexists _, _. split; [apply Hgen; subst w; nia|].
  split; [reflexivity|].
  cbn [grid_ocr]. rewrite Z2Nat.id, Hdiv, Hmod by (subst w; nia).
  unfold generate_vertex.
  destruct (F32.gtb (chop_amount omd) F32.zero); cbn; repeat split; congruence.
Qed.

Lemma generate_mode_vertex_positions_witness :
  exists verts' ocr',
    generate_ocean_geometry (K := spec_kernels) (omd 0 0) (simulated 0 0) grid
      (replicate 6 (f3 0 0 0)) ocr0 = Some (verts', ocr') /\
    exists co,
      array_get verts' 5 = Some co /\
      f3_0 co = F32.of_int 14 /\ f3_2 co = F32.of_int 33.
Proof.
  destruct (generate_mode_vertex_positions (K := spec_kernels) (omd 0 0)
              (simulated 0 0) grid (replicate 6 (f3 0 0 0)) ocr0)
    as (verts' & ocr' & Hrun & _ & Hv);
    [vm_compute; congruence | vm_compute; congruence | vm_compute; congruence
    | reflexivity |].
  exists verts', ocr'. split; [exact Hrun|].
  destruct (Hv 2 1) as (co & r & Hco & _ & _ & _ & Hflat);
    [vm_compute; split; congruence | vm_compute; split; congruence |].
  exists co. split; [exact Hco|]. apply Hflat. reflexivity.
Defined.

(** ** Loops in two parts *)




(** ** Displace mode on a part of the mesh *)

Section DisplacePrefix.
Context `{K : OceanKernels}.
Variables (omd : OceanModifierData) (ocean : Ocean).

Lemma displace_ocean_mesh_prefix_total verts (n : nat) ocr :
  (n <= length verts)%nat ->
  exists verts',
    displace_ocean_mesh omd ocean verts (Z.of_nat n) ocr =
      Some (verts', ocr_after omd ocean (take n verts) ocr) /\
    length verts' = length verts /\
    (forall k, (k < n)%nat -> verts' !! k = displaced omd ocean verts ocr k) /\
    (forall k, (n <= k)%nat -> verts' !! k = verts !! k).
Proof.
  intros Hn.
  destruct (for_range_total
    (fun i (st : list float3 * OceanResult) =>
       length (fst st) = length verts /\
       snd st = ocr_after omd ocean (take (Z.to_nat i) verts) ocr /\
       (forall k, (k < Z.to_nat i)%nat -> fst st !! k = displaced omd ocean verts ocr k) /\
       (forall k, (Z.to_nat i <= k)%nat -> fst st !! k = verts !! k))
    (fun i '(verts, ocr) =>
       co ← array_get verts i;
       let '(co, ocr) := displace_vertex omd ocean co ocr in
       verts ← array_set verts i co;
       Some (verts, ocr))
    0 (Z.of_nat n) (verts, ocr)) as ([verts' ocr'] & Hrun & Hlen & Hocr & Hlo & Hhi).
  - lia.
  - cbn. split; [done|]. split; [done|]. split; [intros k Hk; lia | done].
  - intros i [vs oc] Hi (Hlen & Hocr & Hlo & Hhi). cbn [fst snd] in *.
    destruct (verts !! Z.to_nat i) as [co|] eqn:Hco;
      [|apply lookup_ge_None in Hco; lia].
    rewrite array_get_lookup, Hhi, Hco by lia. cbn [mbind option_bind].
    destruct (displace_vertex omd ocean co oc) as [co' oc'] eqn:Hd.
    rewrite array_set_in_range by lia. cbn [mbind option_bind].
    eexists. split; [reflexivity|]. cbn [fst snd].
    replace (Z.to_nat (i + 1)) with (Datatypes.S (Z.to_nat i)) by lia.
    split; [by rewrite length_insert|]. split; [|split].
    + rewrite (take_S_r _ _ co) by done. rewrite ocr_after_snoc, <- Hocr, Hd. done.
    + intros k Hk. destruct (decide (k = Z.to_nat i)) as [->|Hne].
      * rewrite list_lookup_insert_eq by lia.
        unfold displaced. rewrite Hco, <- Hocr.
        cbn [fmap option_fmap option_map]. by rewrite Hd.
      * rewrite list_lookup_insert_ne by lia. apply Hlo. lia.
    + intros k Hk. rewrite list_lookup_insert_ne by lia. apply Hhi. lia.
  - exists verts'. cbn [fst snd] in *. rewrite Nat2Z.id in Hocr, Hlo, Hhi.
    split; [by rewrite <- Hocr|]. done.
Qed.

End DisplacePrefix.

(** X2. Displace mode over the first [verts_num] vertices of a mesh that has
    at least that many: the loop ends, these vertices are displaced, each
    with the evaluation at its own UV, and the vertices from [verts_num] on
    keep their position. *)
Theorem displace_prefix_only `{K : OceanKernels}
  (omd : OceanModifierData) (ocean : Ocean) (verts : list float3)
  (verts_num : Z) (ocr : OceanResult) :
  0 <= verts_num <= Z.of_nat (length verts) ->
  exists verts' ocr',
    displace_ocean_mesh omd ocean verts verts_num ocr = Some (verts', ocr') /\
    length verts' = length verts /\
    (forall i co, 0 <= i < verts_num -> array_get verts i = Some co ->
       array_get verts' i =
         Some (fst (displace_vertex omd ocean co
                      (ocr_after omd ocean (take (Z.to_nat i) verts) ocr)))) /\
    (forall i, verts_num <= i -> array_get verts' i = array_get verts i).
Proof.
  intros Hn.
  destruct (displace_ocean_mesh_prefix_total omd ocean verts (Z.to_nat verts_num) ocr)
    as (verts' & Hrun & Hlen & Hlo & Hhi); [lia|].
  rewrite Z2Nat.id in Hrun by lia.
  eexists verts', _. split; [exact Hrun|]. split; [exact Hlen|]. split.
  - intros i co Hi Hco. rewrite array_get_lookup in * by lia.
    rewrite Hlo by lia. unfold displaced. by rewrite Hco.
  - intros i Hi. rewrite !array_get_lookup by lia. apply Hhi. lia.
Qed.

Lemma displace_prefix_only_witness :
  exists verts' ocr',
    displace_ocean_mesh (K := spec_kernels) (omd 1 0) (simulated 1 0)
      [f3 1 2 3; f3 4 5 6; f3 7 8 9] 2 ocr0 = Some (verts', ocr') /\
    array_get verts' 2 = Some (f3 7 8 9).
Proof.
  destruct (displace_prefix_only (K := spec_kernels) (omd 1 0) (simulated 1 0)
              [f3 1 2 3; f3 4 5 6; f3 7 8 9] 2 ocr0)
    as (verts' & ocr' & Hrun & _ & _ & Hhi); [vm_compute; split; congruence|].
  exists verts', ocr'. split; [exact Hrun|].
  rewrite Hhi by lia. reflexivity.
Defined.



(** ** [doOcean] *)

(** X4. [doOcean] in displace mode, the flag of generate mode unset. The call
    has no result exactly when the simulation of the modifier has none. When
    it has one, the mesh it returns has the vertices of the mesh it was
    given, each with its horizontal coordinates, and displaced by the
    evaluation of the ocean as the simulation of this call left it: the
    ocean after the live step when the modifier is not cached, the ocean it
    was given, beside the cache after the playback of the frame, when it
    is. *)
Theorem doOcean_displace_mode
  `{E : OceanExterns} `{K : OceanKernels} `{X : ModifierExterns}
  (omd : OceanModifierData) (ocean : Ocean) (oceancache : OceanCache)
  (frame resolution : Z) (mesh : list float3) (ocr : OceanResult) :
  Z.land (flag omd) MOD_OCEAN_GENERATE_GEOMETRY = 0 ->
  (doOcean omd ocean oceancache frame resolution mesh ocr = None <->
   simulate_ocean_modifier omd ocean oceancache frame = None) /\
  forall result ocean' cache',
    doOcean omd ocean oceancache frame resolution mesh ocr =
      Some (result, ocean', cache') ->
    length result = length mesh /\
    (forall k, result !! k = displaced omd ocean' mesh ocr k) /\
    (forall i co, mesh !! i = Some co ->
       exists co', result !! i = Some co' /\
         f3_0 co' = f3_0 co /\ f3_2 co' = f3_2 co) /\
    (cached omd = true ->
       ocean' = ocean /\ cache' = BKE_ocean_simulate_cache oceancache frame) /\
    (cached omd = false ->
       cache' = oceancache /\
       exists log, BKE_ocean_simulate ocean (time omd) (scale omd)
                     (chop_amount omd) = Some (ocean', log)).
Proof.
  intros Hflag. unfold doOcean. rewrite Hflag. cbn [truthy Z.eqb negb].
  destruct (simulate_ocean_modifier omd ocean oceancache frame) as [r|] eqn:Hsim;
    cbn [mbind option_bind]; [|split; [done | intros; done]].
  assert (Hcached : cached omd = true ->
            r = inr (BKE_ocean_simulate_cache oceancache frame)).
  { intros Hc. unfold simulate_ocean_modifier in Hsim. rewrite Hc in Hsim.
    cbn in Hsim. by injection Hsim as <-. }
  assert (Hlive : cached omd = false ->
            exists o' log, r = inl (o', log) /\
              BKE_ocean_simulate ocean (time omd) (scale omd)
                (chop_amount omd) = Some (o', log)).
  { intros Hc. unfold simulate_ocean_modifier in Hsim. rewrite Hc in Hsim.
    cbn [negb] in Hsim.
    destruct (BKE_ocean_simulate ocean (time omd) (scale omd) (chop_amount omd))
      as [[o' log]|]; [|done].
    cbn in Hsim. injection Hsim as <-. eauto. }
  clear Hsim.
  destruct r as [[o1 log1]|och1];
    [destruct (displace_ocean_mesh_total omd o1 mesh ocr)
       as (verts' & Hrun & Hlen & Hv)
    |destruct (displace_ocean_mesh_total omd ocean mesh ocr)
       as (verts' & Hrun & Hlen & Hv)];
    rewrite Hrun; cbn [mbind option_bind];
    (split; [split; intros; done|]);
    intros result ocean' cache' [= <- <- <-];
    (split; [done|]); (split; [done|]);
    (split; [intros i co Hco; rewrite Hv; unfold displaced; rewrite Hco; cbn; eauto|]).
  - split.
    + intros Hc. by specialize (Hcached Hc).
    + intros Hc. destruct (Hlive Hc) as (o' & log & [= <- <-] & Hs). eauto.
  - split.
    + intros Hc. by injection (Hcached Hc) as <-.
    + intros Hc. by destruct (Hlive Hc) as (o' & log & ? & _).
Qed.

Lemma doOcean_displace_mode_witness :
  exists result ocean' cache',
    doOcean (K := spec_kernels) (omd 1 3) (ocean 1 3) (cache 1 5) 1 2
      [f3 1 2 3; f3 4 5 6] ocr0 = Some (result, ocean', cache') /\
    length result = 2%nat /\ cache' = cache 1 5.
Proof.
  destruct (doOcean (K := spec_kernels) (omd 1 3) (ocean 1 3) (cache 1 5) 1 2
              [f3 1 2 3; f3 4 5 6] ocr0) as [[[result ocean'] cache']|] eqn:Hrun;
    [|vm_compute in Hrun; discriminate].
  destruct (doOcean_displace_mode (K := spec_kernels) (omd 1 3) (ocean 1 3)
              (cache 1 5) 1 2 [f3 1 2 3; f3 4 5 6] ocr0) as [_ Hres];
    [reflexivity|].
  destruct (Hres result ocean' cache' Hrun) as (Hlen & _ & _ & _ & Hlive).
  exists result, ocean', cache'. split; [reflexivity|]. split; [exact Hlen|].
  apply Hlive. reflexivity.
Defined.

(** ** The order of the tasks of a step *)

Section SimulateOrder.
Context `{E : OceanExterns} `{K : OceanKernels}.

Lemma seqZ_snoc lo (n : Z) : 0 <= n -> seqZ lo (n + 1) = seqZ lo n ++ [lo + n].
Proof.
  intros Hn. rewrite seqZ_app by lia. f_equal.
Qed.

(** The log of the first phase in the schedule of the model: the row task
    once per row. *)
Lemma BLI_task_parallel_range_rows lo hi osd o log0 o1 log :
  BLI_task_parallel_range lo hi osd (o, log0) = Some (o1, log) ->
  log = log0 ++ (Task_htilda <$> seqZ lo (hi - lo)).
Proof.
  intros Hrun. unfold BLI_task_parallel_range in Hrun.
  destruct (Z.le_gt_cases lo hi) as [Hle|Hgt]; cycle 1.
  { rewrite for_range_empty in Hrun by lia. injection Hrun as <- <-.
    rewrite seqZ_nil by lia. by rewrite app_nil_r. }
  change log with (snd (o1, log)).
  apply (for_range_partial
           (fun i (st : SimState) =>
              snd st = log0 ++ (Task_htilda <$> seqZ lo (i - lo)))
           _ _ _ _ _ Hle Hrun).
  - cbn. rewrite Z.sub_diag. by rewrite app_nil_r.
  - intros i [oc l] st' Hi Hl Hstep. cbn [fst snd] in *.
    destruct (ocean_compute_htilda osd i oc) as [ht|]; [|done].
    cbn in Hstep. injection Hstep as <-. cbn [snd].
    replace (i + 1 - lo) with (i - lo + 1) by lia.
    rewrite seqZ_snoc, fmap_app, Hl, <- app_assoc by lia.
    cbn. by replace (lo + (i - lo)) with i by lia.
Qed.

End SimulateOrder.

(** X5. A simulation step that ends has run the row task of the time
    evolution once for each row of the grid, every row before any transform,
    and then the transforms of the enabled features in the order of the
    source: height; X and Z displacement; Jxx, Jzz, Jxz; the normals X and
    Z. In which order the rows ran is not stated: the parallel loop fixes
    none. *)
Theorem BKE_ocean_simulate_task_order `{E : OceanExterns} `{K : OceanKernels}
  (o : Ocean) (t scale chop : F32.t) (o' : Ocean) (log : list OceanTask) :
  BKE_ocean_simulate o t scale chop = Some (o', log) ->
  exists rows,
    rows ≡ₚ Task_htilda <$> seqZ 0 (_M o) /\
    log = rows ++
          (Task_transform <$>
             List.filter (fun f => truthy (field_flag f o)) transform_order).
Proof.
  intros Hrun. unfold BKE_ocean_simulate in Hrun.
  destruct (BLI_task_parallel_range 0 (_M o) _ (o, [])) as [[o1 rows]|] eqn:Hrows;
    [|done].
  apply BLI_task_parallel_range_rows in Hrows. rewrite Z.sub_0_r in Hrows.
  cbn [app] in Hrows. exists rows. split; [by rewrite Hrows|]. clear Hrows.
  cbn [mbind option_bind] in Hrun. injection Hrun as Hrun.
  unfold when, ocean_compute_displacement_y, ocean_compute_displacement_x,
    ocean_compute_displacement_z, ocean_compute_jacobian_jxx,
    ocean_compute_jacobian_jzz, ocean_compute_jacobian_jxz,
    ocean_compute_normal_x, ocean_compute_normal_z, ocean_compute in Hrun.
  unfold transform_order. cbn [List.filter field_flag].
  destruct (truthy (_do_disp_y o)), (truthy (_do_chop o)),
    (truthy (_do_jacobian o)), (truthy (_do_normals o));
    cbn in Hrun; injection Hrun as _ <-;
    cbn [fmap list_fmap]; rewrite <- ?app_assoc, ?app_nil_r; reflexivity.
Qed.

Lemma BKE_ocean_simulate_task_order_witness :
  exists o' log rows,
    BKE_ocean_simulate (K := spec_kernels) (ocean 1 0) F32.one F32.two F32.one
      = Some (o', log) /\
    rows ≡ₚ [Task_htilda 0; Task_htilda 1; Task_htilda 2; Task_htilda 3] /\
    log = rows ++
          [Task_transform DispY; Task_transform DispX; Task_transform DispZ].
Proof.
  destruct (BKE_ocean_simulate (K := spec_kernels) (ocean 1 0) F32.one F32.two
              F32.one) as [[o' log]|] eqn:Hsim;
    [|vm_compute in Hsim; discriminate].
  destruct (BKE_ocean_simulate_task_order (K := spec_kernels) _ _ _ _ _ _ Hsim)
    as (rows & Hrows & Hlog).
  exists o', log, rows. split; [reflexivity|]. split; [exact Hrows | exact Hlog].
Defined.

(** ** The feature flags of an ocean made from the modifier *)

Lemma truthy_short_wrap z :
  0 <= z < 2 ^ 16 -> truthy (short_wrap z) = truthy z.
Proof.
  intros Hz. unfold truthy, short_wrap. f_equal.
  destruct (Z.eqb_spec z 0) as [->|Hne]; [reflexivity|].
  apply Z.eqb_neq.
  destruct (Z.lt_ge_cases z (2 ^ 15)) as [Hlo|Hhi].
  - rewrite Z.mod_small by lia. lia.
  - replace (z + 2 ^ 15) with (z - 2 ^ 15 + 1 * 2 ^ 16) by lia.
    rewrite Z.mod_add by lia. rewrite Z.mod_small by lia. lia.
Qed.

Lemma land_mask_range x m : 0 <= m < 2 ^ 16 -> 0 <= Z.land x m < 2 ^ 16.
Proof.
  intros Hm. split; [apply Z.land_nonneg; lia|].
  destruct (Z.eq_dec (Z.land x m) 0) as [->|Hne]; [lia|].
  assert (0 < Z.land x m) by (pose proof (Z.land_nonneg x m); lia).
  apply Z.log2_lt_pow2; [done|].
  destruct (Z.eq_dec m 0) as [->|Hm0]; [rewrite Z.land_0_r in Hne; done|].
  assert (Z.log2 m < 16) by (apply Z.log2_lt_pow2; lia).
  destruct (Z.lt_ge_cases (Z.log2 (Z.land x m)) 16) as [|Hge]; [done|].
  exfalso.
  pose proof (Z.bit_log2 (Z.land x m) ltac:(lia)) as Hbit.
  rewrite Z.land_spec in Hbit. apply andb_true_iff in Hbit as [_ Hbit].
  rewrite Z.bits_above_log2 in Hbit by lia. done.
Qed.

(** X7. An ocean made from the modifier has the height field enabled,
    whatever the modifier holds: every simulation step of it that ends runs
    the height transform and stores its result. *)
Theorem modifier_ocean_always_computes_height
  `{E : OceanExterns} `{K : OceanKernels}
  (mem : OceanArrays) (o : Ocean) (omd : OceanModifierData) (r : Z)
  (o1 : Ocean) (t scale chop : F32.t) (o2 : Ocean) (log : list OceanTask) :
  BKE_ocean_init_from_modifier mem o omd r = Some o1 ->
  BKE_ocean_simulate o1 t scale chop = Some (o2, log) ->
  let osd := {| osd_t := t; osd_scale := scale; osd_chop_amount := chop |} in
  _do_disp_y o1 = 1 /\
  In (Task_transform DispY) log /\
  get_field DispY o2 =
    ocean_transform DispY (transform_input osd (set_htilda (_htilda o2) o1)).
Proof.
  intros Hinit Hsim osd. unfold BKE_ocean_init_from_modifier in Hinit.
  apply BKE_ocean_init_fields in Hinit as (_ & _ & Hy & _).
  destruct (BKE_ocean_simulate_inv _ _ _ _ _ _ Hsim) as (_ & _ & Hf & Hlog).
  specialize (Hf DispY). specialize (Hlog DispY).
  cbn [field_flag] in Hf, Hlog. rewrite Hy in Hf, Hlog.
  split; [done|]. split; [by apply Hlog|]. exact Hf.
Qed.

Lemma modifier_ocean_always_computes_height_witness :
  exists o2 log,
    BKE_ocean_simulate (K := spec_kernels) (ocean 0 0) F32.one F32.two F32.one
      = Some (o2, log) /\
    In (Task_transform DispY) log.
Proof.
  destruct (BKE_ocean_simulate (K := spec_kernels) (ocean 0 0) F32.one F32.two
              F32.one) as [[o2 log]|] eqn:Hsim;
    [|vm_compute in Hsim; discriminate].
  exists o2, log. split; [reflexivity|].
  destruct (modifier_ocean_always_computes_height (E := externs)
              (K := spec_kernels) (blocks 16 12) BKE_ocean_add (omd 0 0) 2
              (ocean 0 0) F32.one F32.two F32.one o2 log)
    as (_ & Hin & _); [vm_compute; reflexivity | exact Hsim | exact Hin].
Defined.

(** X8. With flag bits that fit the [short] they are stored in, an ocean
    made from the modifier has foam enabled exactly when the modifier's flag
    has the foam bit, and normals exactly when it has the normals bit: a
    simulation step of it that ends runs the three Jacobian transforms in
    the first case and not otherwise, and the two normal transforms in the
    second case and not otherwise. *)
Theorem modifier_flags_enable_foam_and_normals
  `{E : OceanExterns} `{K : OceanKernels}
  (mem : OceanArrays) (o : Ocean) (omd : OceanModifierData) (r : Z)
  (o1 : Ocean) (t scale chop : F32.t) (o2 : Ocean) (log : list OceanTask) :
  0 <= MOD_OCEAN_GENERATE_FOAM < 2 ^ 16 ->
  0 <= MOD_OCEAN_GENERATE_NORMALS < 2 ^ 16 ->
  BKE_ocean_init_from_modifier mem o omd r = Some o1 ->
  BKE_ocean_simulate o1 t scale chop = Some (o2, log) ->
  let foam := truthy (Z.land (flag omd) MOD_OCEAN_GENERATE_FOAM) in
  let normals := truthy (Z.land (flag omd) MOD_OCEAN_GENERATE_NORMALS) in
  truthy (_do_jacobian o1) = foam /\
  truthy (_do_normals o1) = normals /\
  (forall f, In f [Jxx; Jzz; Jxz] ->
     (In (Task_transform f) log <-> foam = true)) /\
  (forall f, In f [NormalX; NormalZ] ->
     (In (Task_transform f) log <-> normals = true)).
Proof.
  intros Hfoam Hnormals Hinit Hsim foam normals.
  unfold BKE_ocean_init_from_modifier in Hinit.
  apply BKE_ocean_init_fields in Hinit as (_ & _ & _ & _ & Hn & Hj & _).
  assert (Hj' : truthy (_do_jacobian o1) = foam).
  { rewrite Hj. apply truthy_short_wrap. by apply land_mask_range. }
  assert (Hn' : truthy (_do_normals o1) = normals).
  { rewrite Hn. apply truthy_short_wrap. by apply land_mask_range. }
  destruct (BKE_ocean_simulate_inv _ _ _ _ _ _ Hsim) as (_ & _ & _ & Hlog).
  split; [done|]. split; [done|]. split.
  - intros f Hin. rewrite Hlog, <- Hj'.
    cbn in Hin. destruct Hin as [<-|[<-|[<-|[]]]]; reflexivity.
  - intros f Hin. rewrite Hlog, <- Hn'.
    cbn in Hin. destruct Hin as [<-|[<-|[]]]; reflexivity.
Qed.

Lemma modifier_flags_enable_foam_and_normals_witness :
  exists o2 log,
    BKE_ocean_simulate (K := spec_kernels) (ocean 1 1) F32.one F32.two F32.one
      = Some (o2, log) /\
    In (Task_transform Jxz) log /\ ~ In (Task_transform NormalX) log.
Proof.
  destruct (BKE_ocean_simulate (K := spec_kernels) (ocean 1 1) F32.one F32.two
              F32.one) as [[o2 log]|] eqn:Hsim;
    [|vm_compute in Hsim; discriminate].
  exists o2, log. split; [reflexivity|].
  destruct (modifier_flags_enable_foam_and_normals (E := externs)
              (K := spec_kernels) (blocks 16 12) BKE_ocean_add (omd 1 1) 2
              (ocean 1 1) F32.one F32.two F32.one o2 log)
    as (_ & _ & Hj & Hn);
    [vm_compute; split; congruence | vm_compute; split; congruence
    | vm_compute; reflexivity | exact Hsim |].
  split.
  - apply (Hj Jxz); [cbn; tauto | reflexivity].
  - intros Hin. apply (Hn NormalX) in Hin; [discriminate | cbn; tauto].
Defined.


(** ** The files of a bake *)

Section BakeFrames.
Context `{E : OceanExterns} `{K : OceanKernels}.



End BakeFrames.



(** ** The synthesis of an empty grid *)

Section EmptyGrid.
Context `{E : OceanExterns}.
Variables (mem : OceanArrays) (o : Ocean) (M N : Z).
Variables (Lx Lz V l A w damp alignment depth time : F32.t).
Variables (spectrum : Z) (fetch_jonswap sharpen_peak_jonswap : F32.t).
Variables (do_height_field do_chop do_spray do_normals do_jacobian : Z).
Variable (seed : Z).

(** X10. On a grid with no row or no column, [M <= 0] or [N <= 0], the
    synthesis loop ends whatever the ocean holds: it leaves the generator in
    the state it was started in, so it has made no draw, and the block of
    [_h0] as it was, and it reads no wavenumber. [BKE_ocean_init] then ends
    whatever the allocator handed in, with every array of the ocean as it
    got it. *)
Theorem BKE_ocean_init_empty_grid :
  M <= 0 \/ N <= 0 ->
  (forall (o1 : Ocean) (rng : RNG),
     _M o1 = M -> _N o1 = N ->
     ocean_init_h0 o1 rng = Some (_h0 o1, rng)) /\
  exists o',
    BKE_ocean_init mem o M N Lx Lz V l A w damp alignment depth time spectrum
      fetch_jonswap sharpen_peak_jonswap do_height_field do_chop do_spray
      do_normals do_jacobian seed = Some o' /\
    _arrays o' = mem /\ _M o' = M /\ _N o' = N.
Proof.
  intros Hempty.
  assert (Hloop : forall (o1 : Ocean) (rng : RNG),
            _M o1 = M -> _N o1 = N ->
            ocean_init_h0 o1 rng = Some (_h0 o1, rng)).
  { intros o1 rng HM HN. unfold ocean_init_h0. rewrite HM, HN.
    destruct (Z.le_gt_cases M 0) as [HM0|HM0]; [by apply for_range_empty|].
    destruct (for_range_total
      (fun _ st => st = (_h0 o1, rng))
      (fun i => for_range 0 N (fun j => ocean_init_h0_at o1 i j))
      0 M (_h0 o1, rng)) as (st & Hrun & ->); [lia | done | | done].
    intros i st _ ->. eexists. split; [|reflexivity].
    apply for_range_empty. lia. }
  split; [exact Hloop|]. unfold BKE_ocean_init.
  match goal with |- context [ocean_init_h0 ?x _] => set (o1 := x) end.
  rewrite (Hloop o1 (BLI_rng_new seed) eq_refl eq_refl).
  cbn [mbind option_bind]. eexists. split; [reflexivity|].
  split; [by destruct mem | done].
Qed.

End EmptyGrid.

Lemma BKE_ocean_init_empty_grid_witness :
  exists o',
    BKE_ocean_init (blocks 3 0) BKE_ocean_add 4 0
      (F32.of_int 50) (F32.of_int 50) (F32.of_int 30)
      (S754_finite false 10737418 (-30)) F32.one (F32.of_int 0)
      (F32.of_int 0) (F32.of_int 0) (F32.of_int 200) (F32.of_int 1)
      0 (F32.of_int 120000) (F32.of_int 0) 1 1 0 0 0 42 = Some o' /\
    _arrays o' = blocks 3 0 /\
    ocean_init_h0 o' (BLI_rng_new 42) = Some (_h0 o', BLI_rng_new 42).
Proof.
  destruct (BKE_ocean_init_empty_grid (blocks 3 0) BKE_ocean_add 4 0
      (F32.of_int 50) (F32.of_int 50) (F32.of_int 30)
      (S754_finite false 10737418 (-30)) F32.one (F32.of_int 0)
      (F32.of_int 0) (F32.of_int 0) (F32.of_int 200) (F32.of_int 1)
      0 (F32.of_int 120000) (F32.of_int 0) 1 1 0 0 0 42)
    as (Hloop & o' & Hrun & Ha & HM & HN); [right; lia|].
  exists o'. split; [exact Hrun|]. split; [exact Ha|].
  by apply Hloop.
Defined.

(** ** The walk over ID pointers *)

Section WalkProofs.
Import LibQuery.
Context `{W : WalkFlags} {U : Type}.
Implicit Types (data : LibraryForeachIDData U) (heap : Heap U).

Lemma truthy_true z : truthy z = true <-> z <> 0.
Proof. unfold truthy. destruct (Z.eqb_spec z 0); cbn; split; (done || lia). Qed.

Lemma truthy_false z : truthy z = false <-> z = 0.
Proof. unfold truthy. destruct (Z.eqb_spec z 0); cbn; split; (done || lia). Qed.

(** A stopped walk processes nothing. *)
Lemma process_stopped data id_pp f heap :
  BKE_lib_query_foreachid_iter_stop data = true ->
  BKE_lib_query_foreachid_process data id_pp f heap = Some (data, heap).
Proof. intros H. unfold BKE_lib_query_foreachid_process. by rewrite H. Qed.

Lemma with_status_stop data :
  BKE_lib_query_foreachid_iter_stop
    (with_status data (Z.lor (status data) IDWALK_STOP)) = true.
Proof.
  unfold BKE_lib_query_foreachid_iter_stop. cbn [status with_status].
  apply truthy_true. rewrite Z.land_lor_distr_l, Z.land_diag.
  intros H. apply Z.lor_eq_0_iff in H as [_ H]. done.
Qed.

(** What one call leaves of the data, for a walk that is not stopped: the
    callback ran once, on the flags of [callback_flags]; the walk is stopped
    after it exactly when the callback asked for it. *)
Lemma process_running data id_pp f heap data' heap' :
  BKE_lib_query_foreachid_iter_stop data = false ->
  BKE_lib_query_foreachid_process data id_pp f heap = Some (data', heap') ->
  exists old_id ret data1,
    h_pointers heap !! id_pp = Some old_id /\
    callback data
      {| cbd_bmain := bmain data; cbd_owner_id := owner_id data;
         cbd_self_id := self_id data; cbd_id_pointer := id_pp;
         cbd_cb_flag := callback_flags data f |} heap = Some (ret, heap') /\
    data' = (if truthy (Z.land ret IDWALK_RET_STOP_ITER)
             then with_status data1 (Z.lor (status data1) IDWALK_STOP)
             else data1) /\
    status data1 = status data /\
    BKE_lib_query_foreachid_iter_stop data' =
      truthy (Z.land ret IDWALK_RET_STOP_ITER) /\
    (data1 = data \/
     exists p handled,
       old_id = Some p /\ truthy (Z.land (flag data) IDWALK_RECURSE) = true /\
       ids_handled data = Some handled /\ (p ∉ handled) /\
       data1 = with_recursion data ({[p]} ∪ handled)
                 (if truthy (Z.land ret IDWALK_RET_STOP_RECURSION)
                  then ids_todo data else p :: ids_todo data)).
Proof.
  intros Hrun Hp. unfold BKE_lib_query_foreachid_process in Hp.
  rewrite Hrun in Hp.
  destruct (h_pointers heap !! id_pp) as [old_id|]; [|done].
  cbn [mbind option_bind] in Hp.
  destruct (callback data _ heap) as [[ret h1]|] eqn:Hcb; [|done].
  cbn [mbind option_bind] in Hp.
  match type of Hp with
  | mbind _ ?m = _ => destruct m as [data1|] eqn:Hd; [|done]
  end.
  cbn [mbind option_bind] in Hp. injection Hp as <- <-.
  assert (Hcases : data1 = data \/
     exists p handled,
       old_id = Some p /\ truthy (Z.land (flag data) IDWALK_RECURSE) = true /\
       ids_handled data = Some handled /\ (p ∉ handled) /\
       data1 = with_recursion data ({[p]} ∪ handled)
                 (if truthy (Z.land ret IDWALK_RET_STOP_RECURSION)
                  then ids_todo data else p :: ids_todo data)).
  { destruct old_id as [p|]; [|left; congruence].
    destruct (truthy (Z.land (flag data) IDWALK_RECURSE)) eqn:Hrec;
      [|left; congruence].
    destruct (ids_handled data) as [handled|] eqn:Hh; [|done].
    cbn [mbind option_bind] in Hd.
    destruct (decide (p ∈ handled)); [left; congruence|].
    right. exists p, handled. injection Hd as <-. done. }
  assert (Hst : status data1 = status data).
  { destruct Hcases as [->|(p & h & _ & _ & _ & _ & ->)]; done. }
  exists old_id, ret, data1. split; [done|]. split; [done|]. split; [done|].
  split; [done|]. split; [|done].
  destruct (truthy (Z.land ret IDWALK_RET_STOP_ITER)); [apply with_status_stop|].
  unfold BKE_lib_query_foreachid_iter_stop in *. by rewrite Hst.
Qed.

(** X11. The flags a callback gets. A flag the caller or the data gives and
    the data does not forbid is passed on; a flag the data forbids is never
    passed on, save the not-overridable marker; and the marker is set
    whenever one of the internal, loop-back and override-reference flags is
    passed on. *)
Theorem callback_flags_forbidden_and_marker data (f : Z) :
  (forall n, 0 <= n -> Z.testbit (cb_flag_clear data) n = false ->
     Z.testbit f n || Z.testbit (cb_flag data) n = true ->
     Z.testbit (callback_flags data f) n = true) /\
  (forall n, 0 <= n -> Z.testbit (cb_flag_clear data) n = true ->
     Z.testbit IDWALK_CB_OVERRIDE_LIBRARY_NOT_OVERRIDABLE n = false ->
     Z.testbit (callback_flags data f) n = false) /\
  (Z.land (callback_flags data f)
     (Z.lor (Z.lor IDWALK_CB_INTERNAL IDWALK_CB_LOOPBACK)
        IDWALK_CB_OVERRIDE_LIBRARY_REFERENCE) <> 0 ->
   Z.land (callback_flags data f) IDWALK_CB_OVERRIDE_LIBRARY_NOT_OVERRIDABLE =
     IDWALK_CB_OVERRIDE_LIBRARY_NOT_OVERRIDABLE).
Proof.
  unfold callback_flags.
  set (g := Z.land (Z.lor f (cb_flag data)) (Z.lnot (cb_flag_clear data))).
  set (mask := Z.lor (Z.lor IDWALK_CB_INTERNAL IDWALK_CB_LOOPBACK)
                 IDWALK_CB_OVERRIDE_LIBRARY_REFERENCE).
  assert (Hg : forall n, 0 <= n ->
            Z.testbit g n = (Z.testbit f n || Z.testbit (cb_flag data) n) &&
                            negb (Z.testbit (cb_flag_clear data) n)).
  { intros n Hn. subst g. by rewrite Z.land_spec, Z.lor_spec, Z.lnot_spec. }
  split; [|split].
  - intros n Hn Hc Hf.
    destruct (truthy (Z.land g mask)); rewrite ?Z.lor_spec, Hg, Hc, Hf by done;
      reflexivity.
  - intros n Hn Hc Hm.
    destruct (truthy (Z.land g mask)); rewrite ?Z.lor_spec, Hg, Hc, ?Hm by done;
      cbn; by rewrite andb_false_r.
  - destruct (truthy (Z.land g mask)) eqn:Ht.
    + intros _. rewrite Z.land_lor_distr_l, Z.land_diag.
      apply Z.bits_inj'. intros n Hn. rewrite Z.lor_spec, Z.land_spec.
      by destruct (Z.testbit g n), (Z.testbit _ n).
    + apply truthy_false in Ht. done.
Qed.

Lemma foreach_to_ids_app data l1 l2 heap :
  foreach_to_ids data (l1 ++ l2) heap =
  match foreach_to_ids data l1 heap with
  | Some (d, h, true) => foreach_to_ids d l2 h
  | r => r
  end.
Proof.
  revert data heap. induction l1 as [|[to uf] l1 IH]; intros data heap; [done|].
  cbn [app foreach_to_ids].
  destruct (BKE_lib_query_foreachid_process data to uf heap) as [[d h]|]; [|done].
  cbn [mbind option_bind].
  destruct (BKE_lib_query_foreachid_iter_stop d); [done|]. apply IH.
Qed.

Lemma foreach_to_ids_result data l heap d' h' ok :
  foreach_to_ids data l heap = Some (d', h', ok) ->
  BKE_lib_query_foreachid_iter_stop data = false ->
  ok = negb (BKE_lib_query_foreachid_iter_stop d').
Proof.
  revert data heap. induction l as [|[to uf] l IH]; intros data heap Hrun Hgo.
  - cbn in Hrun. injection Hrun as <- <- <-. by rewrite Hgo.
  - cbn [foreach_to_ids] in Hrun.
    destruct (BKE_lib_query_foreachid_process data to uf heap) as [[d h]|]; [|done].
    cbn [mbind option_bind] in Hrun.
    destruct (BKE_lib_query_foreachid_iter_stop d) eqn:Hs.
    + injection Hrun as <- <- <-. by rewrite Hs.
    + by apply (IH d h).
Qed.

(** X12. The loop over the entries of the relations cache stops at the first
    pointer after which the walk is stopped: it returns [false] there, with
    the memory as the callback left it at that pointer, whatever entries
    follow; and after a walk that was running it returns [true] exactly when
    the walk is still running. *)
Theorem foreach_to_ids_stops_at_first_stop
  data (l1 : list (positive * Z)) (e : positive * Z) (l2 : list (positive * Z))
  heap d1 h1 d2 h2 :
  foreach_to_ids data l1 heap = Some (d1, h1, true) ->
  BKE_lib_query_foreachid_process d1 (fst e) (snd e) h1 = Some (d2, h2) ->
  BKE_lib_query_foreachid_iter_stop d2 = true ->
  foreach_to_ids data (l1 ++ e :: l2) heap = Some (d2, h2, false) /\
  forall l d' h' ok,
    foreach_to_ids d1 l h1 = Some (d', h', ok) ->
    BKE_lib_query_foreachid_iter_stop d1 = false ->
    ok = negb (BKE_lib_query_foreachid_iter_stop d').
Proof.
  intros H1 Hp Hs. split.
  - rewrite foreach_to_ids_app, H1. destruct e as [to uf].
    cbn [foreach_to_ids fst snd] in *. rewrite Hp. cbn [mbind option_bind].
    by rewrite Hs.
  - intros l d' h' ok. apply foreach_to_ids_result.
Qed.

(** One call keeps the recursion data in order. *)
Lemma process_recursion_ok data id_pp f heap data' heap' handled :
  recursion_ok data -> ids_handled data = Some handled ->
  BKE_lib_query_foreachid_process data id_pp f heap = Some (data', heap') ->
  recursion_ok data' /\
  exists handled',
    ids_handled data' = Some handled' /\ handled ⊆ handled' /\
    (exists new, ids_todo data' = new ++ ids_todo data /\
                 forall x, x ∈ new -> (x ∉ handled) /\ x ∈ handled').
Proof.
  intros Hok Hh Hp.
  assert (Hsame : recursion_ok data /\
            exists handled', ids_handled data = Some handled' /\
              handled ⊆ handled' /\
              (exists new, ids_todo data = new ++ ids_todo data /\
                 forall x, x ∈ new -> (x ∉ handled) /\ x ∈ handled')).
  { split; [done|]. exists handled. split; [done|]. split; [done|].
    exists []. split; [done|]. intros x Hx. by apply elem_of_nil in Hx. }
  destruct (BKE_lib_query_foreachid_iter_stop data) eqn:Hs.
  { rewrite process_stopped in Hp by done. by injection Hp as <- <-. }
  destruct (process_running _ _ _ _ _ _ Hs Hp)
    as (old_id & ret & data1 & _ & _ & -> & _ & _ & Hcases).
  assert (H1 : recursion_ok data1 /\
            exists handled', ids_handled data1 = Some handled' /\
              handled ⊆ handled' /\
              (exists new, ids_todo data1 = new ++ ids_todo data /\
                 forall x, x ∈ new -> (x ∉ handled) /\ x ∈ handled')).
  { destruct Hcases as [->|(p & h & _ & _ & Hh' & Hnew & ->)]; [done|].
    rewrite Hh in Hh'. injection Hh' as <-.
    destruct Hok as (h0 & Hh0 & Hnd & Hsub). rewrite Hh in Hh0.
    injection Hh0 as <-.
    cbn [with_recursion ids_handled ids_todo].
    destruct (truthy (Z.land ret IDWALK_RET_STOP_RECURSION)).
    - split.
      + exists ({[p]} ∪ handled). split; [done|]. split; [done|].
        intros x Hx. apply elem_of_union_r. by apply Hsub.
      + exists ({[p]} ∪ handled). split; [done|].
        split; [apply union_subseteq_r|].
        exists []. split; [done|]. intros x Hx. by apply elem_of_nil in Hx.
    - split.
      + exists ({[p]} ∪ handled). split; [done|]. split.
        * apply NoDup_cons. split; [|done]. intros Hin. apply Hnew. by apply Hsub.
        * intros x Hx. apply elem_of_cons in Hx as [->|Hx];
            [by apply elem_of_union_l, elem_of_singleton|].
          apply elem_of_union_r. by apply Hsub.
      + exists ({[p]} ∪ handled). split; [done|].
        split; [apply union_subseteq_r|].
        exists [p]. split; [done|]. intros x Hx.
        apply list_elem_of_singleton in Hx as ->.
        split; [done | by apply elem_of_union_l, elem_of_singleton]. }
  destruct (truthy (Z.land ret IDWALK_RET_STOP_ITER)); [|done].
  destruct H1 as (Hok1 & H1). split; [|exact H1].
  destruct Hok1 as (h1 & ? & ? & ?). by exists h1.
Qed.

(** X13. The recursion data stays in order along the loop over the entries:
    the stack [ids_todo] holds distinct IDs that are all in [ids_handled];
    the set [ids_handled] only grows; and the IDs pushed on the stack are
    IDs that were not handled before, so an ID that was handled is never
    queued again. *)
Theorem walk_keeps_recursion_in_order
  data (to_ids : list (positive * Z)) heap data' heap' (ok : bool)
  (handled : gset ID) :
  recursion_ok data -> ids_handled data = Some handled ->
  foreach_to_ids data to_ids heap = Some (data', heap', ok) ->
  recursion_ok data' /\
  exists handled' new,
    ids_handled data' = Some handled' /\ handled ⊆ handled' /\
    ids_todo data' = new ++ ids_todo data /\
    forall x, x ∈ new -> (x ∉ handled) /\ x ∈ handled'.
Proof.
  revert data heap handled.
  induction to_ids as [|[to uf] l IH]; intros data heap handled Hok Hh Hrun.
  - cbn in Hrun. injection Hrun as <- <- <-. split; [done|].
    exists handled, []. split; [done|]. split; [done|]. split; [done|].
    intros x Hx. by apply elem_of_nil in Hx.
  - cbn [foreach_to_ids] in Hrun.
    destruct (BKE_lib_query_foreachid_process data to uf heap) as [[d h]|] eqn:Hp;
      [|done].
    cbn [mbind option_bind] in Hrun.
    destruct (process_recursion_ok _ _ _ _ _ _ _ Hok Hh Hp)
      as (Hok1 & h1 & Hh1 & Hsub1 & new1 & Htodo1 & Hnew1).
    destruct (BKE_lib_query_foreachid_iter_stop d).
    + injection Hrun as <- <- <-. split; [done|]. by exists h1, new1.
    + destruct (IH d h h1 Hok1 Hh1 Hrun)
        as (Hok2 & h2 & new2 & Hh2 & Hsub2 & Htodo2 & Hnew2).
      split; [done|]. exists h2, (new2 ++ new1).
      split; [done|]. split; [by transitivity h1|].
      split; [by rewrite Htodo2, Htodo1, app_assoc|].
      intros x Hx. apply elem_of_app in Hx as [Hx|Hx].
      * destruct (Hnew2 x Hx) as [Hn2 Hi2].
        split; [intros Hin; by apply Hn2, Hsub1 | done].
      * destruct (Hnew1 x Hx) as [Hn1 Hi1]. split; [done | by apply Hsub2].
Qed.

(** X14. Overriding the generic callback flags returns the flags that were
    set, and overriding again with what was returned, in replace mode, puts
    the data back as it was; without replace mode the flags that were set
    stay set. *)
Theorem callback_flag_override_round_trip data (f : Z) (do_replace : bool) :
  let r := BKE_lib_query_foreachid_process_callback_flag_override
             data f do_replace in
  snd r = cb_flag data /\
  fst (BKE_lib_query_foreachid_process_callback_flag_override
         (fst r) (snd r) true) = data /\
  forall n,
    Z.testbit (cb_flag data) n = true ->
    Z.testbit (cb_flag (fst (BKE_lib_query_foreachid_process_callback_flag_override
                               data f false))) n = true.
Proof.
  cbn. split; [done|]. split; [by destruct data|].
  intros n Hn. destruct (Z.neg_nonneg_cases n) as [Hneg|Hpos].
  - by rewrite Z.testbit_neg_r in Hn.
  - by rewrite Z.lor_spec, Hn.
Qed.

End WalkProofs.

(** ** The callbacks of the usage queries *)

Section UsersCallback.
Import LibQuery.
Context `{W : WalkFlags}.

Lemma usage_kind_cases (data : LibraryForeachIDData IDUsersIter)
  pointers target e :
  usage_kind data pointers target e = None \/
  usage_kind data pointers target e = Some true \/
  usage_kind data pointers target e = Some false.
Proof. destruct (usage_kind data pointers target e) as [[]|]; tauto. Qed.

(** One call of the users callback: it never stops the walk, leaves the
    pointers and the tags alone, and counts the pointer by its kind. *)
Lemma users_callback_step (data : LibraryForeachIDData IDUsersIter)
  pointers tags flags libs iter to uf :
  callback data = foreach_libblock_id_users_callback ->
  BKE_lib_query_foreachid_iter_stop data = false ->
  Z.land (flag data) IDWALK_RECURSE = 0 ->
  Z.land IDWALK_RET_NOP IDWALK_RET_STOP_ITER = 0 ->
  is_Some (pointers !! to) ->
  BKE_lib_query_foreachid_process data to uf
    {| h_pointers := pointers; h_tag := tags; h_flag := flags; h_lib := libs;
       h_user := iter |} =
  Some (data,
        {| h_pointers := pointers; h_tag := tags; h_flag := flags;
           h_lib := libs;
           h_user :=
             match usage_kind data pointers (iter_id iter) (to, uf) with
             | None => iter
             | Some true =>
                 {| iter_id := iter_id iter; curr_id := curr_id iter;
                    count_direct := count_direct iter;
                    count_indirect := int_add (count_indirect iter) 1 |}
             | Some false =>
                 {| iter_id := iter_id iter; curr_id := curr_id iter;
                    count_direct := int_add (count_direct iter) 1;
                    count_indirect := count_indirect iter |}
             end |}).
Proof.
  intros Hcb Hgo Hrec Hnop [old Hold].
  unfold BKE_lib_query_foreachid_process. rewrite Hgo, Hcb.
  cbn [h_pointers]. rewrite Hold. cbn [mbind option_bind].
  unfold foreach_libblock_id_users_callback, usage_kind.
  cbn [h_pointers cbd_id_pointer cbd_cb_flag h_user fst snd].
  rewrite Hold. cbn [mbind option_bind]. rewrite Hrec.
  assert (Hnot : truthy (Z.land IDWALK_RET_NOP IDWALK_RET_STOP_ITER) = false)
    by by rewrite Hnop.
  destruct old as [p|]; cbn [truthy Z.eqb negb mbind option_bind];
    [|by rewrite Hnot].
  destruct (truthy (Z.land (callback_flags data uf) IDWALK_CB_LOOPBACK));
    cbn [mbind option_bind truthy Z.eqb negb]; [by rewrite Hnot|].
  destruct (decide (Some p = iter_id iter)); [|cbn; by rewrite Hnot].
  destruct (truthy (Z.land (callback_flags data uf) IDWALK_CB_INDIRECT_USAGE));
    cbn; by rewrite Hnot.
Qed.

(** X15. The users callback counts the usages. Over the entries of the
    relations cache, in a walk without recursion, it never stops the loop
    and changes no pointer and no tag; when the counters cannot overflow,
    [count_direct] grows by the number of direct usages of the ID it looks
    for and [count_indirect] by the number of indirect ones, where a null
    pointer, a pointer to another ID and a loop-back pointer are no
    usage. *)
Theorem users_callback_counts_usages
  (data : LibraryForeachIDData IDUsersIter) (to_ids : list (positive * Z))
  (heap : Heap IDUsersIter) :
  callback data = foreach_libblock_id_users_callback ->
  BKE_lib_query_foreachid_iter_stop data = false ->
  Z.land (flag data) IDWALK_RECURSE = 0 ->
  Z.land IDWALK_RET_NOP IDWALK_RET_STOP_ITER = 0 ->
  (forall e, e ∈ to_ids -> is_Some (h_pointers heap !! fst e)) ->
  0 <= count_direct (h_user heap) ->
  0 <= count_indirect (h_user heap) ->
  count_direct (h_user heap) + Z.of_nat (length to_ids) <= INT_MAX ->
  count_indirect (h_user heap) + Z.of_nat (length to_ids) <= INT_MAX ->
  exists iter',
    foreach_to_ids data to_ids heap =
      Some (data,
            {| h_pointers := h_pointers heap; h_tag := h_tag heap;
               h_flag := h_flag heap; h_lib := h_lib heap;
               h_user := iter' |},
            true) /\
    iter_id iter' = iter_id (h_user heap) /\
    curr_id iter' = curr_id (h_user heap) /\
    count_direct iter' =
      count_direct (h_user heap) +
      count_usages false data (h_pointers heap) (iter_id (h_user heap)) to_ids /\
    count_indirect iter' =
      count_indirect (h_user heap) +
      count_usages true data (h_pointers heap) (iter_id (h_user heap)) to_ids.
Proof.
  intros Hcb Hgo Hrec Hnop. destruct heap as [pointers tags flags libs iter].
  cbn [h_pointers h_tag h_flag h_lib h_user]. revert iter.
  induction to_ids as [|[to uf] l IH]; intros iter Hptr Hd Hi Hdmax Himax.
  - exists iter. cbn. unfold count_usages. cbn. split; [done|].
    repeat split; lia.
  - cbn [foreach_to_ids].
    rewrite users_callback_step; try done;
      [|apply (Hptr (to, uf)); apply elem_of_cons; by left].
    cbn [mbind option_bind]. rewrite Hgo.
    cbn [length] in Hdmax, Himax.
    set (iter1 := match usage_kind data pointers (iter_id iter) (to, uf) with
                  | None => iter | Some true => _ | Some false => _ end).
    assert (Hid : iter_id iter1 = iter_id iter /\ curr_id iter1 = curr_id iter).
    { subst iter1. by destruct (usage_kind _ _ _ _) as [[]|]. }
    destruct Hid as [Hid Hcur].
    pose (kd := if bool_decide (usage_kind data pointers (iter_id iter) (to, uf)
                                = Some false) then 1 else 0).
    pose (ki := if bool_decide (usage_kind data pointers (iter_id iter) (to, uf)
                                = Some true) then 1 else 0).
    assert (Hcd : count_direct iter1 = count_direct iter + kd /\
                  count_indirect iter1 = count_indirect iter + ki /\
                  0 <= kd <= 1 /\ 0 <= ki <= 1).
    { subst iter1 kd ki. unfold int_add.
      destruct (usage_kind _ _ _ _) as [[]|]; cbn;
        rewrite ?int_wrap_id by (unfold INT_MAX in *; lia);
        repeat case_bool_decide; try congruence; lia. }
    destruct Hcd as (Hcd & Hci & Hkd & Hki).
    destruct (IH iter1) as (iter' & Hrun & Hid' & Hcur' & Hd' & Hi').
    + intros e He. apply Hptr. apply elem_of_cons. by right.
    + lia.
    + lia.
    + lia.
    + lia.
    + exists iter'. split; [exact Hrun|].
      split; [congruence|]. split; [congruence|].
      rewrite Hid in Hd', Hi'. unfold count_usages in *.
      cbn [List.filter]. fold kd ki.
      split.
      * rewrite Hd', Hcd. subst kd.
        case_bool_decide; cbn [length]; lia.
      * rewrite Hi', Hci. subst ki.
        case_bool_decide; cbn [length]; lia.
Qed.

End UsersCallback.

Section TagClear.
Import LibQuery.
Context `{W : WalkFlags}.

Lemma only_cleared_refl bit tags : only_cleared bit tags tags.
Proof. intros id. by left. Qed.

Lemma land_lnot_twice t bit :
  Z.land (Z.land t (Z.lnot bit)) (Z.lnot bit) = Z.land t (Z.lnot bit).
Proof. by rewrite <- Z.land_assoc, Z.land_diag. Qed.

Lemma only_cleared_trans bit t1 t2 t3 :
  only_cleared bit t1 t2 -> only_cleared bit t2 t3 -> only_cleared bit t1 t3.
Proof.
  intros H12 H23 id.
  destruct (H23 id) as [H|(t & Ht & Ht')].
  - rewrite H. apply H12.
  - destruct (H12 id) as [H|(t0 & Ht0 & Ht0')].
    + right. exists t. by rewrite <- H.
    + right. exists t0. split; [done|]. rewrite Ht'.
      rewrite Ht0' in Ht. injection Ht as <-. by rewrite land_lnot_twice.
Qed.

(** One call of the tag-clearing callback. *)
Lemma tag_clear_cb_step cb_data (heap : Heap bool) ret heap' :
  foreach_libblock_used_linked_data_tag_clear_cb cb_data heap = Some (ret, heap') ->
  ret = IDWALK_RET_NOP /\
  h_pointers heap' = h_pointers heap /\
  only_cleared ID_TAG_DOIT (h_tag heap) (h_tag heap') /\
  (h_user heap = true -> h_user heap' = true) /\
  (h_tag heap' <> h_tag heap -> h_user heap' = true).
Proof.
  unfold foreach_libblock_used_linked_data_tag_clear_cb. intros Hcb.
  assert (Hsame : forall h : Heap bool,
            ret = IDWALK_RET_NOP -> heap' = h -> h = heap ->
            ret = IDWALK_RET_NOP /\
            h_pointers heap' = h_pointers heap /\
            only_cleared ID_TAG_DOIT (h_tag heap) (h_tag heap') /\
            (h_user heap = true -> h_user heap' = true) /\
            (h_tag heap' <> h_tag heap -> h_user heap' = true)).
  { intros h -> -> ->. split; [done|]. split; [done|].
    split; [apply only_cleared_refl|]. split; [done|]. intros H. done. }
  destruct (h_pointers heap !! cbd_id_pointer cb_data) as [[p|]|];
    cbn [mbind option_bind] in Hcb; [| |done].
  2: { injection Hcb as <- <-. by apply (Hsame heap). }
  destruct (truthy (Z.land (cbd_cb_flag cb_data) IDWALK_CB_LOOPBACK)).
  { injection Hcb as <- <-. by apply (Hsame heap). }
  destruct (cbd_self_id cb_data) as [self|]; [|done].
  cbn [mbind option_bind] in Hcb.
  destruct (h_tag heap !! self) as [self_tag|]; [|done].
  cbn [mbind option_bind] in Hcb.
  destruct (truthy (Z.land self_tag ID_TAG_DOIT)).
  { injection Hcb as <- <-. by apply (Hsame heap). }
  destruct (h_tag heap !! p) as [tag|] eqn:Htag; [|done].
  cbn [mbind option_bind] in Hcb.
  destruct (truthy (Z.land tag ID_TAG_DOIT)).
  2: { injection Hcb as <- <-. by apply (Hsame heap). }
  injection Hcb as <- <-. cbn. split; [done|]. split; [done|]. split; [|done].
  intros id. destruct (decide (id = p)) as [->|Hne].
  - right. exists tag. by rewrite lookup_insert_eq.
  - left. by rewrite lookup_insert_ne.
Qed.

(** X16. The tag-clearing callback, along the loop over the entries of any
    walk, only ever clears [ID_TAG_DOIT]: every tag at the end is the tag
    at the start, or that tag without the bit; no ID pointer is changed;
    [is_changed] is never reset; and [is_changed] is set whenever a tag was
    changed. *)
Theorem tag_clear_only_clears_doit
  (data : LibraryForeachIDData bool) (to_ids : list (positive * Z))
  (heap : Heap bool) data' heap' (ok : bool) :
  callback data = foreach_libblock_used_linked_data_tag_clear_cb ->
  foreach_to_ids data to_ids heap = Some (data', heap', ok) ->
  h_pointers heap' = h_pointers heap /\
  only_cleared ID_TAG_DOIT (h_tag heap) (h_tag heap') /\
  (h_user heap = true -> h_user heap' = true) /\
  (h_tag heap' <> h_tag heap -> h_user heap' = true).
Proof.
  revert data heap.
  induction to_ids as [|[to uf] l IH]; intros data heap Hcb Hrun.
  - cbn in Hrun. injection Hrun as <- <- <-. split; [done|].
    split; [apply only_cleared_refl|]. split; done.
  - cbn [foreach_to_ids] in Hrun.
    destruct (BKE_lib_query_foreachid_process data to uf heap) as [[d h]|] eqn:Hp;
      [|done].
    cbn [mbind option_bind] in Hrun.
    assert (Hstep : h_pointers h = h_pointers heap /\
              only_cleared ID_TAG_DOIT (h_tag heap) (h_tag h) /\
              (h_user heap = true -> h_user h = true) /\
              (h_tag h <> h_tag heap -> h_user h = true) /\
              callback d = callback data).
    { destruct (BKE_lib_query_foreachid_iter_stop data) eqn:Hs.
      - rewrite process_stopped in Hp by done. injection Hp as <- <-.
        split; [done|]. split; [apply only_cleared_refl|]. done.
      - destruct (process_running _ _ _ _ _ _ Hs Hp)
          as (old & ret & d1 & _ & Hc & -> & _ & _ & Hcases).
        rewrite Hcb in Hc. apply tag_clear_cb_step in Hc as (_ & H1 & H2 & H3 & H4).
        split; [done|]. split; [done|]. split; [done|]. split; [done|].
        destruct Hcases as [->|(p & hd & _ & _ & _ & _ & ->)];
          by destruct (truthy (Z.land ret IDWALK_RET_STOP_ITER)). }
    destruct Hstep as (Hp1 & Hc1 & Hu1 & Ht1 & Hcb1).
    assert (Hrest : h_pointers heap' = h_pointers h /\
              only_cleared ID_TAG_DOIT (h_tag h) (h_tag heap') /\
              (h_user h = true -> h_user heap' = true) /\
              (h_tag heap' <> h_tag h -> h_user heap' = true)).
    { destruct (BKE_lib_query_foreachid_iter_stop d).
      - injection Hrun as <- <- <-. split; [done|].
        split; [apply only_cleared_refl|]. done.
      - apply (IH d h); [congruence | done]. }
    destruct Hrest as (Hp2 & Hc2 & Hu2 & Ht2).
    split; [congruence|]. split; [by apply (only_cleared_trans _ _ (h_tag h))|].
    split; [tauto|].
    intros Hne. destruct (decide (h_tag h = h_tag heap)) as [Heq|Hne1].
    + apply Ht2. congruence.
    + apply Hu2, Ht1, Hne1.
Qed.

End TagClear.

(** ** The walk on a small memory *)

Section WalkWitnesses.
Import LibQuery.
Import LibQuery.DemoWalk.

Lemma callback_flags_forbidden_and_marker_witness :
  Z.testbit (callback_flags (walk 0 64 1 stop_at_9) 9) 0 = false /\
  Z.land (callback_flags (walk 0 64 1 stop_at_9) 9) 32 = 32.
Proof.
  destruct (callback_flags_forbidden_and_marker (walk 0 64 1 stop_at_9) 9)
    as (_ & Hclear & Hmark).
  split.
  - apply Hclear; [lia | reflexivity | reflexivity].
  - apply Hmark. vm_compute. congruence.
Defined.

Lemma foreach_to_ids_stops_at_first_stop_witness :
  exists d2 h2,
    foreach_to_ids (walk 0 0 0 stop_at_9)
      [(1%positive, 0); (2%positive, 0); (3%positive, 0)] (heap tt) =
      Some (d2, h2, false).
Proof.
  eexists _, _.
  apply (foreach_to_ids_stops_at_first_stop (walk 0 0 0 stop_at_9)
           [(1%positive, 0)] (2%positive, 0) [(3%positive, 0)] (heap tt)
           (walk 0 0 0 stop_at_9) (heap tt)
           (with_status (walk 0 0 0 stop_at_9) 1) (heap tt));
    vm_compute; reflexivity.
Defined.

Lemma walk_keeps_recursion_in_order_witness :
  exists data' heap' ok,
    foreach_to_ids (walk 2 0 0 stop_at_9)
      [(1%positive, 0); (3%positive, 0); (2%positive, 0)] (heap tt) =
      Some (data', heap', ok) /\
    recursion_ok data'.
Proof.
  destruct (foreach_to_ids (walk 2 0 0 stop_at_9)
              [(1%positive, 0); (3%positive, 0); (2%positive, 0)] (heap tt))
    as [[[data' heap'] ok]|] eqn:Hrun; [|vm_compute in Hrun; discriminate].
  exists data', heap', ok. split; [reflexivity|].
  apply (walk_keeps_recursion_in_order (walk 2 0 0 stop_at_9) _ _ _ _ _
           {[7%positive]}) in Hrun as [Hok _]; [exact Hok | | reflexivity].
  exists {[7%positive]}. split; [reflexivity|]. split; [constructor|].
  intros x Hx. by apply elem_of_nil in Hx.
Defined.

Lemma users_callback_counts_usages_witness :
  exists iter',
    foreach_to_ids (walk 0 0 0 foreach_libblock_id_users_callback)
      [(1%positive, 0); (2%positive, 0); (2%positive, 64); (3%positive, 0);
       (2%positive, 8)]
      (heap (users 9%positive)) =
      Some (walk 0 0 0 foreach_libblock_id_users_callback,
            {| h_pointers := pointers; h_tag := h_tag (heap (users 9%positive));
               h_flag := h_flag (heap (users 9%positive));
               h_lib := h_lib (heap (users 9%positive));
               h_user := iter' |}, true) /\
    count_direct iter' = 1 /\ count_indirect iter' = 1.
Proof.
  destruct (users_callback_counts_usages
              (walk 0 0 0 foreach_libblock_id_users_callback)
              [(1%positive, 0); (2%positive, 0); (2%positive, 64);
               (3%positive, 0); (2%positive, 8)]
              (heap (users 9%positive)))
    as (iter' & Hrun & _ & _ & Hd & Hi);
    [reflexivity | reflexivity | reflexivity | reflexivity | | cbn; lia
    | cbn; lia | cbn; unfold INT_MAX; lia | cbn; unfold INT_MAX; lia |].
  { intros e He. repeat (apply elem_of_cons in He as [->|He]);
      [by eexists .. | by apply elem_of_nil in He]. }
  exists iter'. split; [exact Hrun|]. split; [exact Hd | exact Hi].
Defined.

Lemma tag_clear_only_clears_doit_witness :
  exists data' heap' ok,
    foreach_to_ids (walk 0 0 0 foreach_libblock_used_linked_data_tag_clear_cb)
      [(1%positive, 0); (2%positive, 0)] (heap false) =
      Some (data', heap', ok) /\
    h_pointers heap' = pointers /\
    only_cleared ID_TAG_DOIT (h_tag (heap false)) (h_tag heap').
Proof.
  destruct (foreach_to_ids
              (walk 0 0 0 foreach_libblock_used_linked_data_tag_clear_cb)
              [(1%positive, 0); (2%positive, 0)] (heap false))
    as [[[data' heap'] ok]|] eqn:Hrun; [|vm_compute in Hrun; discriminate].
  exists data', heap', ok. split; [reflexivity|].
  apply tag_clear_only_clears_doit in Hrun as (Hp & Hc & _ & _);
    [|reflexivity].
  split; [exact Hp | exact Hc].
Defined.

End WalkWitnesses.

(** ** The counters of the unused IDs *)

Lemma int_wrap_range z : - 2 ^ 31 <= int_wrap z <= INT_MAX.
Proof.
  unfold int_wrap, INT_MAX.
  pose proof (Z.mod_pos_bound (z + 2 ^ 31) (2 ^ 32) ltac:(lia)). lia.
Qed.

Lemma int_wrap_add_l a b : int_wrap (int_wrap a + b) = int_wrap (a + b).
Proof.
  unfold int_wrap. f_equal.
  replace ((a + 2 ^ 31) mod 2 ^ 32 - 2 ^ 31 + b + 2 ^ 31)
    with ((a + 2 ^ 31) mod 2 ^ 32 + b) by lia.
  rewrite Z.add_mod_idemp_l by lia. f_equal. lia.
Qed.

Lemma int_wrap_add_r a b : int_wrap (a + int_wrap b) = int_wrap (a + b).
Proof. rewrite Z.add_comm, int_wrap_add_l. f_equal. lia. Qed.

Section Counters.
Import UnusedIDs.

Lemma counter_add_spec array i k m m' :
  counter_add array i k m = Some m' ->
  ids m' = ids m /\
  is_Some (counter m array i) /\
  forall a' i', 0 <= i' ->
    counter m' a' i' =
      if decide ((a', i') = (array, i))
      then (fun v => int_add v k) <$> counter m a' i'
      else counter m a' i'.
Proof.
  unfold counter_add, counter. intros Hadd.
  destruct (counters m !! array) as [a|] eqn:Ha; [|done].
  cbn [mbind option_bind] in *.
  destruct (array_get a i) as [v|] eqn:Hv; [|done].
  cbn [mbind option_bind] in Hadd.
  destruct (array_set a i (int_add v k)) as [a1|] eqn:Hset; [|done].
  cbn [mbind option_bind] in Hadd. injection Hadd as <-. cbn [ids counters].
  apply array_set_Some in Hset as [Hi ->].
  split; [done|]. split; [by eexists|].
  intros a' i' Hi'. destruct (decide ((a', i') = (array, i))) as [[= -> ->]|Hne].
  - rewrite lookup_insert_eq, Ha. cbn [mbind option_bind].
    rewrite array_get_set_eq, Hv by done. done.
  - destruct (decide (a' = array)) as [->|Hna].
    + rewrite lookup_insert_eq, Ha. cbn [mbind option_bind].
      apply array_get_set_ne; [lia | done | congruence].
    + by rewrite lookup_insert_ne.
Qed.

Lemma counter_add_is_Some array i k m :
  is_Some (counter m array i) -> is_Some (counter_add array i k m).
Proof.
  unfold counter_add, counter. intros [v Hv].
  destruct (counters m !! array) as [a|]; [|done].
  cbn [mbind option_bind] in *. rewrite Hv. cbn [mbind option_bind].
  apply array_get_Some_bound in Hv.
  rewrite array_set_in_range by done. by eexists.
Qed.

Lemma counter_neg m array i : i < 0 -> counter m array i = None.
Proof.
  intros Hi. unfold counter. destruct (counters m !! array) as [a|]; [|done].
  cbn. unfold array_get. destruct (Z.leb_spec 0 i); [lia | done].
Qed.

(** The arrays of two memories are the same when they have the same
    counters. *)
Lemma counters_ext m1 m2 :
  (forall array i, counter m1 array i = counter m2 array i) ->
  (forall array, length <$> counters m1 !! array = length <$> counters m2 !! array) ->
  counters m1 = counters m2.
Proof.
  intros Hc Hl. apply map_eq. intros array.
  specialize (Hl array). pose proof (fun i => Hc array i) as Hc'.
  unfold counter in Hc'.
  destruct (counters m1 !! array) as [a1|], (counters m2 !! array) as [a2|];
    try done.
  f_equal. apply list_eq. intros n. specialize (Hc' (Z.of_nat n)).
  cbn in Hc'. rewrite !array_get_lookup, Nat2Z.id in Hc' by lia. done.
Qed.

Lemma counter_add_lengths array i k m m' a' :
  counter_add array i k m = Some m' ->
  length <$> counters m' !! a' = length <$> counters m !! a'.
Proof.
  unfold counter_add. intros Hadd.
  destruct (counters m !! array) as [a|] eqn:Ha; [|done].
  cbn [mbind option_bind] in *.
  destruct (array_get a i) as [v|]; [|done].
  cbn [mbind option_bind] in Hadd.
  destruct (array_set a i (int_add v k)) as [a1|] eqn:Hset; [|done].
  cbn [mbind option_bind] in Hadd. injection Hadd as <-. cbn [counters].
  apply array_set_Some in Hset as [_ ->].
  destruct (decide (a' = array)) as [->|Hne].
  - rewrite lookup_insert_eq, Ha. cbn. by rewrite length_insert.
  - by rewrite lookup_insert_ne.
Qed.

Lemma counter_adds_spec cells k m m' :
  counter_adds cells k m = Some m' ->
  ids m' = ids m /\
  (forall c, c ∈ cells -> is_Some (counter m (fst c) (snd c))) /\
  (forall a', length <$> counters m' !! a' = length <$> counters m !! a') /\
  forall a' i',
    counter m' a' i' =
      (fun v => if hits (a', i') cells =? 0 then v
                else int_wrap (v + k * hits (a', i') cells))
        <$> counter m a' i'.
Proof.
  revert m. induction cells as [|[a i] cells IH]; intros m Hadds.
  - cbn in Hadds. injection Hadds as <-. split; [done|].
    split; [intros c Hc; by apply elem_of_nil in Hc|]. split; [done|].
    intros a' i'. unfold hits. cbn. by destruct (counter m a' i').
  - cbn [counter_adds fst snd] in Hadds.
    destruct (counter_add a i k m) as [m1|] eqn:Hadd; [|done].
    cbn [mbind option_bind] in Hadds.
    destruct (IH m1 Hadds) as (Hids & Hsome & Hlen & Hval).
    destruct (counter_add_spec _ _ _ _ _ Hadd) as (Hids1 & Hs1 & Hval1).
    split; [congruence|]. split; [|split].
    + intros c Hc. apply elem_of_cons in Hc as [->|Hc]; [done|].
      destruct c as [ca ci]. cbn [fst snd].
      destruct (Z.lt_ge_cases ci 0) as [Hneg|Hpos].
      * specialize (Hsome _ Hc). cbn [fst snd] in Hsome.
        rewrite counter_neg in Hsome by done. by destruct Hsome.
      * specialize (Hsome _ Hc). cbn [fst snd] in Hsome.
        rewrite Hval1 in Hsome by done.
        destruct (decide ((ca, ci) = (a, i))); [|done].
        by apply fmap_is_Some in Hsome.
    + intros a'. rewrite Hlen. by apply (counter_add_lengths a i k).
    + intros a' i'. rewrite Hval.
      destruct (Z.lt_ge_cases i' 0) as [Hneg|Hpos].
      { by rewrite !counter_neg by done. }
      rewrite Hval1 by done. unfold hits. cbn [List.filter].
      destruct (decide ((a', i') = (a, i))) as [Heq|Hne].
      * rewrite bool_decide_eq_true_2 by done. cbn [length].
        destruct (counter m a' i') as [v|]; [|done]. cbn. f_equal.
        set (n := length (List.filter (fun c' => bool_decide (c' = (a', i'))) cells)).
        destruct (Z.eqb_spec (Z.of_nat n) 0) as [Hn|Hn].
        -- destruct (Z.eqb_spec (Z.of_nat (Datatypes.S n)) 0); [lia|].
           unfold int_add. f_equal. lia.
        -- destruct (Z.eqb_spec (Z.of_nat (Datatypes.S n)) 0); [lia|].
           unfold int_add. rewrite int_wrap_add_l. f_equal. lia.
      * rewrite bool_decide_eq_false_2 by done. done.
Qed.

Lemma counter_adds_is_Some cells k m :
  (forall c, c ∈ cells -> is_Some (counter m (fst c) (snd c))) ->
  is_Some (counter_adds cells k m).
Proof.
  revert m. induction cells as [|[a i] cells IH]; intros m Hsome; [by eexists|].
  cbn [counter_adds fst snd].
  destruct (counter_add_is_Some a i k m) as [m1 Hadd].
  { apply (Hsome (a, i)). by left. }
  rewrite Hadd. cbn [mbind option_bind]. apply IH.
  intros [ca ci] Hc. cbn [fst snd].
  destruct (Z.lt_ge_cases ci 0) as [Hneg|Hpos].
  - assert (Hs : is_Some (counter m ca ci)) by (apply (Hsome (ca, ci)); by right).
    rewrite counter_neg in Hs by done. by destruct Hs.
  - destruct (counter_add_spec _ _ _ _ _ Hadd) as (_ & _ & Hval).
    rewrite Hval by done.
    assert (Hs : is_Some (counter m ca ci)) by (apply (Hsome (ca, ci)); by right).
    destruct (decide _); [by apply fmap_is_Some | done].
Qed.

End Counters.

Section UnusedProofs.
Import UnusedIDs.
Context `{X : IDExterns}.

Lemma count_id_adds data s k m :
  count_id data s k m = counter_adds (id_cells data s) k m.
Proof.
  unfold count_id, id_cells. cbn [counter_adds fst snd].
  destruct (counter_add (num_total data) INDEX_ID_NULL k m) as [m1|]; [|done].
  cbn [mbind option_bind].
  destruct (counter_add (num_total data) _ k m1) as [m2|]; [|done].
  cbn [mbind option_bind].
  destruct (ID_IS_LINKED (lib s));
    (destruct (counter_add _ INDEX_ID_NULL k m2) as [m3|]; [|done]);
    cbn [mbind option_bind]; by destruct (counter_add _ _ k m3).
Qed.

Lemma land_lor_lnot t g : Z.land t g = 0 -> Z.land (Z.lor t g) (Z.lnot g) = t.
Proof.
  intros H. apply Z.bits_inj'. intros n Hn.
  rewrite Z.land_spec, Z.lor_spec, Z.lnot_spec by done.
  assert (Hb : Z.testbit (Z.land t g) n = false) by (rewrite H; apply Z.bits_0).
  rewrite Z.land_spec in Hb.
  by destruct (Z.testbit t n), (Z.testbit g n).
Qed.

Lemma memory_eq m1 m2 :
  ids m1 = ids m2 -> counters m1 = counters m2 -> m1 = m2.
Proof. destruct m1, m2. cbn. by intros -> ->. Qed.

Lemma data_eq data A U :
  unused_ids data = U -> with_unused_ids (with_unused_ids data A) U = data.
Proof. intros <-. by destruct data. Qed.

(** X17. Untagging undoes tagging. When an ID that is not in the set of
    the unused IDs and has no bit of [id_tag] set is tagged, and the filter
    keeps it, untagging it gives back the data and the memory as they were:
    the tag, the set and every counter, also when two of the three pointers
    are the same array. *)
Theorem tag_then_untag_restores
  (data : UnusedIDsData) (m : Memory) (id : ID) (s : IDStruct)
  (data1 : UnusedIDsData) (m1 : Memory) :
  ids m !! id = Some s ->
  id ∉ unused_ids data ->
  Z.land (tag s) (id_tag data) = 0 ->
  counters_are_ints m ->
  lib_query_unused_ids_tag_id id (data, m) = Some (data1, m1) ->
  id ∈ unused_ids data1 ->
  lib_query_unused_ids_untag_id id (data1, m1) = Some (data, m).
Proof.
  intros Hs Hnew Htag Hints Htagged Hin.
  unfold lib_query_unused_ids_tag_id in Htagged. rewrite Hs in Htagged.
  cbn [mbind option_bind] in Htagged.
  destruct (match filter_fn data with
            | Some f => negb (f id s) | None => false end).
  { injection Htagged as <- <-. done. }
  rewrite count_id_adds in Htagged.
  match type of Htagged with
  | mbind _ (counter_adds ?cs 1 ?m0) = _ =>
      set (cells := cs) in *; set (mt := m0) in *
  end.
  destruct (counter_adds cells 1 mt) as [m2|] eqn:Hadds; [|done].
  cbn [mbind option_bind] in Htagged. injection Htagged as <- <-.
  destruct (counter_adds_spec _ _ _ _ Hadds) as (Hids & Hsome & Hlen & Hval).
  unfold lib_query_unused_ids_untag_id.
  assert (Hs2 : ids m2 !! id =
            Some {| tag := Z.lor (tag s) (id_tag data); us := us s;
                    lib := lib s; name := name s |}).
  { rewrite Hids. subst mt. cbn. by rewrite lookup_insert_eq. }
  rewrite Hs2. cbn [mbind option_bind with_unused_ids id_tag unused_ids].
  rewrite decide_True by (apply elem_of_union_l; by apply elem_of_singleton).
  rewrite count_id_adds.
  cbn [tag us lib name].
  match goal with
  | |- mbind _ (counter_adds ?cs (-1) ?m0) = _ =>
      change cs with cells; set (mu := m0)
  end.
  assert (Hcu : forall a i, counter mu a i = counter m2 a i) by done.
  destruct (counter_adds_is_Some cells (-1) mu) as [m3 Hsubs].
  { intros c Hc. rewrite Hcu, Hval. apply fmap_is_Some. by apply Hsome. }
  rewrite Hsubs. cbn [mbind option_bind].
  destruct (counter_adds_spec _ _ _ _ Hsubs) as (Hids3 & _ & Hlen3 & Hval3).
  f_equal. f_equal.
  - apply data_eq. symmetry.
    apply set_eq. intros x. rewrite elem_of_difference, elem_of_union,
      elem_of_singleton. split; [tauto|]. intros Hx. split; [tauto|].
    intros ->. done.
  - apply memory_eq.
    + rewrite Hids3. subst mu. cbn [ids set_tag].
      rewrite Hids. subst mt. cbn [ids set_tag].
      rewrite insert_insert_eq, land_lor_lnot by done.
      apply insert_id. rewrite Hs. by destruct s.
    + apply counters_ext.
      * intros a i. rewrite Hval3, Hcu, Hval.
        change (counter mt a i) with (counter m a i).
        destruct (counter m a i) as [v|] eqn:Hv; [|done]. cbn. f_equal.
        apply Hints in Hv.
        destruct (Z.eqb_spec (hits (a, i) cells) 0); [done|].
        rewrite Z.add_comm, int_wrap_add_r.
        replace (-1 * hits (a, i) cells + (v + 1 * hits (a, i) cells)) with v by lia.
        by apply int_wrap_id.
      * intros a. rewrite Hlen3. subst mu. cbn [counters set_tag]. apply Hlen.
Qed.

Lemma tag_id_step data m id s data1 m1 :
  ids m !! id = Some s ->
  lib_query_unused_ids_tag_id id (data, m) = Some (data1, m1) ->
  let kept := match filter_fn data with Some f => f id s | None => true end in
  data1 = with_unused_ids data
            (if kept then {[id]} ∪ unused_ids data else unused_ids data) /\
  ids m1 = (if kept
            then <[id := {| tag := Z.lor (tag s) (id_tag data); us := us s;
                            lib := lib s; name := name s |}]> (ids m)
            else ids m) /\
  (if kept
   then count_id data s 1 (set_tag m id s (Z.lor (tag s) (id_tag data))) = Some m1
   else m1 = m).
Proof.
  intros Hs Ht kept. unfold lib_query_unused_ids_tag_id in Ht. rewrite Hs in Ht.
  cbn [mbind option_bind] in Ht. subst kept.
  assert (Hd : with_unused_ids data (unused_ids data) = data) by by destruct data.
  destruct (filter_fn data) as [f|] eqn:Hf.
  - destruct (f id s); cbn [negb] in Ht.
    + destruct (count_id _ s 1 _) as [m2|] eqn:Hc; [|done].
      cbn in Ht. injection Ht as <- <-.
      rewrite !count_id_adds in *.
      destruct (counter_adds_spec _ _ _ _ Hc) as (Hids & _).
      split; [done|]. split; [by rewrite Hids|]. first [exact Hc | reflexivity].
    + injection Ht as <- <-. by rewrite Hd.
  - destruct (count_id _ s 1 _) as [m2|] eqn:Hc; [|done].
    cbn in Ht. injection Ht as <- <-.
    rewrite !count_id_adds in *.
    destruct (counter_adds_spec _ _ _ _ Hc) as (Hids & _).
    split; [done|]. split; [by rewrite Hids|]. first [exact Hc | reflexivity].
Qed.

Lemma tag_or_clear_step data m id data1 m1 :
  tag_or_clear id (data, m) = Some (data1, m1) ->
  exists s,
    ids m !! id = Some s /\
    data1 = with_unused_ids data
              (if immediately_unused data id s
               then {[id]} ∪ unused_ids data else unused_ids data) /\
    ids m1 = <[id := {| tag := tag_after_first_loop data id s; us := us s;
                        lib := lib s; name := name s |}]> (ids m).
Proof.
  unfold tag_or_clear. intros Ht.
  destruct (ids m !! id) as [s|] eqn:Hs; [|done].
  cbn [mbind option_bind] in Ht. exists s. split; [done|].
  assert (Hd : with_unused_ids data (unused_ids data) = data) by by destruct data.
  unfold immediately_unused, tag_after_first_loop, immediately_unused.
  destruct (out_of_scope data s) eqn:Hscope; cbn [negb andb orb].
  { injection Ht as <- <-. by rewrite Hd. }
  destruct (us s =? 0) eqn:Hus; cbn [negb andb orb].
  2: { injection Ht as <- <-. by rewrite Hd. }
  destruct (tag_id_step _ _ _ _ _ _ Hs Ht) as (Hdata & Hids & _).
  split; [exact Hdata|]. rewrite Hids.
  destruct (match filter_fn data with Some f => f id s | None => true end);
    [done|].
  symmetry. apply insert_id. rewrite Hs. by destruct s.
Qed.

(** X18. The first loop of the unused-IDs query, over the IDs of the main
    database, each once. The set of the unused IDs gains exactly the IDs
    that are in scope, have no user and are kept by the filter. The tag of
    such an ID gets [id_tag]; the tag of an ID out of scope or with users
    is cleared of it; an ID without user that the filter drops keeps its
    tag as it was, set or not. The IDs outside the main database are not
    touched. *)
Theorem first_loop_tags_the_unused
  (data : UnusedIDsData) (m : Memory) (main_ids : list ID)
  (data' : UnusedIDsData) (m' : Memory) :
  NoDup main_ids ->
  unused_ids_first_loop main_ids (data, m) = Some (data', m') ->
  (forall id, id ∈ unused_ids data' <->
     id ∈ unused_ids data \/
     (id ∈ main_ids /\
      exists s, ids m !! id = Some s /\ immediately_unused data id s = true)) /\
  (forall id, id ∈ main_ids ->
     exists s, ids m !! id = Some s /\
       ids m' !! id =
         Some {| tag := tag_after_first_loop data id s; us := us s;
                 lib := lib s; name := name s |}) /\
  (forall id, id ∉ main_ids -> ids m' !! id = ids m !! id).
Proof.
  revert data m. induction main_ids as [|id0 l IH]; intros data m Hnd Hrun.
  - cbn in Hrun. injection Hrun as <- <-. split; [|split].
    + intros id. split; [tauto|]. intros [H|[H _]]; [done|].
      by apply elem_of_nil in H.
    + intros id H. by apply elem_of_nil in H.
    + done.
  - cbn [unused_ids_first_loop] in Hrun.
    destruct (tag_or_clear id0 (data, m)) as [[data1 m1]|] eqn:Hstep; [|done].
    cbn [mbind option_bind] in Hrun.
    apply NoDup_cons in Hnd as [Hnotin Hnd].
    destruct (tag_or_clear_step _ _ _ _ _ Hstep) as (s0 & Hs0 & Hdata1 & Hids1).
    destruct (IH data1 m1 Hnd Hrun) as (Hset & Htags & Hout).
    assert (Hsame : forall id s,
              immediately_unused data1 id s = immediately_unused data id s /\
              tag_after_first_loop data1 id s = tag_after_first_loop data id s).
    { intros id s. by rewrite Hdata1. }
    assert (Hother : forall id, id <> id0 -> ids m1 !! id = ids m !! id).
    { intros id Hne. rewrite Hids1. by apply lookup_insert_ne. }
    split; [|split].
    + intros id. rewrite Hset. rewrite Hdata1. cbn [unused_ids]. split.
      * intros [Hin|(Hin & s & Hs & Hu)].
        -- destruct (immediately_unused data id0 s0) eqn:Hu0; [|by left].
           apply elem_of_union in Hin as [Hin|Hin]; [|by left].
           apply elem_of_singleton in Hin as ->. right.
           split; [by left|]. by exists s0.
        -- right. split; [by right|]. exists s.
           rewrite Hother in Hs by (intros ->; done).
           split; [done|]. exact Hu.
      * intros [Hin|(Hin & s & Hs & Hu)].
        -- left. destruct (immediately_unused data id0 s0); [|done].
           by apply elem_of_union_r.
        -- apply elem_of_cons in Hin as [->|Hin].
           ++ left. rewrite Hs0 in Hs. injection Hs as <-. rewrite Hu.
              apply elem_of_union_l. by apply elem_of_singleton.
           ++ right. split; [done|]. exists s.
              rewrite Hother by (intros ->; done).
              split; [done|]. exact Hu.
    + intros id Hin. apply elem_of_cons in Hin as [->|Hin].
      * exists s0. split; [done|]. rewrite Hout by done.
        rewrite Hids1. by rewrite lookup_insert_eq.
      * destruct (Htags id Hin) as (s & Hs & Hs').
        exists s. rewrite Hother in Hs by (intros ->; done).
        split; [done|]. by rewrite Hs', (proj2 (Hsame id s)).
    + intros id Hnin. apply not_elem_of_cons in Hnin as [Hne Hnin].
      rewrite Hout by done. by apply Hother.
Qed.

Lemma hits_id_cells data s a i :
  let n := (if decide (INDEX_ID_NULL = i) then 1 else 0) +
           (if decide (BKE_idtype_idcode_to_index (name s) = i) then 1 else 0) in
  let array := if ID_IS_LINKED (lib s) then num_linked data
               else num_local data in
  hits (a, i) (id_cells data s) =
    (if decide (num_total data = a) then n else 0) +
    (if decide (array = a) then n else 0).
Proof.
  unfold hits, id_cells. cbn [List.filter].
  generalize (if ID_IS_LINKED (lib s) then num_linked data else num_local data).
  generalize (num_total data) INDEX_ID_NULL (BKE_idtype_idcode_to_index (name s)).
  intros T i0 i1 array.
  destruct (decide (T = a)), (decide (array = a)),
           (decide (i0 = i)), (decide (i1 = i)); subst;
    repeat (first [rewrite bool_decide_eq_true_2 by reflexivity
                  |rewrite bool_decide_eq_false_2 by congruence]);
    reflexivity.
Qed.

Lemma count_id_balanced data s k m m' :
  num_total data <> num_local data -> num_total data <> num_linked data ->
  num_local data <> num_linked data ->
  balanced data m -> count_id data s k m = Some m' -> balanced data m'.
Proof.
  intros Htl Htk Hlk Hbal Hc. rewrite count_id_adds in Hc.
  destruct (counter_adds_spec _ _ _ _ Hc) as (_ & _ & _ & Hval).
  intros i t l kk Ht Hl Hk. rewrite Hval in Ht, Hl, Hk.
  destruct (counter m (num_total data) i) as [t0|] eqn:Ht0; [|done].
  destruct (counter m (num_local data) i) as [l0|] eqn:Hl0; [|done].
  destruct (counter m (num_linked data) i) as [k0|] eqn:Hk0; [|done].
  pose proof (Hbal i t0 l0 k0 Ht0 Hl0 Hk0) as Hb.
  cbn in Ht, Hl, Hk. injection Ht as <-. injection Hl as <-. injection Hk as <-.
  rewrite !hits_id_cells.
  set (n := (if decide (INDEX_ID_NULL = i) then 1 else 0) +
            (if decide (BKE_idtype_idcode_to_index (name s) = i) then 1 else 0)).
  assert (Hn : n = 0 \/ 0 < n).
  { subst n. destruct (decide _), (decide _); lia. }
  clearbody n.
  rewrite (decide_True (P := num_total data = num_total data)) by done.
  destruct (ID_IS_LINKED (lib s)).
  - rewrite (decide_False (P := num_linked data = num_total data)) by done.
    rewrite (decide_False (P := num_total data = num_local data)) by done.
    rewrite (decide_False (P := num_linked data = num_local data)) by done.
    rewrite (decide_False (P := num_total data = num_linked data)) by done.
    rewrite (decide_True (P := num_linked data = num_linked data)) by done.
    rewrite ?Z.add_0_l, ?Z.add_0_r. cbn [Z.eqb].
    destruct Hn as [->|Hn]; [done|].
    destruct (Z.eqb_spec n 0); [lia|].
    rewrite int_wrap_add_r, Hb, int_wrap_add_l. f_equal. lia.
  - rewrite (decide_False (P := num_local data = num_total data)) by done.
    rewrite (decide_False (P := num_total data = num_local data)) by done.
    rewrite (decide_True (P := num_local data = num_local data)) by done.
    rewrite (decide_False (P := num_total data = num_linked data)) by done.
    rewrite (decide_False (P := num_local data = num_linked data)) by done.
    rewrite ?Z.add_0_l, ?Z.add_0_r. cbn [Z.eqb].
    destruct Hn as [->|Hn]; [done|].
    destruct (Z.eqb_spec n 0); [lia|].
    rewrite int_wrap_add_l, Hb, int_wrap_add_l. f_equal. lia.
Qed.

Lemma balanced_with_unused_ids data U m :
  balanced (with_unused_ids data U) m <-> balanced data m.
Proof. done. Qed.

(** X19. With three distinct arrays of counters, tagging and untagging
    keep the counters balanced: when for every index the total is the sum
    of the local and the linked amounts before, it is so after
    [lib_query_unused_ids_tag_id], after [lib_query_unused_ids_untag_id]
    and after the first loop of the query. *)
Theorem counters_stay_balanced (data : UnusedIDsData) (m : Memory) :
  num_total data <> num_local data -> num_total data <> num_linked data ->
  num_local data <> num_linked data ->
  balanced data m ->
  (forall id data' m',
     lib_query_unused_ids_tag_id id (data, m) = Some (data', m') ->
     balanced data' m') /\
  (forall id data' m',
     lib_query_unused_ids_untag_id id (data, m) = Some (data', m') ->
     balanced data' m') /\
  (forall main_ids data' m',
     unused_ids_first_loop main_ids (data, m) = Some (data', m') ->
     balanced data' m').
Proof.
  intros Htl Htk Hlk Hbal.
  assert (Htag : forall data m id data' m',
            num_total data <> num_local data ->
            num_total data <> num_linked data ->
            num_local data <> num_linked data ->
            balanced data m ->
            lib_query_unused_ids_tag_id id (data, m) = Some (data', m') ->
            balanced data' m' /\ num_total data' = num_total data /\
            num_local data' = num_local data /\
            num_linked data' = num_linked data).
  { clear. intros data m id data' m' Htl Htk Hlk Hbal Ht.
    destruct (ids m !! id) as [s|] eqn:Hs;
      [|unfold lib_query_unused_ids_tag_id in Ht; by rewrite Hs in Ht].
    destruct (tag_id_step _ _ _ _ _ _ Hs Ht) as (-> & _ & Hm).
    split; [|done]. apply balanced_with_unused_ids.
    destruct (match filter_fn data with Some f => f id s | None => true end);
      [|by subst].
    by apply (count_id_balanced data s 1 (set_tag m id s (Z.lor (tag s) (id_tag data)))). }
  split; [|split].
  - intros id data' m' Ht. by apply (Htag data m id).
  - intros id data' m' Hu. unfold lib_query_unused_ids_untag_id in Hu.
    destruct (ids m !! id) as [s|]; [|done]. cbn [mbind option_bind] in Hu.
    destruct (decide (id ∈ unused_ids data)); [|done].
    destruct (count_id _ _ (-1) _) as [m2|] eqn:Hc; [|done].
    cbn in Hu. injection Hu as <- <-. apply balanced_with_unused_ids.
    by apply (count_id_balanced _ _ _ _ _ Htl Htk Hlk) in Hc.
  - intros main_ids. revert data m Htl Htk Hlk Hbal.
    induction main_ids as [|id l IH]; intros data m Htl Htk Hlk Hbal data' m' Hrun.
    + cbn in Hrun. by injection Hrun as <- <-.
    + cbn [unused_ids_first_loop] in Hrun.
      destruct (tag_or_clear id (data, m)) as [[data1 m1]|] eqn:Hstep; [|done].
      cbn [mbind option_bind] in Hrun.
      assert (H1 : balanced data1 m1 /\ num_total data1 = num_total data /\
                   num_local data1 = num_local data /\
                   num_linked data1 = num_linked data).
      { unfold tag_or_clear in Hstep.
        destruct (ids m !! id) as [s|] eqn:Hs; [|done].
        cbn [mbind option_bind] in Hstep.
        destruct (out_of_scope data s); [by injection Hstep as <- <-|].
        destruct (us s =? 0); [|by injection Hstep as <- <-].
        by apply (Htag data m id). }
      destruct H1 as (Hb1 & E1 & E2 & E3).
      apply (IH data1 m1); by rewrite ?E1, ?E2, ?E3.
Qed.

End UnusedProofs.

Lemma counter_Forall (P : Z -> Prop) (m : UnusedIDs.Memory) array i v :
  map_Forall (fun _ a => Forall P a) (UnusedIDs.counters m) ->
  UnusedIDs.counter m array i = Some v -> P v.
Proof.
  intros Hall Hv. unfold UnusedIDs.counter in Hv.
  destruct (UnusedIDs.counters m !! array) as [a|] eqn:Ha; [|done].
  cbn in Hv. apply Hall in Ha. rewrite Forall_forall in Ha. apply Ha.
  unfold array_get in Hv. destruct (0 <=? i); [|done].
  by apply list_elem_of_lookup_2 in Hv.
Qed.

Section UnusedWitnesses.
Import UnusedIDs.
Import UnusedIDs.DemoUnused.

Lemma tag_then_untag_restores_witness :
  exists data1 m1,
    lib_query_unused_ids_tag_id 6%positive (query true true, memory) =
      Some (data1, m1) /\
    counter m1 3%positive 2 = Some 1 /\
    lib_query_unused_ids_untag_id 6%positive (data1, m1) =
      Some (query true true, memory).
Proof.
  destruct (lib_query_unused_ids_tag_id 6%positive (query true true, memory))
    as [[data1 m1]|] eqn:Ht; [|vm_compute in Ht; discriminate].
  exists data1, m1. split; [reflexivity|]. split.
  - vm_compute in Ht. injection Ht as _ <-. reflexivity.
  - apply (tag_then_untag_restores (query true true) memory 6%positive
             {| tag := 4; us := 0; lib := Some 1%positive; name := 2 |});
      [reflexivity | by apply not_elem_of_empty | reflexivity | | exact Ht | ].
    + intros array i v.
      apply (counter_Forall (fun v => - 2 ^ 31 <= v <= INT_MAX)).
      unfold memory. cbn [counters].
      repeat (apply map_Forall_insert_2;
              [repeat constructor; unfold INT_MAX; lia|]).
      apply map_Forall_empty.
    + destruct (tag_id_step (query true true) memory 6%positive
                  {| tag := 4; us := 0; lib := Some 1%positive; name := 2 |}
                  data1 m1 eq_refl Ht) as (-> & _).
      apply elem_of_union_l. by apply elem_of_singleton.
Defined.

Lemma first_loop_tags_the_unused_witness :
  exists data' m',
    unused_ids_first_loop [5%positive; 6%positive; 7%positive]
      (query true false, memory) = Some (data', m') /\
    (5%positive ∈ unused_ids data') /\
    exists s, ids m' !! 7%positive = Some s /\ tag s = 0.
Proof.
  destruct (unused_ids_first_loop [5%positive; 6%positive; 7%positive]
              (query true false, memory)) as [[data' m']|] eqn:Hrun;
    [|vm_compute in Hrun; discriminate].
  exists data', m'. split; [reflexivity|].
  destruct (first_loop_tags_the_unused (query true false) memory
              [5%positive; 6%positive; 7%positive] data' m')
    as (Hset & Htags & _); [|exact Hrun|].
  { repeat (apply NoDup_cons; split;
            [rewrite ?elem_of_cons, elem_of_nil; intros H;
             repeat destruct H as [H|H]; done|]).
    constructor. }
  split.
  - apply Hset. right. split; [by left|]. eexists. split; reflexivity.
  - destruct (Htags 7%positive) as (s & Hs & Hs');
      [rewrite !elem_of_cons; tauto|].
    eexists. split; [exact Hs'|].
    vm_compute in Hs. injection Hs as <-. reflexivity.
Defined.

Lemma counters_stay_balanced_witness :
  exists data' m',
    unused_ids_first_loop [5%positive; 6%positive; 7%positive]
      (query true true, memory) = Some (data', m') /\
    balanced data' m'.
Proof.
  destruct (unused_ids_first_loop [5%positive; 6%positive; 7%positive]
              (query true true, memory)) as [[data' m']|] eqn:Hrun;
    [|vm_compute in Hrun; discriminate].
  exists data', m'. split; [reflexivity|].
  destruct (counters_stay_balanced (query true true) memory)
    as (_ & _ & Hloop); [done | done | done | |].
  - assert (Hzero : forall array i v, counter memory array i = Some v -> v = 0).
    { intros array i v. apply (counter_Forall (fun v => v = 0)).
      unfold memory. cbn [counters].
      repeat (apply map_Forall_insert_2; [by repeat constructor|]).
      apply map_Forall_empty. }
    intros i t l k Ht Hl Hk.
    apply Hzero in Ht as ->. apply Hzero in Hl as ->. by apply Hzero in Hk as ->.
  - by apply (Hloop [5%positive; 6%positive; 7%positive]).
Defined.

End UnusedWitnesses.

(** ** The walk with recursion *)

Section RecursiveWalk.
Import LibQuery.
Context `{W : WalkFlags} {U : Type} `{P : IDPointers U}.
Implicit Types (data : LibraryForeachIDData U) (heap : Heap U).

Lemma same_walk_refl data : same_walk data data.
Proof. by repeat split. Qed.

Lemma same_walk_trans data1 data2 data3 :
  same_walk data1 data2 -> same_walk data2 data3 -> same_walk data1 data3.
Proof.
  intros (?&?&?&?&?&?&?) (?&?&?&?&?&?&?). repeat split; congruence.
Qed.

Lemma elem_of_targets pointers to_ids p :
  p ∈ targets pointers to_ids <->
  exists to uf, (to, uf) ∈ to_ids /\ pointers !! to = Some (Some p).
Proof.
  unfold targets. rewrite elem_of_list_to_set, list_elem_of_omap. split.
  - intros ([to uf] & Hin & Hp). exists to, uf. split; [done|].
    cbn [fst] in Hp. by destruct (pointers !! to) as [[q|]|]; simplify_eq/=.
  - intros (to & uf & Hin & Hp). exists (to, uf). split; [done|].
    cbn [fst]. by rewrite Hp.
Qed.

Lemma targets_cons pointers to uf to_ids :
  targets pointers ((to, uf) :: to_ids) =
  match pointers !! to with
  | Some (Some p) => {[p]} ∪ targets pointers to_ids
  | _ => targets pointers to_ids
  end.
Proof.
  unfold targets. cbn [omap list_omap fst].
  by destruct (pointers !! to) as [[p|]|].
Qed.

(** One call of the process in a walk with recursion. *)
Lemma process_recursive_eq data to uf heap data' heap' H :
  truthy (Z.land (flag data) IDWALK_RECURSE) = true ->
  BKE_lib_query_foreachid_iter_stop data = false ->
  ids_handled data = Some H ->
  BKE_lib_query_foreachid_process data to uf heap = Some (data', heap') ->
  exists old ret,
    h_pointers heap !! to = Some old /\
    callback data
      {| cbd_bmain := bmain data; cbd_owner_id := owner_id data;
         cbd_self_id := self_id data; cbd_id_pointer := to;
         cbd_cb_flag := callback_flags data uf |} heap = Some (ret, heap') /\
    let data1 :=
      match old with
      | Some p =>
          if decide (p ∈ H) then data
          else with_recursion data ({[p]} ∪ H)
                 (if truthy (Z.land ret IDWALK_RET_STOP_RECURSION)
                  then ids_todo data else p :: ids_todo data)
      | None => data
      end in
    data' = if truthy (Z.land ret IDWALK_RET_STOP_ITER)
            then with_status data1 (Z.lor (status data1) IDWALK_STOP)
            else data1.
Proof.
  intros Hrec Hgo HH Hp. unfold BKE_lib_query_foreachid_process in Hp.
  rewrite Hgo in Hp.
  destruct (h_pointers heap !! to) as [old|]; [|done].
  cbn [mbind option_bind] in Hp.
  destruct (callback data _ heap) as [[ret h1]|] eqn:Hcb; [|done].
  cbn [mbind option_bind] in Hp. rewrite Hrec, HH in Hp.
  exists old, ret. split; [done|].
  destruct old as [p|].
  - cbn [mbind option_bind] in Hp. destruct (decide (p ∈ H));
      cbn [mbind option_bind] in Hp; injection Hp as <- <-; done.
  - cbn [mbind option_bind] in Hp. injection Hp as <- <-. done.
Qed.

Lemma process_recursive data to uf heap data' heap' H :
  keeps_pointers (callback data) ->
  truthy (Z.land (flag data) IDWALK_RECURSE) = true ->
  BKE_lib_query_foreachid_iter_stop data = false ->
  ids_handled data = Some H ->
  BKE_lib_query_foreachid_process data to uf heap = Some (data', heap') ->
  h_pointers heap' = h_pointers heap /\
  same_walk data data' /\
  exists ret new,
    callback data
      {| cbd_bmain := bmain data; cbd_owner_id := owner_id data;
         cbd_self_id := self_id data; cbd_id_pointer := to;
         cbd_cb_flag := callback_flags data uf |} heap = Some (ret, heap') /\
    BKE_lib_query_foreachid_iter_stop data' =
      truthy (Z.land ret IDWALK_RET_STOP_ITER) /\
    ids_handled data' = Some (H ∪ targets (h_pointers heap) [(to, uf)]) /\
    ids_todo data' = new ++ ids_todo data /\
    (forall x, x ∈ new ->
       (x ∉ H) /\ x ∈ targets (h_pointers heap) [(to, uf)] /\ new = [x]) /\
    (truthy (Z.land ret IDWALK_RET_STOP_RECURSION) = false ->
     forall x, x ∈ targets (h_pointers heap) [(to, uf)] -> x ∉ H -> x ∈ new).
Proof.
  intros Hkeep Hrec Hgo HH Hp.
  destruct (process_recursive_eq _ _ _ _ _ _ _ Hrec Hgo HH Hp)
    as (old & ret & Hold & Hcb & Hd). cbn zeta in Hd.
  split; [by apply Hkeep in Hcb|].
  set (data1 := match old with
                | Some p => if decide (p ∈ H) then data else _
                | None => data end) in Hd.
  assert (Ht : targets (h_pointers heap) [(to, uf)] =
               match old with Some p => {[p]} | None => ∅ end).
  { rewrite targets_cons, Hold. unfold targets. cbn.
    destruct old as [p|]; [|done]. apply set_eq. intros x.
    rewrite elem_of_union, elem_of_empty. tauto. }
  rewrite Ht.
  assert (H1 : same_walk data data1 /\ status data1 = status data /\
            exists new,
              ids_handled data1 =
                Some (H ∪ match old with Some p => {[p]} | None => ∅ end) /\
              ids_todo data1 = new ++ ids_todo data /\
              (forall x, x ∈ new ->
                 (x ∉ H) /\
                 x ∈ (match old with Some p => {[p]} | None => ∅ end : gset ID) /\
                 new = [x]) /\
              (truthy (Z.land ret IDWALK_RET_STOP_RECURSION) = false ->
               forall x,
                 x ∈ (match old with Some p => {[p]} | None => ∅ end : gset ID) ->
                 x ∉ H -> x ∈ new)).
  { subst data1. destruct old as [p|].
    - destruct (decide (p ∈ H)) as [Hin|Hnin].
      + split; [apply same_walk_refl|]. split; [done|]. exists [].
        split.
        { rewrite HH. f_equal. apply set_eq. intros x.
          rewrite elem_of_union, elem_of_singleton.
          split; [tauto|]. intros [?| ->]; done. }
        split; [done|]. split; [intros x Hx; by apply elem_of_nil in Hx|].
        intros _ x Hx Hnx. apply elem_of_singleton in Hx as ->. done.
      + split; [by repeat split|]. split; [done|].
        exists (if truthy (Z.land ret IDWALK_RET_STOP_RECURSION)
                then [] else [p]).
        cbn [with_recursion ids_handled ids_todo].
        split.
        { f_equal. apply set_eq. intros x. rewrite !elem_of_union. tauto. }
        split; [by destruct (truthy (Z.land ret IDWALK_RET_STOP_RECURSION))|]. split.
        * intros x Hx. destruct (truthy (Z.land ret IDWALK_RET_STOP_RECURSION)); [by apply elem_of_nil in Hx|].
          apply list_elem_of_singleton in Hx as ->.
          split; [done|]. split; [by apply elem_of_singleton | done].
        * intros -> x Hx _. apply elem_of_singleton in Hx as ->.
          by apply list_elem_of_singleton.
    - split; [apply same_walk_refl|]. split; [done|]. exists [].
      split.
      { rewrite HH. f_equal. apply set_eq. intros x.
        rewrite elem_of_union, elem_of_empty. tauto. }
      split; [done|]. split; [intros x Hx; by apply elem_of_nil in Hx|].
      intros _ x Hx. by apply elem_of_empty in Hx. }
  clearbody data1. destruct H1 as (Hsw & Hst & new & Hh & Htodo & Hnew & Hall).
  split.
  { subst data'. destruct (truthy (Z.land ret IDWALK_RET_STOP_ITER)); [|done].
    destruct Hsw as (?&?&?&?&?&?&?). by repeat split. }
  exists ret, new. split; [done|].
  split.
  { subst data'. destruct (truthy (Z.land ret IDWALK_RET_STOP_ITER)) eqn:Hs.
    - apply with_status_stop.
    - unfold BKE_lib_query_foreachid_iter_stop in *. by rewrite Hst. }
  subst data'.
  destruct (truthy (Z.land ret IDWALK_RET_STOP_ITER)); done.
Qed.

Lemma targets_cons_union pointers e to_ids :
  targets pointers (e :: to_ids) =
  targets pointers [e] ∪ targets pointers to_ids.
Proof.
  apply set_eq. intros x. rewrite elem_of_union, !elem_of_targets. split.
  - intros (to & uf & Hin & Hp). apply elem_of_cons in Hin as [Heq|Hin].
    + left. exists to, uf. split; [by apply list_elem_of_singleton | done].
    + right. by exists to, uf.
  - intros [(to & uf & Hin & Hp)|(to & uf & Hin & Hp)]; exists to, uf.
    + apply list_elem_of_singleton in Hin. split; [|done].
      apply elem_of_cons. by left.
    + split; [|done]. apply elem_of_cons. by right.
Qed.

(** The loop over the entries of an ID in a walk with recursion. *)
Lemma foreach_recursive data to_ids heap data' heap' ok H :
  keeps_pointers (callback data) ->
  truthy (Z.land (flag data) IDWALK_RECURSE) = true ->
  BKE_lib_query_foreachid_iter_stop data = false ->
  ids_handled data = Some H ->
  foreach_to_ids data to_ids heap = Some (data', heap', ok) ->
  h_pointers heap' = h_pointers heap /\
  same_walk data data' /\
  ok = negb (BKE_lib_query_foreachid_iter_stop data') /\
  exists H' new,
    ids_handled data' = Some H' /\
    ids_todo data' = new ++ ids_todo data /\
    H ⊆ H' /\ H' ⊆ H ∪ targets (h_pointers heap) to_ids /\
    NoDup new /\
    (forall x, x ∈ new -> (x ∉ H) /\ x ∈ H') /\
    (never_stops (callback data) ->
     ok = true /\ H' = H ∪ targets (h_pointers heap) to_ids /\
     forall x, x ∈ H' -> x ∉ H -> x ∈ new).
Proof.
  revert data heap H.
  induction to_ids as [|[to uf] l IH]; intros data heap H Hkeep Hrec Hgo HH Hrun.
  - cbn in Hrun. injection Hrun as <- <- <-.
    split; [done|]. split; [apply same_walk_refl|].
    split; [by rewrite Hgo|]. exists H, [].
    assert (Ht : targets (h_pointers heap) [] = ∅) by done.
    rewrite Ht. split; [done|]. split; [done|]. split; [done|].
    split; [apply union_subseteq_l|]. split; [constructor|].
    split; [intros x Hx; by apply elem_of_nil in Hx|].
    intros _. split; [done|]. split.
    + apply set_eq. intros x. rewrite elem_of_union, elem_of_empty. tauto.
    + intros x Hx Hnx. done.
  - cbn [foreach_to_ids] in Hrun.
    destruct (BKE_lib_query_foreachid_process data to uf heap)
      as [[data1 heap1]|] eqn:Hp; [|done].
    cbn [mbind option_bind] in Hrun.
    destruct (process_recursive _ _ _ _ _ _ _ Hkeep Hrec Hgo HH Hp)
      as (Hptr1 & Hsw1 & ret & new1 & Hcb & Hstop1 & Hh1 & Htodo1 & Hnew1 & Hall1).
    rewrite targets_cons_union.
    set (t1 := targets (h_pointers heap) [(to, uf)]) in *.
    set (tl := targets (h_pointers heap) l) in *.
    assert (Hnd1 : NoDup new1).
    { destruct new1 as [|x new1]; [constructor|].
      destruct (Hnew1 x) as (_ & _ & E); [by left|]. rewrite E.
      apply NoDup_singleton. }
    destruct (BKE_lib_query_foreachid_iter_stop data1) eqn:Hs1.
    + injection Hrun as <- <- <-.
      split; [done|]. split; [done|]. split; [by rewrite Hs1|].
      exists (H ∪ t1), new1. split; [done|]. split; [done|].
      split; [apply union_subseteq_l|].
      split; [intros x; rewrite !elem_of_union; tauto|].
      split; [done|]. split.
      * intros x Hx. destruct (Hnew1 x Hx) as (Hn & Ht & _).
        split; [done|]. by apply elem_of_union_r.
      * intros Hnever. destruct (Hnever _ _ _ _ Hcb) as [Hns _].
        symmetry in Hstop1. apply truthy_true in Hstop1. done.
    + destruct Hsw1 as (E1 & E2 & E3 & E4 & E5 & E6 & E7).
      destruct (IH data1 heap1 (H ∪ t1)) as
        (Hptr2 & Hsw2 & Hok & H2 & new2 & Hh2 & Htodo2 & Hsub2 & Hsup2 &
         Hnd2 & Hnew2 & Hnever2);
        [by rewrite E7 | by rewrite E4 | done | done | done |].
      split; [congruence|].
      split; [by apply (same_walk_trans _ data1)|]. split; [done|].
      rewrite Hptr1 in Hsup2, Hnever2. fold tl in Hsup2, Hnever2.
      exists H2, (new2 ++ new1). split; [done|].
      split; [by rewrite Htodo2, Htodo1, app_assoc|].
      split; [intros x Hx; apply Hsub2; by apply elem_of_union_l|].
      split.
      { intros x Hx. apply Hsup2 in Hx. revert Hx.
        rewrite !elem_of_union. tauto. }
      split.
      { apply NoDup_app. split; [done|]. split; [|done].
        intros x Hx2 Hx1. destruct (Hnew2 x Hx2) as [Hn _]. apply Hn.
        destruct (Hnew1 x Hx1) as (_ & Ht & _). by apply elem_of_union_r. }
      split.
      { intros x Hx. apply elem_of_app in Hx as [Hx|Hx].
        - destruct (Hnew2 x Hx) as [Hn Hi]. split; [|done].
          intros Hin. apply Hn. by apply elem_of_union_l.
        - destruct (Hnew1 x Hx) as (Hn & Ht & _). split; [done|].
          apply Hsub2. by apply elem_of_union_r. }
      intros Hnever. destruct Hnever2 as (Hok2 & HH2 & Hall2);
        [by rewrite E7|].
      split; [done|]. split.
      { rewrite HH2. apply set_eq. intros x. rewrite !elem_of_union. tauto. }
      intros x Hx Hnx. apply elem_of_app.
      destruct (decide (x ∈ t1)) as [Ht1|Hnt1].
      * right. destruct (Hnever _ _ _ _ Hcb) as [_ Hnr].
        apply Hall1; [by apply truthy_false | done | done].
      * left. apply Hall2; [done|]. rewrite elem_of_union. tauto.
Qed.

Lemma walk_data_fields f inherit_data data id owner heap data1 :
  walk_data f inherit_data data id owner heap = Some data1 ->
  self_id data1 = Some id /\ bmain data1 = bmain data /\
  flag data1 = flag data /\ callback data1 = callback data /\
  status data1 = status data /\ ids_handled data1 = ids_handled data /\
  ids_todo data1 = ids_todo data.
Proof.
  unfold walk_data. intros Hw.
  destruct (h_flag heap !! id) as [id_flag|]; [|done].
  cbn [mbind option_bind] in Hw.
  destruct inherit_data as [inh|].
  - injection Hw as <-. done.
  - destruct (h_lib heap !! id) as [lib|]; [|done].
    cbn [mbind option_bind] in Hw.
    destruct (h_tag heap !! id) as [tag|]; [|done].
    cbn [mbind option_bind] in Hw. injection Hw as <-. done.
Qed.

Lemma elem_of_pointees pointers p :
  p ∈ pointees pointers <-> exists to, pointers !! to = Some (Some p).
Proof.
  unfold pointees. rewrite elem_of_list_to_set, list_elem_of_omap. split.
  - intros ([to v] & Hin & Hv). cbn in Hv. subst v.
    exists to. by apply elem_of_map_to_list.
  - intros (to & Hto). exists (to, Some p). split; [|done].
    by apply elem_of_map_to_list.
Qed.

Lemma targets_pointees pointers to_ids :
  targets pointers to_ids ⊆ pointees pointers.
Proof.
  intros p Hp. apply elem_of_targets in Hp as (to & uf & _ & Hto).
  apply elem_of_pointees. by exists to.
Qed.

(** The IDs queued in a turn take room in what is left to handle. *)
Lemma measure_step (S H H2 : gset ID) (new : list ID) :
  H ⊆ H2 -> H2 ⊆ S -> NoDup new ->
  (forall x, x ∈ new -> (x ∉ H) /\ x ∈ H2) ->
  (size (S ∖ H2) + length new <= size (S ∖ H))%nat.
Proof.
  intros H12 H2S Hnd Hnew.
  rewrite <- (size_list_to_set (C := gset ID) new) by done.
  rewrite <- size_union.
  - apply subseteq_size. intros x. rewrite elem_of_union, !elem_of_difference,
      elem_of_list_to_set. intros [[Hs Hn]|Hx].
    + split; [done|]. intros Hin. apply Hn. by apply H12.
    + destruct (Hnew x Hx) as [Hn Hi]. split; [by apply H2S | done].
  - intros x. rewrite elem_of_difference, elem_of_list_to_set.
    intros [_ Hn] Hx. apply Hn. by apply Hnew.
Qed.

Lemma walk_data_is_Some f inherit_data data id owner heap :
  is_Some (h_flag heap !! id) -> is_Some (h_lib heap !! id) ->
  is_Some (h_tag heap !! id) ->
  is_Some (walk_data f inherit_data data id owner heap).
Proof.
  intros [fl Hfl] [lb Hlb] [tg Htg]. unfold walk_data.
  rewrite Hfl. cbn [mbind option_bind].
  destruct inherit_data; [by eexists|].
  rewrite Hlb, Htg. cbn [mbind option_bind]. by eexists.
Qed.

(** One call of the process has a result when the pointer exists and the
    callback answers, in a walk whose set of handled IDs is there. *)
Lemma process_is_Some data to uf heap :
  answers (callback data) ->
  is_Some (h_pointers heap !! to) ->
  is_Some (ids_handled data) ->
  is_Some (BKE_lib_query_foreachid_process data to uf heap).
Proof.
  intros Hans [old Hold] [H HH]. unfold BKE_lib_query_foreachid_process.
  destruct (BKE_lib_query_foreachid_iter_stop data); [by eexists|].
  rewrite Hold. cbn [mbind option_bind].
  match goal with |- context [callback data ?c heap] =>
    destruct (Hans c heap) as [[ret h1] Hcb]; [cbn; by rewrite Hold|];
    rewrite Hcb
  end.
  cbn [mbind option_bind]. rewrite HH.
  destruct old as [p|]; [|by eexists].
  destruct (truthy (Z.land (flag data) IDWALK_RECURSE)); [|by eexists].
  cbn [mbind option_bind]. destruct (decide (p ∈ H)); by eexists.
Qed.

Lemma process_keeps_ids data to uf heap data' heap' :
  keeps_ids (callback data) ->
  BKE_lib_query_foreachid_process data to uf heap = Some (data', heap') ->
  h_flag heap' = h_flag heap /\ h_lib heap' = h_lib heap /\
  forall x, is_Some (h_tag heap !! x) -> is_Some (h_tag heap' !! x).
Proof.
  intros Hk Hp.
  destruct (BKE_lib_query_foreachid_iter_stop data) eqn:Hs.
  - rewrite process_stopped in Hp by done. by injection Hp as <- <-.
  - destruct (process_running _ _ _ _ _ _ Hs Hp)
      as (old & ret & data1 & _ & Hcb & _). by apply Hk in Hcb.
Qed.

Lemma foreach_keeps_ids data to_ids heap data' heap' ok :
  keeps_ids (callback data) ->
  foreach_to_ids data to_ids heap = Some (data', heap', ok) ->
  h_flag heap' = h_flag heap /\ h_lib heap' = h_lib heap /\
  forall x, is_Some (h_tag heap !! x) -> is_Some (h_tag heap' !! x).
Proof.
  revert data heap. induction to_ids as [|[to uf] l IH]; intros data heap Hk Hrun.
  - cbn in Hrun. by injection Hrun as <- <- <-.
  - cbn [foreach_to_ids] in Hrun.
    destruct (BKE_lib_query_foreachid_process data to uf heap)
      as [[data1 heap1]|] eqn:Hp; [|done].
    cbn [mbind option_bind] in Hrun.
    destruct (process_keeps_ids _ _ _ _ _ _ Hk Hp) as (F1 & L1 & T1).
    assert (Hcb1 : callback data1 = callback data).
    { destruct (BKE_lib_query_foreachid_iter_stop data) eqn:Hs.
      - rewrite process_stopped in Hp by done. by injection Hp as <- <-.
      - destruct (process_running _ _ _ _ _ _ Hs Hp)
          as (old & ret & d1 & _ & _ & -> & _ & _ & Hcases).
        destruct Hcases as [->|(p & h & _ & _ & _ & _ & ->)];
          by destruct (truthy (Z.land ret IDWALK_RET_STOP_ITER)). }
    destruct (BKE_lib_query_foreachid_iter_stop data1).
    + by injection Hrun as <- <- <-.
    + destruct (IH data1 heap1) as (F2 & L2 & T2); [by rewrite Hcb1 | done |].
      split; [congruence|]. split; [congruence|]. intros x Hx. by apply T2, T1.
Qed.

Lemma foreach_is_Some data to_ids heap :
  answers (callback data) -> keeps_pointers (callback data) ->
  (forall e, e ∈ to_ids -> is_Some (h_pointers heap !! fst e)) ->
  is_Some (ids_handled data) ->
  is_Some (foreach_to_ids data to_ids heap).
Proof.
  revert data heap.
  induction to_ids as [|[to uf] l IH]; intros data heap Hans Hkeep Hptr Hh;
    [by eexists|].
  cbn [foreach_to_ids].
  destruct (process_is_Some data to uf heap) as [[data1 heap1] Hp]; try done.
  { apply (Hptr (to, uf)). apply elem_of_cons. by left. }
  rewrite Hp. cbn [mbind option_bind].
  assert (H1 : callback data1 = callback data /\ is_Some (ids_handled data1) /\
               h_pointers heap1 = h_pointers heap).
  { destruct (BKE_lib_query_foreachid_iter_stop data) eqn:Hs.
    - rewrite process_stopped in Hp by done. by injection Hp as <- <-.
    - destruct (process_running _ _ _ _ _ _ Hs Hp)
        as (old & ret & d1 & _ & Hcb & -> & _ & _ & Hcases).
      apply Hkeep in Hcb.
      destruct Hcases as [->|(p & h & _ & _ & _ & _ & ->)];
        by destruct (truthy (Z.land ret IDWALK_RET_STOP_ITER)). }
  destruct H1 as (Hcb1 & Hh1 & Hp1).
  destruct (BKE_lib_query_foreachid_iter_stop data1); [by eexists|].
  apply IH; rewrite ?Hcb1, ?Hp1; try done.
  intros e He. apply Hptr. apply elem_of_cons. by right.
Qed.

(** The loop of the walk with recursion over the relations cache: it goes
    through no ID twice, it ends within as many turns as there are IDs left
    to handle or queued, and with a callback that never stops it goes
    through the IDs that can be reached. *)
Lemma loop_recursive fuel :
  forall bmain f inherit_data rel (S : gset ID) pointers root
    data id owner heap walked H,
  use_bmain_relations bmain f = Some rel ->
  flag data = f -> truthy (Z.land f IDWALK_RECURSE) = true ->
  keeps_pointers (callback data) ->
  BKE_lib_query_foreachid_iter_stop data = false ->
  ids_handled data = Some H ->
  NoDup (ids_todo data) -> (forall x, x ∈ ids_todo data -> x ∈ H) ->
  id ∈ H -> id ∉ ids_todo data ->
  NoDup walked -> id ∉ walked ->
  (forall x, x ∈ walked -> x ∈ H /\ x ∉ ids_todo data) ->
  H ⊆ S -> h_pointers heap = pointers -> pointees pointers ⊆ S ->
  ((size (S ∖ H) + length (ids_todo data) < fuel)%nat ->
   library_foreach_ID_link_loop fuel bmain f inherit_data data id owner
     heap walked <> OutOfFuel) /\
  (forall heap' ok walked',
     library_foreach_ID_link_loop fuel bmain f inherit_data data id owner
       heap walked = Done (heap', ok, walked') ->
     NoDup walked' /\ (forall x, x ∈ walked' -> x ∈ S) /\
     (never_stops (callback data) ->
      root ∈ H ->
      (forall x, x ∈ H -> x ∈ walked \/ x = id \/ x ∈ ids_todo data) ->
      (forall x p, x ∈ walked -> points_to rel pointers x p -> p ∈ H) ->
      (forall x, x ∈ H -> reachable rel pointers root x) ->
      ok = true /\
      forall x, x ∈ walked' <-> reachable rel pointers root x)) /\
  (answers (callback data) -> keeps_ids (callback data) ->
   ids_in_memory S heap -> relations_cover rel pointers S ->
   library_foreach_ID_link_loop fuel bmain f inherit_data data id owner
     heap walked <> Undefined).
Proof.
  induction fuel as [|fuel IH];
    intros bmain f inherit_data rel S pointers root data id owner heap walked H
      Hrel Hflag Hrec Hkeep Hgo HH Hnd Htodo Hid Hidt Hndw Hidw Hwalked HS
      Hptr HpS.
  { split; [intros Hm; lia|]. split; [intros heap' ok walked' Hd; done | done]. }
  cbn [library_foreach_ID_link_loop].
  destruct (walk_data f inherit_data data id owner heap) as [data1|] eqn:Hwd;
    [|split; [done|]; split; [intros ? ? ? Hd; done|];
      intros _ _ Hmem _; exfalso;
      destruct (Hmem id (HS id Hid)) as (M1 & M2 & M3);
      destruct (walk_data_is_Some f inherit_data data id owner heap M1 M2 M3)
        as [? Hsome]; congruence].
  destruct (walk_data_fields _ _ _ _ _ _ _ Hwd)
    as (Eself & Ebm & Efl & Ecb & Est & Ehd & Etd).
  rewrite Hrel.
  destruct (relations_from_pointers rel !! id) as [to_ids|] eqn:Hentry;
    [|split; [done|]; split; [intros ? ? ? Hd; done|];
      intros _ _ _ Hcov; exfalso;
      destruct (Hcov id (HS id Hid)) as (l & Hl & _); congruence].
  destruct (foreach_to_ids data1 to_ids heap) as [[[data2 heap2] ok2]|] eqn:Hrun;
    [|split; [done|]; split; [intros ? ? ? Hd; done|];
      intros Hans _ _ Hcov; exfalso;
      destruct (Hcov id (HS id Hid)) as (l & Hl & Hl');
      rewrite Hentry in Hl; injection Hl as <-;
      destruct (foreach_is_Some data1 to_ids heap) as [? Hsome];
        [by rewrite Ecb | by rewrite Ecb | by rewrite Hptr
        | rewrite Ehd, HH; by eexists | congruence]].
  destruct (foreach_recursive data1 to_ids heap data2 heap2 ok2 H)
    as (Hptr2 & Hsw & Hok & H2 & new & Hh2 & Htodo2 & Hsub & Hsup & Hndn &
        Hnew & Hnever); try done.
  { by rewrite Ecb. }
  { by rewrite Efl, Hflag. }
  { unfold BKE_lib_query_foreachid_iter_stop in *. by rewrite Est. }
  { by rewrite Ehd. }
  rewrite Etd in Htodo2. rewrite Hptr in Hsup, Hnever.
  assert (HndW : NoDup (walked ++ [id])).
  { apply NoDup_app. split; [done|]. split; [|apply NoDup_singleton].
    intros x Hx Hx'. apply list_elem_of_singleton in Hx' as ->. done. }
  assert (HWS : forall x, x ∈ walked ++ [id] -> x ∈ S).
  { intros x Hx. apply HS. apply elem_of_app in Hx as [Hx|Hx].
    - by apply Hwalked.
    - by apply list_elem_of_singleton in Hx as ->. }
  assert (Hclosed : never_stops (callback data) ->
            (forall x p, x ∈ walked -> points_to rel pointers x p -> p ∈ H) ->
            forall x p, x ∈ walked ++ [id] -> points_to rel pointers x p ->
                        p ∈ H2).
  { intros Hns Hcl x p Hx Hpt. apply elem_of_app in Hx as [Hx|Hx].
    - apply Hsub. by apply (Hcl x).
    - apply list_elem_of_singleton in Hx as ->.
      destruct Hnever as (_ & -> & _); [by rewrite Ecb|].
      apply elem_of_union_r. destruct Hpt as (l & to & uf & Hl & Hin & Hp).
      rewrite Hentry in Hl. injection Hl as <-.
      apply elem_of_targets. by exists to, uf. }
  assert (Hreach : never_stops (callback data) ->
            (forall x, x ∈ H -> reachable rel pointers root x) ->
            forall x, x ∈ H2 -> reachable rel pointers root x).
  { intros Hns Hr x Hx. apply Hsup in Hx. apply elem_of_union in Hx as [Hx|Hx].
    - by apply Hr.
    - apply elem_of_targets in Hx as (to & uf & Hin & Hp).
      apply (reachable_step _ _ _ id); [by apply Hr|].
      by exists to_ids, to, uf. }
  assert (Hfinal : forall heap' ok walked',
            Done (heap2, ok2, walked ++ [id]) = Done (heap', ok, walked') ->
            ok2 = false \/ ids_todo data2 = [] ->
            NoDup walked' /\ (forall x, x ∈ walked' -> x ∈ S) /\
            (never_stops (callback data) ->
             root ∈ H ->
             (forall x, x ∈ H -> x ∈ walked \/ x = id \/ x ∈ ids_todo data) ->
             (forall x p, x ∈ walked -> points_to rel pointers x p -> p ∈ H) ->
             (forall x, x ∈ H -> reachable rel pointers root x) ->
             ok = true /\
             forall x, x ∈ walked' <-> reachable rel pointers root x)).
  { intros heap' ok walked' [= <- <- <-] Hend.
    split; [done|]. split; [done|].
    intros Hns Hroot Hexact Hcl Hr.
    destruct Hnever as (Hok2 & HH2 & Hall); [by rewrite Ecb|].
    split; [done|].
    destruct Hend as [Hend|Hend]; [congruence|].
    rewrite Hend in Htodo2. symmetry in Htodo2.
    apply app_eq_nil in Htodo2 as [Hn0 Ht0].
    assert (Hw2 : forall x, x ∈ H2 -> x ∈ walked ++ [id]).
    { intros x Hx. destruct (decide (x ∈ H)) as [HxH|HxH].
      - destruct (Hexact x HxH) as [Hw|[->|Ht]].
        + apply elem_of_app. by left.
        + apply elem_of_app. right. by apply list_elem_of_singleton.
        + rewrite Ht0 in Ht. by apply elem_of_nil in Ht.
      - specialize (Hall x Hx HxH). rewrite Hn0 in Hall.
        by apply elem_of_nil in Hall. }
    intros x. split.
    - intros Hx. apply (Hreach Hns Hr). apply elem_of_app in Hx as [Hx|Hx].
      + apply Hsub. by apply Hwalked.
      + apply list_elem_of_singleton in Hx as ->. by apply Hsub.
    - intros Hx. apply Hw2. induction Hx as [|x p Hx IHx Hpt].
      + by apply Hsub.
      + apply (Hclosed Hns Hcl x p); [by apply Hw2 | done]. }
  destruct ok2;
    [|split; [done|]; split; [|done]; intros heap' ok walked' Hd;
      apply (Hfinal heap' ok walked' Hd); by left].
  rewrite Hrec.
  destruct (ids_todo data2) as [|id' todo'] eqn:Htd2;
    [split; [done|]; split; [|done]; intros heap' ok walked' Hd;
     apply (Hfinal heap' ok walked' Hd); by right|].
  clear Hfinal.
  assert (HndT : NoDup (new ++ ids_todo data)).
  { apply NoDup_app. split; [done|]. split; [|done].
    intros x Hx Hx'. destruct (Hnew x Hx) as [Hn _]. apply Hn. by apply Htodo. }
  rewrite <- Htodo2 in HndT. apply NoDup_cons in HndT as [Hid' HndT'].
  assert (Hin' : forall x, x ∈ id' :: todo' ->
            (x ∈ new /\ (x ∉ H) /\ x ∈ H2) \/ (x ∈ ids_todo data /\ x ∈ H)).
  { intros x Hx. rewrite Htodo2 in Hx. apply elem_of_app in Hx as [Hx|Hx].
    - left. destruct (Hnew x Hx). done.
    - right. split; [done | by apply Htodo]. }
  assert (Hstat : BKE_lib_query_foreachid_iter_stop data2 = false).
  { by destruct (BKE_lib_query_foreachid_iter_stop data2). }
  destruct Hsw as (S1 & S2 & S3 & S4 & S5 & S6 & S7).
  assert (HS2 : H2 ⊆ S).
  { intros x Hx. apply Hsup in Hx. apply elem_of_union in Hx as [Hx|Hx].
    - by apply HS.
    - by apply HpS, (targets_pointees pointers to_ids). }
  destruct (IH bmain f inherit_data rel S pointers root
              (with_ids_todo data2 todo') id' None heap2 (walked ++ [id]) H2)
    as (IHfuel & IHdone & IHdef); try done.
  - cbn. by rewrite S4, Efl.
  - cbn. by rewrite S7, Ecb.
  - intros x Hx. cbn in Hx.
    destruct (Hin' x) as [(_ & _ & Hx2)|[_ HxH]]; [by right | done |].
    by apply Hsub.
  - destruct (Hin' id') as [(_ & _ & Hx2)|[_ HxH]]; [by left | done |].
    by apply Hsub.
  - intros Hx. apply elem_of_app in Hx as [Hx|Hx].
    + destruct (Hin' id') as [(_ & Hn & _)|[Ht _]]; [by left | |].
      * apply Hn. by apply Hwalked.
      * by apply (Hwalked id').
    + apply list_elem_of_singleton in Hx as ->.
      destruct (Hin' id) as [(_ & Hn & _)|[Ht _]]; [by left | done | done].
  - intros x Hx. cbn [with_ids_todo ids_todo].
    assert (HxH : x ∈ H /\ x ∉ ids_todo data).
    { apply elem_of_app in Hx as [Hx|Hx]; [by apply Hwalked|].
      by apply list_elem_of_singleton in Hx as ->. }
    destruct HxH as [HxH Hxt]. split; [by apply Hsub|].
    intros Hx'. destruct (Hin' x) as [(_ & Hn & _)|[Ht _]]; [by right | done | done].
  - congruence.
  - split; [|split].
    + intros Hm. apply IHfuel. cbn [with_ids_todo ids_todo].
      pose proof (measure_step S H H2 new Hsub HS2 Hndn Hnew) as Hms.
      apply (f_equal length) in Htodo2. rewrite length_app in Htodo2.
      cbn [length] in Htodo2. lia.
    + intros heap' ok walked' Hd.
      destruct (IHdone heap' ok walked' Hd) as (Hn' & Hs' & Hr').
      split; [done|]. split; [done|].
      intros Hns Hroot Hexact Hcl Hr.
      destruct Hnever as (_ & HH2 & Hall); [by rewrite Ecb|].
      apply Hr'.
      * cbn. by rewrite S7, Ecb.
      * by apply Hsub.
      * intros x Hx. cbn [with_ids_todo ids_todo].
        assert (Hq : x ∈ id' :: todo' -> x = id' \/ x ∈ todo')
          by (intros Hq; by apply elem_of_cons in Hq).
        destruct (decide (x ∈ H)) as [HxH|HxH].
        -- destruct (Hexact x HxH) as [Hw|[->|Ht]].
           ++ left. apply elem_of_app. by left.
           ++ left. apply elem_of_app. right. by apply list_elem_of_singleton.
           ++ right. apply Hq. rewrite Htodo2. apply elem_of_app. by right.
        -- right. apply Hq. rewrite Htodo2. apply elem_of_app. left.
           by apply Hall.
      * by apply Hclosed.
      * by apply Hreach.
    + intros Hans Hkids Hmem Hcov. apply IHdef; try done.
      * cbn. by rewrite S7, Ecb.
      * cbn. by rewrite S7, Ecb.
      * destruct (foreach_keeps_ids data1 to_ids heap data2 heap2 true)
          as (F2 & L2 & T2); [by rewrite Ecb | done |].
        intros x Hx. destruct (Hmem x Hx) as (M1 & M2 & M3).
        rewrite F2, L2. split; [done|]. split; [done|]. by apply T2.
Qed.

(** The walk with recursion over the relations cache, from its start. *)
Lemma walk_recursive fuel bmain rel root cb f heap :
  use_bmain_relations bmain (walk_flag f) = Some rel ->
  truthy (Z.land (walk_flag f) IDWALK_RECURSE) = true ->
  keeps_pointers cb ->
  let S : gset ID := {[root]} ∪ pointees (h_pointers heap) in
  let run := BKE_library_foreach_ID_link fuel bmain (Some root) cb f heap in
  ((size (pointees (h_pointers heap)) < fuel)%nat -> run <> OutOfFuel) /\
  (forall heap' ok walked',
     run = Done (heap', ok, walked') ->
     NoDup walked' /\ (forall x, x ∈ walked' -> x ∈ S) /\
     (never_stops cb ->
      ok = true /\
      forall x, x ∈ walked' <-> reachable rel (h_pointers heap) root x)) /\
  (answers cb -> keeps_ids cb -> ids_in_memory S heap ->
   relations_cover rel (h_pointers heap) S -> run <> Undefined).
Proof.
  intros Hrel Hrec Hkeep S run.
  assert (Hh : ids_handled (walk_start bmain (Some root) cb f)
               = Some {[root]}).
  { unfold walk_start. cbn [ids_handled]. unfold walk_flag in Hrec.
    destruct (truthy (Z.land
                (if truthy (Z.land f IDWALK_NO_ORIG_POINTERS_ACCESS)
                 then Z.lor f IDWALK_IGNORE_MISSING_OWNER_ID else f)
                IDWALK_RECURSE)) eqn:E; [reflexivity|].
    cbv zeta in Hrec. rewrite E in Hrec. congruence. }
  destruct (loop_recursive fuel bmain (walk_flag f) None rel S
              (h_pointers heap) root (walk_start bmain (Some root) cb f)
              root None heap [] {[root]})
    as (Hfuel & Hdone & Hdef); try done.
  - constructor.
  - intros x Hx. by apply elem_of_nil in Hx.
  - by apply elem_of_singleton.
  - apply not_elem_of_nil.
  - constructor.
  - apply not_elem_of_nil.
  - intros x Hx. by apply elem_of_nil in Hx.
  - apply union_subseteq_l.
  - apply union_subseteq_r.
  - split; [|split].
    + intros Hm. apply Hfuel. cbn [ids_todo walk_start length].
      assert (size (S ∖ {[root]}) <= size (pointees (h_pointers heap)))%nat;
        [|lia].
      apply subseteq_size. intros x Hx.
      apply elem_of_difference in Hx as [Hx Hn].
      apply elem_of_union in Hx as [Hx|Hx]; [done | exact Hx].
    + intros heap' ok walked' Hd.
      destruct (Hdone heap' ok walked' Hd) as (Hnd & Hin & Hall).
      split; [exact Hnd|]. split; [exact Hin|].
      intros Hns. apply Hall; try done.
      * by apply elem_of_singleton.
      * intros x Hx. right; left. by apply elem_of_singleton in Hx.
      * intros x p Hx. by apply elem_of_nil in Hx.
      * intros x Hx. apply elem_of_singleton in Hx as ->. constructor.
    + exact Hdef.
Qed.

(** X20. A walk of [BKE_library_foreach_ID_link] with recursion, reading
    the relations cache, ends: with a callback that writes no ID pointer,
    answers and frees no ID, IDs that are in memory and in the cache, and
    more turns than the pointers of the memory have pointees, the walk has
    a result. It went through no ID twice, and only through the root and
    pointees. *)
Theorem recursive_walk_ends fuel bmain rel root cb f heap :
  use_bmain_relations bmain (walk_flag f) = Some rel ->
  truthy (Z.land (walk_flag f) IDWALK_RECURSE) = true ->
  keeps_pointers cb -> answers cb -> keeps_ids cb ->
  ids_in_memory ({[root]} ∪ pointees (h_pointers heap)) heap ->
  relations_cover rel (h_pointers heap)
    ({[root]} ∪ pointees (h_pointers heap)) ->
  (size (pointees (h_pointers heap)) < fuel)%nat ->
  exists heap' ok walked,
    BKE_library_foreach_ID_link fuel bmain (Some root) cb f heap =
      Done (heap', ok, walked) /\
    NoDup walked /\
    forall x, x ∈ walked -> x = root \/ x ∈ pointees (h_pointers heap).
Proof.
  intros Hrel Hrec Hkeep Hans Hkids Hmem Hcov Hfuel.
  destruct (walk_recursive fuel bmain rel root cb f heap Hrel Hrec Hkeep)
    as (Hnf & Hdone & Hdef).
  specialize (Hnf Hfuel). specialize (Hdef Hans Hkids Hmem Hcov).
  destruct (BKE_library_foreach_ID_link fuel bmain (Some root) cb f heap)
    as [[[heap' ok] walked]| |] eqn:Hrun; [|done|done].
  exists heap', ok, walked. split; [reflexivity|].
  destruct (Hdone heap' ok walked eq_refl) as (Hnd & Hin & _).
  split; [exact Hnd|]. intros x Hx.
  apply Hin, elem_of_union in Hx as [Hx|Hx]; [left | by right].
  by apply elem_of_singleton in Hx.
Qed.

(** X21. When the callback never asks to stop and writes no ID pointer, a
    walk of [BKE_library_foreach_ID_link] with recursion over the relations
    cache returns true, and the IDs it went through are exactly the IDs
    that can be reached from the root along the entries of the cache. *)
Theorem recursive_walk_visits_reachable fuel bmain rel root cb f heap
  heap' ok walked :
  use_bmain_relations bmain (walk_flag f) = Some rel ->
  truthy (Z.land (walk_flag f) IDWALK_RECURSE) = true ->
  keeps_pointers cb -> never_stops cb ->
  BKE_library_foreach_ID_link fuel bmain (Some root) cb f heap =
    Done (heap', ok, walked) ->
  ok = true /\
  forall x, x ∈ walked <-> reachable rel (h_pointers heap) root x.
Proof.
  intros Hrel Hrec Hkeep Hns Hrun.
  destruct (walk_recursive fuel bmain rel root cb f heap Hrel Hrec Hkeep)
    as (_ & Hdone & _).
  destruct (Hdone heap' ok walked Hrun) as (_ & _ & Hall). by apply Hall.
Qed.

(** X22. In a walk with recursion [BKE_library_foreach_ID_embedded], for a
    pointer that exists, does what [BKE_lib_query_foreachid_process] does
    with the flag [IDWALK_CB_EMBEDDED], and nothing more: the process has
    put the embedded ID among the handled ones, so the deferred push never
    happens. *)
Theorem embedded_in_recursion_is_process data id_pp heap :
  truthy (Z.land (flag data) IDWALK_RECURSE) = true ->
  is_Some (h_pointers heap !! id_pp) ->
  BKE_library_foreach_ID_embedded data id_pp heap =
  BKE_lib_query_foreachid_process data id_pp IDWALK_CB_EMBEDDED heap.
Proof.
  intros Hrec [old Hold]. unfold BKE_library_foreach_ID_embedded.
  rewrite Hold. cbn [mbind option_bind].
  destruct (BKE_lib_query_foreachid_iter_stop data) eqn:Hs.
  { rewrite process_stopped by done. cbn [mbind option_bind].
    by rewrite Hs. }
  destruct (BKE_lib_query_foreachid_process data id_pp IDWALK_CB_EMBEDDED heap)
    as [[data1 heap1]|] eqn:Hp; [|reflexivity].
  cbn [mbind option_bind].
  destruct (BKE_lib_query_foreachid_iter_stop data1) eqn:Hs1; [reflexivity|].
  destruct old as [id|]; [|reflexivity].
  destruct (truthy (Z.land (flag data) IDWALK_IGNORE_EMBEDDED_ID));
    [reflexivity|].
  rewrite Hrec.
  unfold BKE_lib_query_foreachid_process in Hp. rewrite Hs, Hold in Hp.
  cbn [mbind option_bind] in Hp.
  destruct (callback data _ heap) as [[ret h1]|]; [|done].
  cbn [mbind option_bind] in Hp. rewrite Hrec in Hp.
  destruct (ids_handled data) as [H|] eqn:HH; [|done].
  cbn [mbind option_bind] in Hp.
  assert (Hin : exists H1, ids_handled data1 = Some H1 /\ id ∈ H1).
  { destruct (decide (id ∈ H)) as [Hid|Hid];
      cbn [mbind option_bind] in Hp; injection Hp as <- <-;
      destruct (truthy (Z.land ret IDWALK_RET_STOP_ITER));
      cbn [ids_handled with_status with_recursion]; rewrite ?HH;
      eexists; (split; [reflexivity|]); try exact Hid;
      apply elem_of_union_l; by apply elem_of_singleton. }
  destruct Hin as (H1 & -> & Hin). cbn [mbind option_bind].
  by rewrite decide_True.
Qed.

End RecursiveWalk.

Section RecursiveWalkWitnesses.
Import LibQuery.
Import LibQuery.DemoWalk.

Lemma demo_ids (x : ID) :
  x ∈ ({[7%positive]} ∪ pointees pointers : gset ID) ->
  x = 7%positive \/ x = 9%positive.
Proof.
  intros Hx. apply elem_of_union in Hx as [Hx|Hx].
  - left. by apply elem_of_singleton in Hx.
  - apply elem_of_pointees in Hx as [a Ha]. unfold pointers in Ha.
    repeat (apply lookup_insert_Some in Ha as [[_ Ha]|[_ Ha]];
            [first [discriminate | injection Ha as <-; auto]|]).
    by rewrite lookup_empty in Ha.
Qed.

Lemma nop_cb_keeps_pointers : keeps_pointers nop_cb.
Proof. intros cbd h ret h' [= _ <-]. reflexivity. Qed.

Lemma nop_cb_never_stops : never_stops nop_cb.
Proof. intros cbd h ret h' [= <- _]. split; reflexivity. Qed.

Lemma recursive_walk_ends_witness :
  exists heap' ok walked,
    BKE_library_foreach_ID_link 3 (Some main) (Some 7%positive) nop_cb 3
      (heap tt) = Done (heap', ok, walked) /\
    NoDup walked /\
    forall x, x ∈ walked ->
      x = 7%positive \/ x ∈ pointees (h_pointers (heap tt)).
Proof.
  apply (recursive_walk_ends 3 (Some main) relations_cache 7%positive nop_cb
           3 (heap tt)).
  - reflexivity.
  - reflexivity.
  - exact nop_cb_keeps_pointers.
  - intros cbd h _. by eexists.
  - intros cbd h ret h' [= _ <-]. done.
  - intros x Hx. destruct (demo_ids x Hx) as [->| ->];
      (split; [|split]); by eexists.
  - intros x Hx. destruct (demo_ids x Hx) as [->| ->]; eexists;
      (split; [reflexivity|]); intros e He;
      repeat (apply elem_of_cons in He as [->|He]; [by eexists|]);
      by apply elem_of_nil in He.
  - vm_compute. lia.
Defined.

Lemma recursive_walk_visits_reachable_witness :
  true = true /\
  forall x, x ∈ [7%positive; 9%positive] <->
            reachable relations_cache (h_pointers (heap tt)) 7%positive x.
Proof.
  apply (recursive_walk_visits_reachable 3 (Some main) relations_cache
           7%positive nop_cb 3 (heap tt) (heap tt) true
           [7%positive; 9%positive]).
  - reflexivity.
  - reflexivity.
  - exact nop_cb_keeps_pointers.
  - exact nop_cb_never_stops.
  - reflexivity.
Defined.

Lemma embedded_in_recursion_is_process_witness :
  BKE_library_foreach_ID_embedded (walk 3 0 0 stop_at_9) 2%positive (heap tt) =
  BKE_lib_query_foreachid_process (walk 3 0 0 stop_at_9) 2%positive
    IDWALK_CB_EMBEDDED (heap tt).
Proof.
  apply (embedded_in_recursion_is_process (walk 3 0 0 stop_at_9) 2%positive
           (heap tt)).
  - reflexivity.
  - by eexists.
Defined.

End RecursiveWalkWitnesses.
